(** * IVR automation: state tracker, request legs, drivers and flows

    A shallow embedding of

    - [lib/ivr_state_tracker_fixed.js]: the state taxonomy, the classifier
      [identifyState], the transition tracker [updateState], the pattern
      registry [addStatePattern], the action policy [getNextAction] and
      [getInput], [reset], [getState], [getHistory];
    - [lib/ivr_flow_tester.js]: the request legs [startCall], [sendDtmf],
      [continueCall], [endCall], [extractTextFromResponse], and the test
      flows [testRefillPrescription], [testCheckStatus],
      [testPharmacyHours] and [runAllTests];
    - the integration module (class [IvrIntegration]): [extractAction],
      [askAmazonQ] and the driver [runAutomatedNavigation], and the runner
      script that calls it;
    - [ivr-auto-navigator.js] (class [IvrAutoNavigator]): [extractAction],
      [sendMessage] and its [runAutomatedNavigation];
    - the server of the session API: the conversation kept by
      [sendMessage].

    Strings are Rocq strings (sequences of 8-bit characters); case folding,
    whitespace and digits are the ASCII ones.  Time stamps, console output and
    the files written by the loggers are left out. *)

From Stdlib Require Import ZArith Ascii String List Bool Lia.
From stdpp Require Import base decidable countable gmap list strings.
Import ListNotations.

(** ** The JavaScript string operations used by the sources *)

Module Js.

Definition isUpper (c : ascii) : bool :=
  let n := nat_of_ascii c in Nat.leb 65 n && Nat.leb n 90.

Definition lowerChar (c : ascii) : ascii :=
  if isUpper c then ascii_of_nat (nat_of_ascii c + 32) else c.

(** [s.toLowerCase()] *)
Fixpoint toLowerCase (s : string) : string :=
  match s with
  | EmptyString => EmptyString
  | String c r => String (lowerChar c) (toLowerCase r)
  end.

(** [s.startsWith(p)] *)
Fixpoint startsWith (s p : string) : bool :=
  match p, s with
  | EmptyString, _ => true
  | String _ _, EmptyString => false
  | String a p', String b s' => Ascii.eqb a b && startsWith s' p'
  end.

(** [s.includes(p)] *)
Fixpoint includes (s p : string) : bool :=
  startsWith s p ||
  match s with
  | EmptyString => false
  | String _ s' => includes s' p
  end.

(** White space as removed by [trim()]: TAB, LF, VT, FF, CR and space. *)
Definition isSpace (c : ascii) : bool :=
  let n := nat_of_ascii c in (Nat.leb 9 n && Nat.leb n 13) || Nat.eqb n 32.

Fixpoint trimStart (s : string) : string :=
  match s with
  | EmptyString => EmptyString
  | String c r => if isSpace c then trimStart r else s
  end.

Fixpoint trimEnd (s : string) : string :=
  match s with
  | EmptyString => EmptyString
  | String c r =>
      match trimEnd r with
      | EmptyString => if isSpace c then EmptyString else String c EmptyString
      | r' => String c r'
      end
  end.

(** [s.trim()] *)
Definition trim (s : string) : string := trimEnd (trimStart s).

(** [s.trim() === ''] *)
Definition isBlank (s : string) : bool := String.eqb (trim s) "".

(** [s.split('\n')]: always at least one piece. *)
Fixpoint splitLines (s : string) : list string :=
  match s with
  | EmptyString => [EmptyString]
  | String c r =>
      if Ascii.eqb c "010"%char then EmptyString :: splitLines r
      else match splitLines r with
           | [] => [String c EmptyString]
           | l :: ls => String c l :: ls
           end
  end.

(** [s.charAt(0)]: the empty string when [s] is empty. *)
Definition charAt0 (s : string) : string :=
  match s with
  | EmptyString => EmptyString
  | String c _ => String c EmptyString
  end.

(** [s.substring(1)] *)
Definition substring1 (s : string) : string :=
  match s with
  | EmptyString => EmptyString
  | String _ r => r
  end.

(** [\d] *)
Definition isDigit (c : ascii) : bool :=
  let n := nat_of_ascii c in Nat.leb 48 n && Nat.leb n 57.

Fixpoint allDigits (s : string) : bool :=
  match s with
  | EmptyString => true
  | String c r => isDigit c && allDigits r
  end.

(** [/^\d+$/.test(s)] *)
Definition isDigitString (s : string) : bool :=
  Nat.leb 1 (String.length s) && allDigits s.

(** [/^\d{2,}$/.test(s)] *)
Definition isMultiDigit (s : string) : bool :=
  Nat.leb 2 (String.length s) && allDigits s.

Fixpoint takeDigits (s : string) : string :=
  match s with
  | EmptyString => EmptyString
  | String c r => if isDigit c then String c (takeDigits r) else EmptyString
  end.

(** [s.match(/\d+/)]: the leftmost maximal run of digits, [None] for the
    [null] of a string without digits. *)
Fixpoint matchDigits (s : string) : option string :=
  match s with
  | EmptyString => None
  | String c r => if isDigit c then Some (takeDigits s) else matchDigits r
  end.

(** [a.join(' ')] *)
Fixpoint joinSpace (l : list string) : string :=
  match l with
  | [] => EmptyString
  | [x] => x
  | x :: r => x +:+ " " +:+ joinSpace r
  end.

(** Remainder [%] on integers: the sign follows the dividend. *)
Definition rem (a b : Z) : Z := Z.rem a b.

(** [a[i]]: [None] stands for [undefined]. *)
Definition index {A} (a : list A) (i : Z) : option A :=
  if Z.ltb i 0 then None else a !! Z.to_nat i.

End Js.

(** ** [lib/ivr_state_tracker_fixed.js] *)

Module Tracker.

(** The values of [IVR_STATES], in declaration order.  Every state handled
    by the tracker is one of them: the registry of discovered patterns is
    keyed by these states too. *)
Inductive IvrState : Set :=
| GREETING | MAIN_MENU | REFILL_PRESCRIPTION | CHECK_STATUS
| PRESCRIBER_MENU | PHARMACY_HOURS | WEEKLY_HOURS | LEAVE_MESSAGE
| HOME_DELIVERY | REPEAT_OPTIONS | TRANSFER_TO_PHARMACY
| ENTER_RX_NUMBER | CONFIRM_RX | INVALID_SELECTION | UNKNOWN.

(** [Object.values(IVR_STATES)] *)
Definition IVR_STATES : list IvrState :=
  [GREETING; MAIN_MENU; REFILL_PRESCRIPTION; CHECK_STATUS; PRESCRIBER_MENU;
   PHARMACY_HOURS; WEEKLY_HOURS; LEAVE_MESSAGE; HOME_DELIVERY;
   REPEAT_OPTIONS; TRANSFER_TO_PHARMACY; ENTER_RX_NUMBER; CONFIRM_RX;
   INVALID_SELECTION; UNKNOWN].

Definition stateName (s : IvrState) : string :=
  match s with
  | GREETING => "greeting"
  | MAIN_MENU => "main_menu"
  | REFILL_PRESCRIPTION => "refill_prescription"
  | CHECK_STATUS => "check_status"
  | PRESCRIBER_MENU => "prescriber_menu"
  | PHARMACY_HOURS => "pharmacy_hours"
  | WEEKLY_HOURS => "weekly_hours"
  | LEAVE_MESSAGE => "leave_message"
  | HOME_DELIVERY => "home_delivery"
  | REPEAT_OPTIONS => "repeat_options"
  | TRANSFER_TO_PHARMACY => "transfer_to_pharmacy"
  | ENTER_RX_NUMBER => "enter_rx_number"
  | CONFIRM_RX => "confirm_rx"
  | INVALID_SELECTION => "invalid_selection"
  | UNKNOWN => "unknown"
  end.

#[global] Instance IvrState_eq_dec : EqDecision IvrState.
Proof. solve_decision. Defined.

Definition stateIndex (s : IvrState) : nat :=
  match s with
  | GREETING => 0 | MAIN_MENU => 1 | REFILL_PRESCRIPTION => 2
  | CHECK_STATUS => 3 | PRESCRIBER_MENU => 4 | PHARMACY_HOURS => 5
  | WEEKLY_HOURS => 6 | LEAVE_MESSAGE => 7 | HOME_DELIVERY => 8
  | REPEAT_OPTIONS => 9 | TRANSFER_TO_PHARMACY => 10
  | ENTER_RX_NUMBER => 11 | CONFIRM_RX => 12 | INVALID_SELECTION => 13
  | UNKNOWN => 14
  end.

#[global] Instance IvrState_countable : Countable IvrState.
Proof.
  refine (inj_countable' stateIndex (fun n => nth n IVR_STATES UNKNOWN) _).
  intros []; reflexivity.
Defined.

(** [STATE_PATTERNS], as [Object.entries] enumerates it. *)
Definition STATE_PATTERNS : list (IvrState * list string) :=
  [ (GREETING,
     ["global greeting"; "welcome to"; "Thank you for calling"]);
    (MAIN_MENU,
     ["To refill a prescription, press 1";
      "To check the status of a prescription, press 2";
      "If you are a prescriber, press 3";
      "To hear pharmacy hours and information, press 4";
      "To leave a message, press 5";
      "For our home delivery service, press 7";
      "To repeat these options, press 8";
      "To speak to the pharmacy, press 9"]);
    (REFILL_PRESCRIPTION,
     ["Please enter the prescription number";
      "Enter the prescription number you would like to refill"]);
    (CHECK_STATUS,
     ["Please enter the prescription number you would like to check";
      "Enter the prescription number to check status"]);
    (PRESCRIBER_MENU,
     ["For new prescriptions or to authorize refills, press 1";
      "To transfer to the pharmacy, press 2";
      "If you are a prescriber"]);
    (PHARMACY_HOURS,
     ["Today we're open until";
      "Press 1 for our weekly hours";
      "pharmacy hours and information"]);
    (WEEKLY_HOURS,
     ["Our normal business hours"; "Monday from"; "Tuesday from"]);
    (LEAVE_MESSAGE,
     ["leave your message after the tone";
      "leave a message";
      "After you're finished with your message"]);
    (HOME_DELIVERY,
     ["home delivery service"; "mail order"; "delivery service"]);
    (REPEAT_OPTIONS,
     ["repeat these options"; "repeat the menu"; "hear the options again"]);
    (TRANSFER_TO_PHARMACY,
     ["transferring you"; "connect you"; "speak to the pharmacy"]);
    (ENTER_RX_NUMBER,
     ["enter the prescription number";
      "Please enter the prescription";
      "Enter your prescription"]);
    (CONFIRM_RX,
     ["confirm"; "Is this correct"; "Press 1 to confirm"]);
    (INVALID_SELECTION,
     ["You entered an invalid selection";
      "invalid option";
      "not a valid selection"]) ].

(** [STATE_TRANSITIONS[s]]: every state has an entry. *)
Definition STATE_TRANSITIONS (s : IvrState) : list IvrState :=
  match s with
  | GREETING => [MAIN_MENU]
  | MAIN_MENU =>
      [REFILL_PRESCRIPTION; CHECK_STATUS; PRESCRIBER_MENU; PHARMACY_HOURS;
       LEAVE_MESSAGE; HOME_DELIVERY; REPEAT_OPTIONS; TRANSFER_TO_PHARMACY;
       INVALID_SELECTION; MAIN_MENU]
  | REFILL_PRESCRIPTION => [ENTER_RX_NUMBER; MAIN_MENU]
  | CHECK_STATUS => [ENTER_RX_NUMBER; MAIN_MENU]
  | PRESCRIBER_MENU => [TRANSFER_TO_PHARMACY; MAIN_MENU]
  | PHARMACY_HOURS => [WEEKLY_HOURS; MAIN_MENU]
  | WEEKLY_HOURS => [MAIN_MENU]
  | LEAVE_MESSAGE => [MAIN_MENU]
  | HOME_DELIVERY => [MAIN_MENU]
  | REPEAT_OPTIONS => [MAIN_MENU]
  | TRANSFER_TO_PHARMACY => []
  | ENTER_RX_NUMBER => [CONFIRM_RX; MAIN_MENU]
  | CONFIRM_RX => [MAIN_MENU; TRANSFER_TO_PHARMACY]
  | INVALID_SELECTION => [MAIN_MENU]
  | UNKNOWN => IVR_STATES
  end.

(** [STATE_DTMF_OPTIONS[s]]: [None] where the table has no entry. *)
Definition STATE_DTMF_OPTIONS (s : IvrState) : option (list string) :=
  match s with
  | MAIN_MENU => Some ["1"; "2"; "3"; "4"; "5"; "7"; "8"; "9"]
  | PHARMACY_HOURS => Some ["1"; "2"; "9"]
  | WEEKLY_HOURS => Some ["9"]
  | PRESCRIBER_MENU => Some ["1"; "2"]
  | CONFIRM_RX => Some ["1"; "2"]
  | LEAVE_MESSAGE => Some ["#"]
  | REPEAT_OPTIONS => Some ["1"; "2"; "3"; "4"; "5"; "7"; "8"; "9"]
  | HOME_DELIVERY => Some ["9"]
  | UNKNOWN =>
      Some ["1"; "2"; "3"; "4"; "5"; "6"; "7"; "8"; "9"; "0"; "*"; "#"]
  | _ => None
  end.

(** What the tracker hands to its [logger]. *)
Inductive LogMsg : Set :=
| LogTransition (from to : IvrState)
| LogInvalidTransition (from to : IvrState)
| LogAddedPattern (state : IvrState) (pattern : string).

(** The fields of a [FixedIvrStateTracker].  [stateTransitions] has one
    inner object per state (the constructor creates them all), so the outer
    object is a function; the inner ones are finite maps.
    [discoveredPatterns] keeps the insertion order of its keys, which is
    the order [identifyState] scans it in.  [logged] collects the calls of
    [logger]. *)
Record Tracker : Type := mkTracker {
  currentState : IvrState;
  previousState : option IvrState;
  stateHistory : list IvrState;
  stateTransitions : IvrState -> gmap IvrState nat;
  discoveredStates : gset IvrState;
  discoveredPatterns : list (IvrState * list string);
  logged : list LogMsg
}.

(** [new FixedIvrStateTracker(logger)] *)
Definition newTracker : Tracker :=
  {| currentState := UNKNOWN;
     previousState := None;
     stateHistory := [];
     stateTransitions := fun _ => ∅;
     discoveredStates := ∅;
     discoveredPatterns := [];
     logged := [] |}.

(** The two loops of [identifyState] over the entries of a pattern table:
    the first state one of whose patterns occurs in [lowerText]. *)
Fixpoint scanPatterns (lowerText : string)
    (table : list (IvrState * list string)) : option IvrState :=
  match table with
  | [] => None
  | (state, patterns) :: rest =>
      if existsb (fun pattern => Js.includes lowerText (Js.toLowerCase pattern))
                 patterns
      then Some state
      else scanPatterns lowerText rest
  end.

(** The block "Special case handling for specific menu options" of
    [identifyState]: [None] when none of its four tests fires. *)
Definition specialCase (previous : option IvrState) (lowerText : string)
    : option IvrState :=
  if Js.includes lowerText "please enter the prescription number" then
    if Js.includes lowerText "refill"
       || bool_decide (previous = Some REFILL_PRESCRIPTION)
    then Some REFILL_PRESCRIPTION
    else if Js.includes lowerText "status"
            || bool_decide (previous = Some CHECK_STATUS)
    then Some CHECK_STATUS
    else Some ENTER_RX_NUMBER
  else if Js.includes lowerText "for new prescriptions or to authorize refills"
  then Some PRESCRIBER_MENU
  else if Js.includes lowerText "leave your message after the tone"
  then Some LEAVE_MESSAGE
  else if Js.includes lowerText "invalid selection"
  then Some INVALID_SELECTION
  else None.

(** [identifyState(responseText)] *)
Definition identifyState (t : Tracker) (responseText : string) : IvrState :=
  if String.eqb responseText "" then UNKNOWN
  else
    let lowerText := Js.toLowerCase responseText in
    match specialCase (previousState t) lowerText with
    | Some state => state
    | None =>
        match scanPatterns lowerText STATE_PATTERNS with
        | Some state => state
        | None =>
            match scanPatterns lowerText (discoveredPatterns t) with
            | Some state => state
            | None => UNKNOWN
            end
        end
    end.

(** The counting of one transition in [stateTransitions]: a missing count
    is first set to 0, then incremented. *)
Definition tally (tt : IvrState -> gmap IvrState nat) (from to : IvrState)
    : IvrState -> gmap IvrState nat :=
  fun s =>
    if decide (s = from)
    then <[to := S (default 0 (tt from !! to))]> (tt from)
    else tt s.

(** [updateState(responseText)]: the returned state and the tracker after
    the call. *)
Definition updateState (t : Tracker) (responseText : string)
    : IvrState * Tracker :=
  let newState := identifyState t responseText in
  let discovered := {[newState]} ∪ discoveredStates t in
  let validTransitions := STATE_TRANSITIONS (currentState t) in
  let isValidTransition :=
    bool_decide (newState ∈ validTransitions)
    || bool_decide (currentState t = UNKNOWN) in
  if bool_decide (newState ≠ currentState t) then
    let transitions :=
      if bool_decide (currentState t ≠ UNKNOWN)
      then tally (stateTransitions t) (currentState t) newState
      else stateTransitions t in
    if isValidTransition then
      (newState,
       {| currentState := newState;
          previousState := Some (currentState t);
          stateHistory := stateHistory t ++ [newState];
          stateTransitions := transitions;
          discoveredStates := discovered;
          discoveredPatterns := discoveredPatterns t;
          logged := logged t ++ [LogTransition (currentState t) newState] |})
    else
      (newState,
       {| currentState := newState;
          previousState := Some (currentState t);
          stateHistory := stateHistory t ++ [newState];
          stateTransitions := transitions;
          discoveredStates := discovered;
          discoveredPatterns := discoveredPatterns t;
          logged :=
            logged t ++ [LogInvalidTransition (currentState t) newState] |})
  else
    (currentState t,
     {| currentState := currentState t;
        previousState := previousState t;
        stateHistory := stateHistory t;
        stateTransitions := stateTransitions t;
        discoveredStates := discovered;
        discoveredPatterns := discoveredPatterns t;
        logged := logged t |}).

(** [this.discoveredPatterns[state]] *)
Fixpoint registered (reg : list (IvrState * list string)) (state : IvrState)
    : option (list string) :=
  match reg with
  | [] => None
  | (s, patterns) :: rest =>
      if decide (s = state) then Some patterns else registered rest state
  end.

(** [this.discoveredPatterns[state].push(pattern)] for a key that is
    present. *)
Fixpoint pushPattern (reg : list (IvrState * list string))
    (state : IvrState) (pattern : string) : list (IvrState * list string) :=
  match reg with
  | [] => []
  | (s, patterns) :: rest =>
      if decide (s = state) then (s, patterns ++ [pattern]) :: rest
      else (s, patterns) :: pushPattern rest state pattern
  end.

(** [addStatePattern(state, pattern)] *)
Definition addStatePattern (t : Tracker) (state : IvrState)
    (pattern : string) : Tracker :=
  let reg :=
    match registered (discoveredPatterns t) state with
    | None => discoveredPatterns t ++ [(state, [])]
    | Some _ => discoveredPatterns t
    end in
  if bool_decide (pattern ∈ default [] (registered reg state)) then
    {| currentState := currentState t;
       previousState := previousState t;
       stateHistory := stateHistory t;
       stateTransitions := stateTransitions t;
       discoveredStates := discoveredStates t;
       discoveredPatterns := reg;
       logged := logged t |}
  else
    {| currentState := currentState t;
       previousState := previousState t;
       stateHistory := stateHistory t;
       stateTransitions := stateTransitions t;
       discoveredStates := discoveredStates t;
       discoveredPatterns := pushPattern reg state pattern;
       logged := logged t ++ [LogAddedPattern state pattern] |}.

(** The [options] of [getNextAction], with the defaults of its
    destructuring in [defaultOptions]. *)
Record Options : Set := mkOptions {
  mode : string;
  explorationDepth : Z
}.

Definition defaultOptions : Options :=
  {| mode := "normal"; explorationDepth := 0 |}.

(** The object [getNextAction] returns; an [input] of [None] is
    [undefined]. *)
Record Action : Set := mkAction {
  action : string;
  input : option string;
  description : string
}.

(** A value inside a template literal. *)
Definition interpolate (v : option string) : string :=
  match v with
  | Some s => s
  | None => "undefined"
  end.

(** The [switch] of [getNextAction]. *)
Definition scriptedAction (s : IvrState) : Action :=
  match s with
  | GREETING => mkAction "continue" (Some "") "Continuing from greeting"
  | MAIN_MENU => mkAction "hours" (Some "4") "Selecting pharmacy hours"
  | PHARMACY_HOURS => mkAction "weekly" (Some "1") "Selecting weekly hours"
  | WEEKLY_HOURS => mkAction "back" (Some "9") "Returning to main menu"
  | REFILL_PRESCRIPTION | ENTER_RX_NUMBER =>
      mkAction "default" (Some "0001234") "Entering prescription number"
  | CHECK_STATUS =>
      mkAction "default" (Some "0001234")
               "Entering prescription number for status"
  | CONFIRM_RX => mkAction "confirm" (Some "1") "Confirming prescription"
  | PRESCRIBER_MENU =>
      mkAction "transfer" (Some "2") "Transferring to pharmacy"
  | LEAVE_MESSAGE => mkAction "finish" (Some "#") "Finishing message"
  | HOME_DELIVERY => mkAction "back" (Some "9") "Returning to main menu"
  | REPEAT_OPTIONS =>
      mkAction "hours" (Some "4") "Selecting pharmacy hours after repeat"
  | TRANSFER_TO_PHARMACY =>
      mkAction "default" (Some "") "Waiting during transfer"
  | INVALID_SELECTION =>
      mkAction "default" (Some "9")
               "Returning to main menu after invalid selection"
  | _ => mkAction "default" (Some "") "Default action for unknown state"
  end.

(** The [case] labels of that [switch]; every other state takes its
    [default] branch. *)
Definition scriptedCases : list IvrState :=
  [GREETING; MAIN_MENU; PHARMACY_HOURS; WEEKLY_HOURS; REFILL_PRESCRIPTION;
   ENTER_RX_NUMBER; CHECK_STATUS; CONFIRM_RX; PRESCRIBER_MENU;
   LEAVE_MESSAGE; HOME_DELIVERY; REPEAT_OPTIONS; TRANSFER_TO_PHARMACY;
   INVALID_SELECTION].

(** [getDtmfOptions()], also the first statement of the exploration
    branch: [STATE_DTMF_OPTIONS[this.currentState] ||
    STATE_DTMF_OPTIONS[IVR_STATES.UNKNOWN]] *)
Definition getDtmfOptions (t : Tracker) : list string :=
  match STATE_DTMF_OPTIONS (currentState t) with
  | Some options => options
  | None => default [] (STATE_DTMF_OPTIONS UNKNOWN)
  end.

(** [getNextAction(options)] *)
Definition getNextAction (t : Tracker) (options : Options) : Action :=
  if String.eqb (mode options) "explore" then
    let dtmfOptions := getDtmfOptions t in
    if Nat.ltb 0 (length dtmfOptions) then
      let optionIndex :=
        Js.rem (explorationDepth options) (Z.of_nat (length dtmfOptions)) in
      {| action := "explore";
         input := Js.index dtmfOptions optionIndex;
         description :=
           "Exploring option "
           +:+ interpolate (Js.index dtmfOptions optionIndex)
           +:+ " in state " +:+ stateName (currentState t) |}
    else scriptedAction (currentState t)
  else scriptedAction (currentState t).

End Tracker.

(** ** Computations with state, exceptions and fuel *)

Module Effects.

(** How a computation ends: with a value, with a thrown error (its
    message), or, for the one loop that is not bounded by its shape, with
    the fuel used up. *)
Inductive Outcome (A : Type) : Type :=
| Return (a : A)
| Throw (message : string)
| OutOfFuel.
Arguments Return {A} a.
Arguments Throw {A} message.
Arguments OutOfFuel {A}.

Definition M (S A : Type) : Type := S -> Outcome A * S.

#[global] Instance M_ret {S} : MRet (M S) :=
  fun A (a : A) s => (Return a, s).

#[global] Instance M_bind {S} : MBind (M S) :=
  fun A B (k : A -> M S B) (m : M S A) s =>
    match m s with
    | (Return a, s') => k a s'
    | (Throw message, s') => (Throw message, s')
    | (OutOfFuel, s') => (OutOfFuel, s')
    end.

(** [throw new Error(message)] *)
Definition throw {S A} (message : string) : M S A :=
  fun s => (Throw message, s).

(** [try { body } catch (error) { handler(error.message) }] *)
Definition tryCatch {S A} (body : M S A) (handler : string -> M S A)
    : M S A :=
  fun s =>
    match body s with
    | (Throw message, s') => handler message s'
    | other => other
    end.

Definition get {S} : M S S := fun s => (Return s, s).

Definition modify {S} (f : S -> S) : M S unit := fun s => (Return tt, f s).

Definition outOfFuel {S A} : M S A := fun s => (OutOfFuel, s).

#[global] Instance Outcome_fmap : FMap Outcome :=
  fun A B (f : A -> B) (o : Outcome A) =>
    match o with
    | Return a => Return (f a)
    | Throw message => Throw message
    | OutOfFuel => OutOfFuel
    end.

End Effects.

(** ** The remote collaborators and the state of a session *)

Module Session.
Import Effects.

(** A [Say] element as xml2js (with [explicitArray: false]) parses it: a
    string, or an object when the element has attributes. *)
Inductive SayNode : Set :=
| SayText (text : string)
| SayElement.

(** The [Say] property of a parsed element: absent, one node, or an array
    of nodes. *)
Inductive SayField : Set :=
| SayAbsent
| SaySingle (node : SayNode)
| SayArray (nodes : list SayNode).

(** The [Response] element of a reply: its [Say] and its [Gather.Say]. *)
Record ResponseBody : Set := mkResponse {
  Say : SayField;
  GatherSay : SayField
}.

(** What [parseXmlResponse] returns: [None] for [null] (the reply did not
    parse) and for a document without [Response]. *)
Definition Parsed : Set := option ResponseBody.

(** The two delays of the driver: [defaultWaitTime] and half of it. *)
Inductive Delay : Set := FullWait | HalfWait.

(** What a session does that can be observed from outside, in order: the
    requests sent to the voice endpoint (the legs), the requests sent to
    the Amazon Q session API, and the waits. *)
Inductive Event : Set :=
| EvStartCall
| EvSendDtmf (digits : string)
| EvContinueCall
| EvEndCall
| EvWait (delay : Delay)
| EvCreateSession
| EvMessage (prompt : string)
| EvDeleteSession.

(** The collaborators behind HTTP, each a function of an environment that
    it may change: a reply is an error message ([inl]) or a value.  The
    replies of the voice endpoint are taken after [parseXmlResponse]. *)
Class Remote (Env : Type) : Type := {
  (** [uuidv4().substring(0, 8)] *)
  uuid8 : Env -> string * Env;
  (** [POST /twilio/v1/voice] with [CallSid] and, or not, [Digits] *)
  postVoice : string -> option string -> Env -> (string + Parsed) * Env;
  (** [POST /twilio/v1/voice/status] with [CallSid] *)
  postVoiceStatus : string -> Env -> (string + Parsed) * Env;
  (** [POST /api/sessions]: the session id *)
  postSession : Env -> (string + string) * Env;
  (** [POST /api/sessions/:id/messages]: the answer *)
  postMessage : string -> string -> Env -> (string + string) * Env;
  (** [DELETE /api/sessions/:id] *)
  deleteSession : string -> Env -> (string + unit) * Env
}.

(** The fields of an [IvrFlowTester] that the driver reads or writes. *)
Record IvrFlowTester : Type := mkTester {
  sid : option string;
  lastResponse : Parsed;
  callActive : bool;
  stateTracker : Tracker.Tracker
}.

(** An entry of [IvrIntegration.history]. *)
Record HistoryEntry : Set := mkEntry {
  step : nat;
  prompt : string;
  response : string;
  action : string;
  ivrResponse : option string
}.

(** The fields of an [IvrIntegration]. *)
Record IvrIntegration : Set := mkIntegration {
  sessionId : option string;
  history : list HistoryEntry;
  currentStep : nat
}.

Record World (Env : Type) : Type := mkWorld {
  remote : Env;
  tester : IvrFlowTester;
  integration : IvrIntegration;
  events : list Event
}.
Arguments mkWorld {Env}.
Arguments remote {Env}.
Arguments tester {Env}.
Arguments integration {Env}.
Arguments events {Env}.

(** [new IvrFlowTester()] *)
Definition newTester : IvrFlowTester :=
  {| sid := None; lastResponse := None; callActive := false;
     stateTracker := Tracker.newTracker |}.

(** [new IvrIntegration()] *)
Definition newIntegration : IvrIntegration :=
  {| sessionId := None; history := []; currentStep := 0 |}.

Definition newWorld {Env} (env : Env) : World Env :=
  {| remote := env; tester := newTester; integration := newIntegration;
     events := [] |}.

Section WithRemote.
Context {Env : Type} `{Remote Env}.

Definition setTester (f : IvrFlowTester -> IvrFlowTester)
    : M (World Env) unit :=
  modify (fun w => mkWorld (remote w) (f (tester w)) (integration w)
                           (events w)).

Definition setIntegration (f : IvrIntegration -> IvrIntegration)
    : M (World Env) unit :=
  modify (fun w => mkWorld (remote w) (tester w) (f (integration w))
                           (events w)).

(** One request: the event is recorded, the collaborator answers, and an
    error reply is thrown. *)
Definition request {A} (event : Event) (call : Env -> (string + A) * Env)
    : M (World Env) A :=
  fun w =>
    let (reply, env) := call (remote w) in
    let w' := mkWorld env (tester w) (integration w)
                      (events w ++ [event]) in
    match reply with
    | inl message => (Throw message, w')
    | inr a => (Return a, w')
    end.

(** [await new Promise(resolve => setTimeout(resolve, delay))] *)
Definition wait (delay : Delay) : M (World Env) unit :=
  modify (fun w => mkWorld (remote w) (tester w) (integration w)
                           (events w ++ [EvWait delay])).

End WithRemote.

End Session.

(** ** [lib/ivr_flow_tester.js] *)

Module FlowTester.
Import Effects Session.

Definition nodeText (node : SayNode) : string :=
  match node with
  | SayText text => text
  | SayElement => ""
  end.

(** The text taken from one [Say] property. *)
Definition sayText (say : SayField) : string :=
  match say with
  | SayAbsent => ""
  | SaySingle node => nodeText node
  | SayArray nodes => Js.joinSpace (map nodeText nodes)
  end.

(** [extractTextFromResponse(response)] *)
Definition extractTextFromResponse (response : Parsed) : string :=
  match response with
  | None => ""
  | Some resp => sayText (Say resp) +:+ sayText (GatherSay resp)
  end.

Section WithRemote.
Context {Env : Type} `{Remote Env}.

(** The end of [startCall], [sendDtmf] and [continueCall]: the reply is
    kept in [lastResponse] and its text is given to the tracker. *)
Definition received (parsedResponse : Parsed) : M (World Env) unit :=
  setTester (fun t =>
    {| sid := sid t;
       lastResponse := parsedResponse;
       callActive := callActive t;
       stateTracker :=
         snd (Tracker.updateState (stateTracker t)
                (extractTextFromResponse parsedResponse)) |}).

(** [startCall(testName)] *)
Definition startCall (testName : string) : M (World Env) Parsed :=
  w ← get;
  let (uuid, env) := uuid8 (remote w) in
  let newSid := testName +:+ "_" +:+ uuid in
  modify (fun w => mkWorld env (tester w) (integration w) (events w));;
  setTester (fun t =>
    {| sid := Some newSid; lastResponse := lastResponse t;
       callActive := callActive t; stateTracker := stateTracker t |});;
  parsedResponse ← request EvStartCall (postVoice newSid None);
  received parsedResponse;;
  setTester (fun t =>
    {| sid := sid t; lastResponse := lastResponse t;
       callActive := true; stateTracker := stateTracker t |});;
  mret parsedResponse.

(** [sendDtmf(digits)] *)
Definition sendDtmf (digits : string) : M (World Env) Parsed :=
  w ← get;
  match callActive (tester w), sid (tester w) with
  | true, Some callSid =>
      parsedResponse ←
        request (EvSendDtmf digits) (postVoice callSid (Some digits));
      received parsedResponse;;
      mret parsedResponse
  | _, _ => throw "No active call"
  end.

(** [continueCall()] *)
Definition continueCall : M (World Env) Parsed :=
  w ← get;
  match callActive (tester w), sid (tester w) with
  | true, Some callSid =>
      parsedResponse ← request EvContinueCall (postVoice callSid None);
      received parsedResponse;;
      mret parsedResponse
  | _, _ => throw "No active call"
  end.

(** [endCall()] *)
Definition endCall : M (World Env) Parsed :=
  w ← get;
  match sid (tester w) with
  | Some callSid =>
      parsedResponse ← request EvEndCall (postVoiceStatus callSid);
      setTester (fun t =>
        {| sid := sid t; lastResponse := lastResponse t;
           callActive := false; stateTracker := stateTracker t |});;
      mret parsedResponse
  | None => throw "No SID"
  end.

End WithRemote.

End FlowTester.

(** ** The integration module: class [IvrIntegration] *)

Module Integration.
Import Effects Session FlowTester.

(** What [runAutomatedNavigation] returns; [resultHistory] is its property
    [history]. *)
Record Result : Set := mkResult {
  success : bool;
  error : option string;
  steps : nat;
  resultHistory : list HistoryEntry
}.

(** Which [break] ended the navigation loop. *)
Inductive LoopExit : Set := HangUp | MaxSteps.

(** The loop variable [testCompleted] when the loop is left, and the
    [break] that left it. *)
Record LoopEnd : Set := mkLoopEnd {
  testCompleted : bool;
  exit : LoopExit
}.

(** The bound of the safety check at the end of the loop body. *)
Definition maxSteps : nat := 20.

(** [extractAction(response)]: the last line that is not blank, trimmed;
    the empty string when there is none. *)
Definition extractAction (response : string) : string :=
  let lines :=
    filter (fun line => line <> "") (map Js.trim (Js.splitLines response)) in
  List.last lines "".

(** [!this.sessionId] *)
Definition noSession (i : IvrIntegration) : bool :=
  match sessionId i with
  | None => true
  | Some id => String.eqb id ""
  end.

Section WithRemote.
Context {Env : Type} `{Remote Env}.

(** [startSession()] *)
Definition startSession : M (World Env) string :=
  id ← request EvCreateSession postSession;
  setIntegration (fun i =>
    {| sessionId := Some id; history := history i;
       currentStep := currentStep i |});;
  mret id.

(** [endSession()]: the errors of the request are caught inside.
    [saveHistory] only writes files. *)
Definition endSession : M (World Env) unit :=
  w ← get;
  if noSession (integration w) then mret tt
  else
    tryCatch
      (request EvDeleteSession
         (deleteSession (default "" (sessionId (integration w))));;
       setIntegration (fun i =>
         {| sessionId := None; history := history i;
            currentStep := currentStep i |}))
      (fun _ => mret tt).

(** [askAmazonQ(ivrPrompt)] *)
Definition askAmazonQ (ivrPrompt : string) : M (World Env) string :=
  w ← get;
  (if noSession (integration w) then startSession;; mret tt else mret tt);;
  w ← get;
  answer ←
    request (EvMessage ivrPrompt)
      (postMessage (default "" (sessionId (integration w))) ivrPrompt);
  mret (extractAction answer).

(** The splitting of a run of digits, written twice in the loop body
    (for an action that is digits, and for the digits found in another
    action): the first digit, a wait, the remaining digits and, when the
    text of that reply is blank, a wait and one call without input. *)
Definition sendSplit (digits : string) : M (World Env) Parsed :=
  let firstDigit := Js.charAt0 digits in
  let remainingDigits := Js.substring1 digits in
  sendDtmf firstDigit;;
  wait HalfWait;;
  response ← sendDtmf remainingDigits;
  let responseText := extractTextFromResponse response in
  if Js.isBlank responseText then
    wait HalfWait;;
    continueCall
  else mret response.

(** The statement "Send the action to the IVR" of the loop body, the [if]
    on the kind of action that assigns [response]: the dispatch of the
    action. *)
Definition dispatch (action : string) : M (World Env) Parsed :=
  if Js.isDigitString action || String.eqb action "*"
     || String.eqb action "#"
  then
    if Js.isMultiDigit action then sendSplit action
    else sendDtmf action
  else
    match Js.matchDigits action with
    | Some digits =>
        if Nat.ltb 1 (String.length digits) then sendSplit digits
        else sendDtmf digits
    | None => sendDtmf (Js.charAt0 action)
    end.

(** The check "Check if we got a blank response after sending digits" that
    follows in the loop body, made on the prompt of the reply: the prompt
    the step ends with. *)
Definition recheckBlank (action newPrompt : string) : M (World Env) string :=
  if Js.isBlank newPrompt && Js.isMultiDigit action then
    response ← continueCall;
    wait FullWait;;
    mret (extractTextFromResponse response)
  else mret newPrompt.

Definition pushHistory (entry : HistoryEntry) : M (World Env) unit :=
  setIntegration (fun i =>
    {| sessionId := sessionId i; history := history i ++ [entry];
       currentStep := currentStep i |}).

(** The loop [while (!testCompleted)] of [runAutomatedNavigation].  The
    loop has no bound of its own; it ends by one of its two [break]s. *)
Fixpoint navigationLoop (fuel : nat) (currentPrompt : string)
    : M (World Env) LoopEnd :=
  match fuel with
  | O => outOfFuel
  | S fuel' =>
      setIntegration (fun i =>
        {| sessionId := sessionId i; history := history i;
           currentStep := S (currentStep i) |});;
      action ← askAmazonQ currentPrompt;
      w ← get;
      let historyEntry (ivr : string) :=
        {| step := currentStep (integration w);
           prompt := currentPrompt;
           response := action;
           action := action;
           ivrResponse := Some ivr |} in
      if String.eqb (Js.toLowerCase action) "hang up" then
        endCall;;
        pushHistory (historyEntry "Call ended");;
        mret {| testCompleted := true; exit := HangUp |}
      else
        response ← dispatch action;
        wait FullWait;;
        newPrompt ← recheckBlank action (extractTextFromResponse response);
        pushHistory (historyEntry newPrompt);;
        w ← get;
        if Nat.leb maxSteps (currentStep (integration w)) then
          endCall;;
          mret {| testCompleted := true; exit := MaxSteps |}
        else navigationLoop fuel' newPrompt
  end.

(** The statements of the [try] block before the loop: the prompt the
    loop starts with. *)
Definition openCall (testName : string) : M (World Env) string :=
  startSession;;
  initialResponse ← startCall testName;
  wait FullWait;;
  setIntegration (fun i =>
    {| sessionId := sessionId i; history := history i;
       currentStep := 0 |});;
  mret (extractTextFromResponse initialResponse).

(** The statements of the [try] block after the loop. *)
Definition closeSession : M (World Env) Result :=
  endSession;;
  w ← get;
  mret {| success := true; error := None;
          steps := currentStep (integration w);
          resultHistory := history (integration w) |}.

(** The [catch] block. *)
Definition cleanUp (message : string) : M (World Env) Result :=
  tryCatch
    (w ← get;
     if callActive (tester w) then endCall;; mret tt else mret tt)
    (fun _ => mret tt);;
  tryCatch endSession (fun _ => mret tt);;
  w ← get;
  mret {| success := false; error := Some message;
          steps := currentStep (integration w);
          resultHistory := history (integration w) |}.

(** [runAutomatedNavigation(testName)], for an integration whose tester
    is set. *)
Definition runAutomatedNavigation (fuel : nat) (testName : string)
    : M (World Env) Result :=
  tryCatch
    (currentPrompt ← openCall testName;
     navigationLoop fuel currentPrompt;;
     closeSession)
    cleanUp.

End WithRemote.

End Integration.

(** ** A scripted environment, for running the driver *)

Module Scripted.
Import Session.

(** The replies still to be given: by the voice endpoint and by Amazon Q.
    A collaborator whose script is used up answers with an error. *)
Record Script : Set := mkScript {
  voiceReplies : list (string + Parsed);
  answers : list (string + string)
}.

Definition nextVoice (script : Script) : (string + Parsed) * Script :=
  match voiceReplies script with
  | [] => (inl "socket hang up", script)
  | reply :: rest => (reply, mkScript rest (answers script))
  end.

Definition nextAnswer (script : Script) : (string + string) * Script :=
  match answers script with
  | [] => (inl "socket hang up", script)
  | reply :: rest => (reply, mkScript (voiceReplies script) rest)
  end.

#[global] Instance scripted : Remote Script := {
  uuid8 script := ("1b9d6bcd", script);
  postVoice _ _ := nextVoice;
  postVoiceStatus _ script := (inr None, script);
  postSession script := (inr "session-1", script);
  postMessage _ _ := nextAnswer;
  deleteSession _ script := (inr tt, script)
}.

(** A reply of the voice endpoint that says [text]. *)
Definition says (text : string) : string + Parsed :=
  inr (Some {| Say := SaySingle (SayText text); GatherSay := SayAbsent |}).

(** A reply without any text. *)
Definition silence : string + Parsed :=
  inr (Some {| Say := SayAbsent; GatherSay := SayAbsent |}).

(** A session in which a call is going on. *)
Definition inCall (script : Script) : World Script :=
  {| remote := script;
     tester := {| sid := Some "T_1b9d6bcd"; lastResponse := None;
                  callActive := true;
                  stateTracker := Tracker.newTracker |};
     integration := {| sessionId := Some "session-1"; history := [];
                       currentStep := 0 |};
     events := [] |}.

(** A session whose second leg and whose call without input are answered
    without text. *)
Definition blankAfterDigits : World Script :=
  inCall (mkScript [says "Please hold"; silence; silence] []).

(** A session whose legs are all answered with text. *)
Definition talkative : World Script :=
  inCall (mkScript [says "Please hold"; says "Is this correct?"] []).

(** Amazon Q answers 1 to every prompt and the menu comes back every time. *)
Definition endless : World Script :=
  newWorld (mkScript (repeat (says "To refill a prescription, press 1") 21)
                     (repeat (inr "1") 20)).

(** A tracker that has heard the weekly hours. *)
Definition weeklyHours : Tracker.Tracker :=
  snd (Tracker.updateState Tracker.newTracker
         "Our normal business hours are Monday from 9 to 5").

(** A tracker that has heard the pharmacy hours. *)
Definition pharmacyHours : Tracker.Tracker :=
  snd (Tracker.updateState Tracker.newTracker
         "Today we're open until 6. Press 1 for our weekly hours").

End Scripted.

(** ** The other methods of [lib/ivr_state_tracker_fixed.js] *)

Module TrackerMethods.
Import Tracker.

(** The names every object inherits from [Object.prototype]. *)
Definition objectPrototypeKeys : list string :=
  ["constructor"; "__defineGetter__"; "__defineSetter__"; "hasOwnProperty";
   "__lookupGetter__"; "__lookupSetter__"; "isPrototypeOf";
   "propertyIsEnumerable"; "toString"; "valueOf"; "__proto__";
   "toLocaleString"].

(** [STATE_INPUTS[s]], as the list of its own properties; every state has an
    entry. *)
Definition STATE_INPUTS (s : IvrState) : list (string * string) :=
  match s with
  | GREETING => [("continue", ""); ("default", "")]
  | MAIN_MENU =>
      [("refill", "1"); ("status", "2"); ("prescriber", "3"); ("hours", "4");
       ("message", "5"); ("delivery", "7"); ("repeat", "8");
       ("pharmacy", "9"); ("default", "9")]
  | REFILL_PRESCRIPTION => [("default", "0001234")]
  | CHECK_STATUS => [("default", "0001234")]
  | PRESCRIBER_MENU => [("new_rx", "1"); ("transfer", "2"); ("default", "2")]
  | PHARMACY_HOURS => [("weekly", "1"); ("back", "2"); ("default", "1")]
  | WEEKLY_HOURS => [("back", "9"); ("default", "9")]
  | LEAVE_MESSAGE => [("finish", "#"); ("default", "#")]
  | HOME_DELIVERY => [("back", "9"); ("default", "9")]
  | REPEAT_OPTIONS => [("default", "")]
  | TRANSFER_TO_PHARMACY => [("default", "")]
  | ENTER_RX_NUMBER => [("default", "0001234")]
  | CONFIRM_RX => [("confirm", "1"); ("cancel", "2"); ("default", "1")]
  | INVALID_SELECTION => [("default", "9")]
  | UNKNOWN => [("default", "")]
  end.

(** The value of [object[key]] for an object whose own properties are
    strings: an own property, a member inherited from [Object.prototype], or
    [undefined]. *)
Inductive Property : Set :=
| Own (value : string)
| Inherited (name : string)
| Undefined.

Fixpoint ownProperty (object : list (string * string)) (key : string)
    : option string :=
  match object with
  | [] => None
  | (k, v) :: rest => if String.eqb k key then Some v else ownProperty rest key
  end.

Definition property (object : list (string * string)) (key : string)
    : Property :=
  match ownProperty object key with
  | Some value => Own value
  | None =>
      if bool_decide (key ∈ objectPrototypeKeys) then Inherited key
      else Undefined
  end.

(** What [getInput] returns: a string, or the inherited member found under
    the name of the action. *)
Inductive InputValue : Set :=
| Token (input : string)
| Member (name : string).

(** [getInput(action, defaultInput)]:
    [stateInputs[action] || stateInputs.default || defaultInput]. *)
Definition getInput (t : Tracker) (action defaultInput : string)
    : InputValue :=
  let stateInputs := STATE_INPUTS (currentState t) in
  let orDefault :=
    match ownProperty stateInputs "default" with
    | Some value => if String.eqb value "" then defaultInput else value
    | None => defaultInput
    end in
  match property stateInputs action with
  | Own value => if String.eqb value "" then Token orDefault else Token value
  | Inherited name => Member name
  | Undefined => Token orDefault
  end.

(** [reset()]: the discovered states, the discovered patterns and the counts
    of the transitions are kept. *)
Definition reset (t : Tracker) : Tracker :=
  {| currentState := UNKNOWN;
     previousState := None;
     stateHistory := [];
     stateTransitions := stateTransitions t;
     discoveredStates := discoveredStates t;
     discoveredPatterns := discoveredPatterns t;
     logged := logged t |}.

(** [getState()] *)
Definition getState (t : Tracker) : IvrState := currentState t.

(** [getHistory()] *)
Definition getHistory (t : Tracker) : list IvrState := stateHistory t.

End TrackerMethods.

(** ** The test flows of [lib/ivr_flow_tester.js] *)

Module Flows.
Import Effects Session FlowTester.

(** The part of the configuration that the flows read. *)
Record Config : Set := mkConfig {
  testRxNumber : string
}.

Definition defaultConfig : Config := {| testRxNumber := "9009400" |}.

(** An entry of [testResults]; its [steps], the log of the flow, are left
    out. *)
Record FlowResult : Set := mkFlowResult {
  success : bool;
  rxNumber : option string;
  error : option string;
  finalState : Tracker.IvrState
}.

(** [testResults]: the properties of the object, in the order in which
    they were added. *)
Definition TestResults : Set := list (string * FlowResult).

(** [testResults[flow] = result]: a property that is there keeps its
    place. *)
Fixpoint assign (results : TestResults) (flow : string)
    (result : FlowResult) : TestResults :=
  match results with
  | [] => [(flow, result)]
  | (name, old) :: rest =>
      if String.eqb name flow then (name, result) :: rest
      else (name, old) :: assign rest flow result
  end.

(** [rxNumber || this.config.testRxNumber] *)
Definition orTestRxNumber (config : Config) (rx : option string) : string :=
  match rx with
  | Some number => if String.eqb number "" then testRxNumber config else number
  | None => testRxNumber config
  end.

(** The test of the reply to the prescription number:
    [responseText.toLowerCase().includes('confirm') ||
     responseText.toLowerCase().includes('is this correct')]. *)
Definition asksToConfirm (responseText : string) : bool :=
  Js.includes (Js.toLowerCase responseText) "confirm"
  || Js.includes (Js.toLowerCase responseText) "is this correct".

Section WithRemote.
Context {Env : Type} `{Remote Env}.

(** [this.stateTracker.getState()] *)
Definition getState : M (World Env) Tracker.IvrState :=
  w ← get;
  mret (TrackerMethods.getState (stateTracker (tester w))).

(** The first statement of the [catch] block of every flow: the call is
    ended if it is still active, and an error of that is dropped. *)
Definition endActiveCall : M (World Env) unit :=
  w ← get;
  if callActive (tester w)
  then tryCatch (endCall;; mret tt) (fun _ => mret tt)
  else mret tt.

(** The body of [testRefillPrescription] and of [testCheckStatus], which
    is written twice and differs in the name of the call, in the digit
    pressed in the main menu and in the name of the flow. *)
Definition prescriptionFlow (callName menuDigit flow : string)
    (config : Config) (rx : option string) (results : TestResults)
    : M (World Env) (bool * TestResults) :=
  let testRx := orTestRxNumber config rx in
  tryCatch
    (startCall (callName +:+ testRx);;
     wait FullWait;;
     continueCall;;
     sendDtmf menuDigit;;
     wait FullWait;;
     sendDtmf testRx;;
     wait FullWait;;
     w ← get;
     let responseText := extractTextFromResponse (lastResponse (tester w)) in
     (if asksToConfirm responseText
      then sendDtmf "1";; wait FullWait
      else mret tt);;
     continueCall;;
     endCall;;
     state ← getState;
     mret (true,
           assign results flow
             {| success := true; rxNumber := Some testRx; error := None;
                finalState := state |}))
    (fun message =>
       endActiveCall;;
       state ← getState;
       mret (false,
             assign results flow
               {| success := false; rxNumber := Some testRx;
                  error := Some message; finalState := state |})).

(** [testRefillPrescription(rxNumber)] *)
Definition testRefillPrescription
    : Config -> option string -> TestResults
      -> M (World Env) (bool * TestResults) :=
  prescriptionFlow "RefillRx_" "1" "refill_prescription".

(** [testCheckStatus(rxNumber)] *)
Definition testCheckStatus
    : Config -> option string -> TestResults
      -> M (World Env) (bool * TestResults) :=
  prescriptionFlow "CheckStatus_" "2" "check_status".

(** [testPharmacyHours()] *)
Definition testPharmacyHours (results : TestResults)
    : M (World Env) (bool * TestResults) :=
  tryCatch
    (startCall "PharmacyHours";;
     wait FullWait;;
     continueCall;;
     sendDtmf "4";;
     wait FullWait;;
     sendDtmf "1";;
     wait FullWait;;
     continueCall;;
     endCall;;
     state ← getState;
     mret (true,
           assign results "pharmacy_hours"
             {| success := true; rxNumber := None; error := None;
                finalState := state |}))
    (fun message =>
       endActiveCall;;
       state ← getState;
       mret (false,
             assign results "pharmacy_hours"
               {| success := false; rxNumber := None;
                  error := Some message; finalState := state |})).

(** [runAllTests()]: the three flows, with the prescription number of the
    configuration; the result is [testResults]. *)
Definition runAllTests (config : Config) (results : TestResults)
    : M (World Env) TestResults :=
  refill ← testRefillPrescription config None results;
  status ← testCheckStatus config None (snd refill);
  hours ← testPharmacyHours (snd status);
  mret (snd hours).

End WithRemote.

End Flows.

(** ** [ivr-auto-navigator.js]: class [IvrAutoNavigator] *)

Module AutoNavigator.
Import Effects Session.

(** *** [extractAction] *)

(** [\s+] at the start of a string: what follows the white space, when
    there is some. *)
Definition afterSpaces (s : string) : option string :=
  match s with
  | EmptyString => None
  | String c r => if Js.isSpace c then Some (Js.trimStart r) else None
  end.

(** [s.substring(n)] *)
Fixpoint substring (n : nat) (s : string) : string :=
  match n, s with
  | O, _ => s
  | S _, EmptyString => EmptyString
  | S n', String _ r => substring n' r
  end.

(** [/press\s+(\d+)/i] matched at the start of a string: the digits
    captured. *)
Definition pressAt (s : string) : option string :=
  if Js.startsWith (Js.toLowerCase s) "press" then
    match afterSpaces (substring 5 s) with
    | Some rest =>
        match Js.takeDigits rest with
        | EmptyString => None
        | digits => Some digits
        end
    | None => None
    end
  else None.

(** [response.match(/press\s+(\d+)/i)]: the digits captured by the
    leftmost match, [None] for [null]. *)
Fixpoint matchPress (s : string) : option string :=
  match pressAt s with
  | Some digits => Some digits
  | None =>
      match s with
      | EmptyString => None
      | String _ r => matchPress r
      end
  end.

(** What follows the digits at the start of a string. *)
Fixpoint afterDigits (s : string) : string :=
  match s with
  | EmptyString => EmptyString
  | String c r => if Js.isDigit c then afterDigits r else s
  end.

(** [response.match(/^\s*(\d+)\s*$/)]: the digits captured. *)
Definition matchStandalone (s : string) : option string :=
  let rest := Js.trimStart s in
  match Js.takeDigits rest with
  | EmptyString => None
  | digits => if Js.isBlank (afterDigits rest) then Some digits else None
  end.

(** [extractAction(response)] *)
Definition extractAction (response : string) : string :=
  match matchPress response with
  | Some digits => digits
  | None =>
      let lower := Js.toLowerCase response in
      if Js.includes lower "press asterisk" || Js.includes lower "press star"
      then "*"
      else if Js.includes lower "press pound"
              || Js.includes lower "press hash"
      then "#"
      else
        match matchStandalone response with
        | Some digits => digits
        | None =>
            if Js.includes lower "hang up" then "Hang Up" else response
        end
  end.

(** [simulateIvrResponse(action)] *)
Definition simulateIvrResponse (action : string) : string :=
  if String.eqb action "1" then
    "You've selected sales. Press 1 for new accounts, press 2 for existing accounts, or press 0 to return to the main menu."
  else if String.eqb action "2" then
    "You've selected support. Press 1 for technical support, press 2 for billing support, or press 0 to return to the main menu."
  else if String.eqb action "0" then
    "Please hold while we connect you to an operator. Your estimated wait time is 5 minutes. Press 1 to continue holding, or press 2 to leave a callback number."
  else
    "I'm sorry, I didn't understand that selection. Press 1 for sales, press 2 for support, or press 0 to speak with an operator.".

(** *** The navigator and its session *)

(** An entry of [history]; the loop sets [action] after [sendMessage] has
    pushed the entry. *)
Record Entry : Set := mkEntry {
  step : nat;
  prompt : string;
  response : string;
  action : option string
}.

(** The fields of an [IvrAutoNavigator]. *)
Record IvrAutoNavigator : Set := mkNavigator {
  sessionId : option string;
  history : list Entry;
  currentStep : nat
}.

(** [new IvrAutoNavigator()] *)
Definition newNavigator : IvrAutoNavigator :=
  {| sessionId := None; history := []; currentStep := 0 |}.

(** [config.maxSteps], a number read by [parseInt]. *)
Record Config : Set := mkConfig {
  maxSteps : nat
}.

(** What the last message of the log of a run that was not cut short by an
    error says. *)
Record Summary : Set := mkSummary {
  steps : nat;
  complete : bool
}.

(** The session API, the navigator and the requests made so far. *)
Record Desk (Env : Type) : Type := mkDesk {
  service : Env;
  navigator : IvrAutoNavigator;
  requests : list Event
}.
Arguments mkDesk {Env}.
Arguments service {Env}.
Arguments navigator {Env}.
Arguments requests {Env}.

(** [!this.sessionId] *)
Definition noSession (n : IvrAutoNavigator) : bool :=
  match sessionId n with
  | None => true
  | Some id => String.eqb id ""
  end.

(** [this.history[this.history.length - 1].action = action] *)
Fixpoint setLastAction (entries : list Entry) (act : string)
    : option (list Entry) :=
  match entries with
  | [] => None
  | [entry] =>
      Some [{| step := step entry; prompt := prompt entry;
               response := response entry; action := Some act |}]
  | entry :: rest => cons entry <$> setLastAction rest act
  end.

Section WithRemote.
Context {Env : Type} `{Remote Env}.

Definition setNavigator (f : IvrAutoNavigator -> IvrAutoNavigator)
    : M (Desk Env) unit :=
  modify (fun d => mkDesk (service d) (f (navigator d)) (requests d)).

(** One request to the session API: an error reply is thrown. *)
Definition call {A} (event : Event) (send : Env -> (string + A) * Env)
    : M (Desk Env) A :=
  fun d =>
    let (reply, env) := send (service d) in
    let d' := mkDesk env (navigator d) (requests d ++ [event]) in
    match reply with
    | inl message => (Throw message, d')
    | inr a => (Return a, d')
    end.

(** [await new Promise(resolve => setTimeout(resolve, waitTime))] *)
Definition pause : M (Desk Env) unit :=
  modify (fun d => mkDesk (service d) (navigator d)
                          (requests d ++ [EvWait FullWait])).

(** [createSession()] *)
Definition createSession : M (Desk Env) string :=
  id ← call EvCreateSession postSession;
  setNavigator (fun n =>
    {| sessionId := Some id; history := history n;
       currentStep := currentStep n |});;
  mret id.

(** [sendMessage(message)]: [None] stands for [null]. *)
Definition sendMessage (message : string) : M (Desk Env) (option string) :=
  d ← get;
  (if noSession (navigator d) then createSession;; mret tt else mret tt);;
  tryCatch
    (d ← get;
     answer ←
       call (EvMessage message)
         (postMessage (default "" (sessionId (navigator d))) message);
     setNavigator (fun n =>
       {| sessionId := sessionId n;
          history :=
            history n
            ++ [{| step := S (currentStep n); prompt := message;
                   response := answer; action := None |}];
          currentStep := S (currentStep n) |});;
     mret (Some answer))
    (fun _ => mret None).

(** [endSession()] *)
Definition endSession : M (Desk Env) unit :=
  d ← get;
  if noSession (navigator d) then mret tt
  else
    tryCatch
      (call EvDeleteSession
         (deleteSession (default "" (sessionId (navigator d))));;
       setNavigator (fun n =>
         {| sessionId := None; history := history n;
            currentStep := currentStep n |}))
      (fun _ => mret tt).

(** The prompt that the simulated IVR starts with. *)
Definition firstPrompt : string :=
  "Thank you for calling. Press 1 for sales, press 2 for support, or press 0 to speak with an operator.".

(** The loop [while (!isComplete && this.currentStep < maxSteps)] of
    [runAutomatedNavigation]: the value of [isComplete] when the loop is
    left. *)
Fixpoint navigationLoop (fuel : nat) (config : Config)
    (currentPrompt : string) : M (Desk Env) bool :=
  match fuel with
  | O => outOfFuel
  | S fuel' =>
      d ← get;
      if Nat.ltb (currentStep (navigator d)) (maxSteps config) then
        response ← sendMessage currentPrompt;
        match response with
        | None => mret false
        | Some answer =>
            if String.eqb answer "" then mret false
            else
              let act := extractAction answer in
              d ← get;
              match setLastAction (history (navigator d)) act with
              | None =>
                  throw "Cannot set properties of undefined (setting 'action')"
              | Some entries =>
                  setNavigator (fun n =>
                    {| sessionId := sessionId n; history := entries;
                       currentStep := currentStep n |});;
                  if String.eqb act "Hang Up" then mret true
                  else
                    pause;;
                    navigationLoop fuel' config (simulateIvrResponse act)
              end
        end
      else mret false
  end.

(** [runAutomatedNavigation()]: the summary logged at the end of the [try]
    block, [None] when the [catch] block ran. *)
Definition runAutomatedNavigation (fuel : nat) (config : Config)
    : M (Desk Env) (option Summary) :=
  tryCatch
    (createSession;;
     isComplete ← navigationLoop fuel config firstPrompt;
     endSession;;
     d ← get;
     mret (Some {| steps := currentStep (navigator d);
                   complete := isComplete |}))
    (fun _ =>
       tryCatch endSession (fun _ => mret tt);;
       mret None).

End WithRemote.

End AutoNavigator.

(** ** The test runner: [main] of the script that runs one test *)

Module Runner.
Import Effects Session Integration.

(** What [main] prints about the test. *)
Inductive Report : Set :=
| TestCompleted (completed : nat)
| TestFailed (failure : string) (completedBefore : nat)
| UnhandledError (message : string).

(** The end of the process: the report, whether the line that tells where
    the results were saved was printed, and the exit status. *)
Record Exit : Set := mkExit {
  report : Report;
  resultsSaved : bool;
  status : nat
}.

Section WithRemote.
Context {Env : Type} `{Remote Env}.

(** [main()], after the tester and the integration have been made and
    connected; [name] is the option [--name]. *)
Definition main (fuel : nat) (name : string) : M (World Env) Exit :=
  tryCatch
    (results ← runAutomatedNavigation fuel name;
     if success results then
       mret {| report := TestCompleted (steps results);
               resultsSaved := true; status := 0 |}
     else
       mret {| report := TestFailed (default "" (error results))
                                    (steps results);
               resultsSaved := true; status := 0 |})
    (fun message =>
       mret {| report := UnhandledError message;
               resultsSaved := false; status := 1 |}).

End WithRemote.

End Runner.

(** ** The session API: the conversation of a session

    [sendMessage] of the server of the Amazon Q session API, for a session
    that is in the store.  The time stamps of the messages, the temporary
    file that carries the history, and the logs are left out. *)

Module SessionApi.

Inductive Role : Set := User | Assistant.

(** An entry of [messages]. *)
Record Message : Set := mkMessage {
  role : Role;
  content : string
}.

(** A value of [sessions]. *)
Record Session : Set := mkSession {
  profile : string;
  messages : list Message;
  lastActivity : Z
}.

(** The double quote, the backslash and the line feed. *)
Definition quote : ascii := ascii_of_nat 34.
Definition backslash : ascii := ascii_of_nat 92.
Definition lineFeed : string := String "010"%char EmptyString.

(** The user message as the history has it:
    [The IVR says "content" what next?] unless the content says so
    already. *)
Definition formatUserMessage (content : string) : string :=
  if negb (Js.includes content "the IVR says")
     && negb (Js.includes content "The IVR says")
  then "The IVR says " +:+ String quote content
       +:+ String quote " what next?"
  else content.

(** The loop [for (let i = 0; i < messages.length - 1; i += 2)] that
    writes [historyContent]: the messages are taken two at a time, the
    first as the user's and the second as the assistant's, whatever their
    roles. *)
Fixpoint historyContent (messages : list Message) : string :=
  match messages with
  | userMsg :: assistantMsg :: rest =>
      "Human: " +:+ formatUserMessage (content userMsg) +:+ lineFeed
      +:+ "Amazon Q: " +:+ content assistantMsg +:+ lineFeed +:+ lineFeed
      +:+ historyContent rest
  | _ => EmptyString
  end.

(** [message.replace(/"/g, '\\"')] *)
Fixpoint escapeQuotes (message : string) : string :=
  match message with
  | EmptyString => EmptyString
  | String c r =>
      if Ascii.eqb c quote then String backslash (String quote (escapeQuotes r))
      else String c (escapeQuotes r)
  end.

(** The wrapper script run by [execSync]: its arguments are the profile,
    the history (the content of the file whose name it is given) and the
    text put between double quotes on the command line; its reply is an
    error message or its output. *)
Class Wrapper (Env : Type) : Type := {
  execWrapper : string -> string -> string -> Env -> (string + string) * Env
}.

Section WithWrapper.
Context {Env : Type} `{Wrapper Env}.

(** [sendMessage(sessionId, message)] at the time [now], for the session
    [sessions[sessionId]]: the reply (an error rejects the promise) and
    the session afterwards. *)
Definition sendMessage (session : Session) (message : string) (now : Z)
    (env : Env) : (string + string) * Session * Env :=
  let asked :=
    messages session ++ [{| role := User; content := message |}] in
  match execWrapper (profile session) (historyContent asked)
                    (escapeQuotes message) env with
  | (inr result, env') =>
      let response := Js.trim result in
      (inr response,
       {| profile := profile session;
          messages := asked ++ [{| role := Assistant; content := response |}];
          lastActivity := now |},
       env')
  | (inl failure, env') =>
      (inl failure,
       {| profile := profile session; messages := asked;
          lastActivity := now |},
       env')
  end.

End WithWrapper.

End SessionApi.

(** ** Properties of the state tracker *)

Module TrackerSpec.
Import Tracker.

(** [text] contains [pattern], case-insensitively. *)
Definition containsPattern (text pattern : string) : Prop :=
  Js.includes (Js.toLowerCase text) (Js.toLowerCase pattern) = true.

(** No state has the same pattern registered twice, and no state has two
    entries. *)
Definition duplicateFree (reg : list (IvrState * list string)) : Prop :=
  NoDup (reg.*1) /\ Forall (fun entry => NoDup (snd entry)) reg.

Lemma toLowerCase_empty s : Js.toLowerCase s = "" -> s = "".
Proof. destruct s; [reflexivity | discriminate]. Qed.

Lemma includes_empty_text p : p <> "" -> Js.includes "" p = false.
Proof. destruct p; [congruence | reflexivity]. Qed.

Lemma existsb_pattern lowerText patterns :
  existsb (fun p => Js.includes lowerText (Js.toLowerCase p)) patterns = true
  <-> exists p,
        p ∈ patterns /\ Js.includes lowerText (Js.toLowerCase p) = true.
Proof.
  rewrite existsb_exists. split; intros (p & Hin & Hp); exists p; split;
    try assumption; by apply list_elem_of_In.
Qed.

(** The scan returns the first entry with a matching pattern. *)
Lemma scanPatterns_first lowerText pre s pats post :
  (forall s' pats' p, (s', pats') ∈ pre -> p ∈ pats' ->
     Js.includes lowerText (Js.toLowerCase p) = false) ->
  (exists p, p ∈ pats /\ Js.includes lowerText (Js.toLowerCase p) = true) ->
  scanPatterns lowerText (pre ++ (s, pats) :: post) = Some s.
Proof.
  intros Hpre Hs. induction pre as [|[s0 pats0] pre IH]; simpl.
  - apply existsb_pattern in Hs. by rewrite Hs.
  - destruct (existsb _ pats0) eqn:E.
    + apply existsb_pattern in E as (p & Hin & Hp).
      rewrite (Hpre s0 pats0 p) in Hp; [discriminate | by left | done].
    + apply IH. intros s' pats' p Hin Hp.
      apply (Hpre s' pats'); [by right | done].
Qed.

Lemma static_patterns_nonempty s pats p :
  (s, pats) ∈ STATE_PATTERNS -> p ∈ pats -> p <> "".
Proof.
  assert (Forall (fun e => Forall (fun q => q <> "") (snd e)) STATE_PATTERNS)
    as Hall by (repeat constructor; discriminate).
  intros Hin Hp. rewrite Forall_forall in Hall.
  specialize (Hall _ Hin). simpl in Hall. rewrite Forall_forall in Hall.
  by apply Hall.
Qed.

Lemma unmatched_entries text (entries : list (IvrState * list string)) :
  forallb (fun entry =>
             forallb (fun p =>
                        negb (Js.includes (Js.toLowerCase text)
                                          (Js.toLowerCase p)))
                     (snd entry))
          entries = true ->
  forall s pats p,
    (s, pats) ∈ entries -> p ∈ pats -> ~ containsPattern text p.
Proof.
  intros Hall s pats p Hin Hp. rewrite forallb_forall in Hall.
  apply list_elem_of_In in Hin, Hp. specialize (Hall _ Hin). simpl in Hall.
  rewrite forallb_forall in Hall. specialize (Hall _ Hp).
  unfold containsPattern. by destruct (Js.includes _ _).
Qed.

(** Membership in a list that is written out. *)
Ltac listed :=
  apply list_elem_of_In; simpl; repeat (first [left; reflexivity | right]).

(** The phrases tested by the special cases, each with the states its test
    can answer. *)
Definition specialPhrases : list (string * list IvrState) :=
  [ ("please enter the prescription number",
     [REFILL_PRESCRIPTION; CHECK_STATUS; ENTER_RX_NUMBER]);
    ("for new prescriptions or to authorize refills", [PRESCRIBER_MENU]);
    ("leave your message after the tone", [LEAVE_MESSAGE]);
    ("invalid selection", [INVALID_SELECTION]) ].

(** A special case answers a state only for a text that contains one of the
    phrases of that state. *)
Lemma specialCase_phrase previous lowerText s :
  specialCase previous lowerText = Some s ->
  exists phrase states,
    (phrase, states) ∈ specialPhrases /\ s ∈ states
    /\ Js.includes lowerText phrase = true.
Proof.
  unfold specialCase.
  destruct (Js.includes lowerText "please enter the prescription number")
    eqn:E1.
  { intros Hs.
    exists "please enter the prescription number",
           [REFILL_PRESCRIPTION; CHECK_STATUS; ENTER_RX_NUMBER].
    split; [listed|]. split; [|exact E1].
    destruct (_ || _); [injection Hs as <-; listed|].
    destruct (_ || _); injection Hs as <-; listed. }
  destruct (Js.includes lowerText
              "for new prescriptions or to authorize refills") eqn:E2.
  { intros [= <-].
    exists "for new prescriptions or to authorize refills", [PRESCRIBER_MENU].
    split; [listed|]. split; [listed | exact E2]. }
  destruct (Js.includes lowerText "leave your message after the tone") eqn:E3.
  { intros [= <-].
    exists "leave your message after the tone", [LEAVE_MESSAGE].
    split; [listed|]. split; [listed | exact E3]. }
  destruct (Js.includes lowerText "invalid selection") eqn:E4; [|done].
  intros [= <-]. exists "invalid selection", [INVALID_SELECTION].
  split; [listed|]. split; [listed | exact E4].
Qed.

(** The special case of the prescription number: the text alone gives
    ENTER_RX_NUMBER, a keyword or the previous state gives one of the two
    sibling states. *)
Example identifyState_prescription_number :
  identifyState newTracker "Please enter the prescription number"
  = ENTER_RX_NUMBER
  /\ identifyState newTracker
       "Please enter the prescription number you would like to refill"
     = REFILL_PRESCRIPTION
  /\ identifyState newTracker
       "Please enter the prescription number to check its status"
     = CHECK_STATUS
  /\ identifyState newTracker "" = UNKNOWN.
Proof. repeat split; reflexivity. Qed.

(** The first state of the static table with a pattern in the text is the
    answer, unless a special case answers another state first. *)
Lemma identifyState_first_match t text pre s pats post :
  STATE_PATTERNS = pre ++ (s, pats) :: post ->
  (exists p, p ∈ pats /\ containsPattern text p) ->
  (forall s' pats' p', (s', pats') ∈ pre -> p' ∈ pats' ->
     ~ containsPattern text p') ->
  (forall s', specialCase (previousState t) (Js.toLowerCase text) = Some s' ->
     s' = s) ->
  identifyState t text = s.
Proof.
  intros Htable (p & Hp & Hmatch) Hpre Hspecial. unfold identifyState.
  destruct (String.eqb_spec text "") as [-> | Hne].
  - exfalso. unfold containsPattern in Hmatch.
    change (Js.toLowerCase "") with "" in Hmatch.
    rewrite includes_empty_text in Hmatch; [discriminate|].
    intros E. apply toLowerCase_empty in E.
    refine (static_patterns_nonempty s pats p _ Hp E).
    rewrite Htable. apply elem_of_app. right. by left.
  - destruct (specialCase _ _) as [s'|] eqn:E; [by apply (Hspecial s')|].
    rewrite Htable, scanPatterns_first; [done | | by exists p].
    intros s' pats' p' Hin Hin'. specialize (Hpre s' pats' p' Hin Hin').
    unfold containsPattern in Hpre. by destruct (Js.includes _ _).
Qed.

Lemma foreign_phrases_absent lowerText s :
  forallb (fun entry =>
             negb (Js.includes lowerText (fst entry))
             || forallb (fun s' => bool_decide (s' = s)) (snd entry))
          specialPhrases = true ->
  forall phrase states s', (phrase, states) ∈ specialPhrases ->
    s' ∈ states -> s' <> s -> Js.includes lowerText phrase = false.
Proof.
  intros Hall phrase states s' Hin Hs' Hne. rewrite forallb_forall in Hall.
  apply list_elem_of_In in Hin, Hs'. specialize (Hall _ Hin). simpl in Hall.
  destruct (Js.includes lowerText phrase); [|done]. simpl in Hall.
  rewrite forallb_forall in Hall. specialize (Hall _ Hs').
  by apply bool_decide_eq_true_1 in Hall.
Qed.

(** C4: for a state [s] of the static table, a text that contains one of the
    patterns of [s], no pattern of a state declared before [s] and no phrase
    of a special case that can answer another state, is classified as [s]:
    the special cases come first, then the table is scanned in declaration
    order and the first state with a match wins. *)
Theorem identifyState_first_declared_match t text pre s pats post :
  STATE_PATTERNS = pre ++ (s, pats) :: post ->
  (exists p, p ∈ pats /\ containsPattern text p) ->
  (forall s' pats' p', (s', pats') ∈ pre -> p' ∈ pats' ->
     ~ containsPattern text p') ->
  (forall phrase states s', (phrase, states) ∈ specialPhrases ->
     s' ∈ states -> s' <> s ->
     Js.includes (Js.toLowerCase text) phrase = false) ->
  identifyState t text = s.
Proof.
  intros Htable Hown Hpre Hphrases.
  apply (identifyState_first_match t text pre s pats post); try done.
  intros s' Hspecial.
  apply specialCase_phrase in Hspecial as (phrase & states & Hin & Hs' & Hinc).
  destruct (decide (s' = s)) as [|Hne]; [done|].
  by rewrite (Hphrases phrase states s') in Hinc.
Qed.

Lemma identifyState_first_declared_match_witness :
  identifyState newTracker
    "Please leave your message after the tone, then confirm"
  = LEAVE_MESSAGE.
Proof.
  apply (identifyState_first_declared_match
           newTracker "Please leave your message after the tone, then confirm"
           (take 7 STATE_PATTERNS) LEAVE_MESSAGE
           ["leave your message after the tone"; "leave a message";
            "After you're finished with your message"]
           (drop 8 STATE_PATTERNS)).
  - reflexivity.
  - exists "leave your message after the tone". split; [listed | reflexivity].
  - apply unmatched_entries. reflexivity.
  - apply foreign_phrases_absent. reflexivity.
Defined.

(** The result of [updateState] when the identified state differs from
    the current one: the two branches on [isValidTransition] differ in the
    logged message only. *)
Lemma updateState_changed t text :
  identifyState t text <> currentState t ->
  updateState t text =
    (identifyState t text,
     {| currentState := identifyState t text;
        previousState := Some (currentState t);
        stateHistory := stateHistory t ++ [identifyState t text];
        stateTransitions :=
          if bool_decide (currentState t <> UNKNOWN)
          then tally (stateTransitions t) (currentState t)
                     (identifyState t text)
          else stateTransitions t;
        discoveredStates := {[identifyState t text]} ∪ discoveredStates t;
        discoveredPatterns := discoveredPatterns t;
        logged :=
          logged t ++
          [if bool_decide (identifyState t text
                             ∈ STATE_TRANSITIONS (currentState t))
              || bool_decide (currentState t = UNKNOWN)
           then LogTransition (currentState t) (identifyState t text)
           else LogInvalidTransition (currentState t)
                                     (identifyState t text)] |}).
Proof.
  intros Hne. unfold updateState.
  rewrite (bool_decide_eq_true_2 _ Hne).
  by destruct (_ || _).
Qed.

Lemma updateState_unchanged t text :
  identifyState t text = currentState t ->
  updateState t text =
    (currentState t,
     {| currentState := currentState t;
        previousState := previousState t;
        stateHistory := stateHistory t;
        stateTransitions := stateTransitions t;
        discoveredStates := {[identifyState t text]} ∪ discoveredStates t;
        discoveredPatterns := discoveredPatterns t;
        logged := logged t |}).
Proof.
  intros Heq. unfold updateState.
  rewrite bool_decide_eq_false_2; [done | by intros []].
Qed.

Lemma tally_lookup tt from to :
  tally tt from to from !! to = Some (S (default 0 (tt from !! to))).
Proof. unfold tally. rewrite decide_True by done. apply lookup_insert_eq. Qed.

Lemma tally_lookup_other tt from to a b :
  (a, b) <> (from, to) -> tally tt from to a !! b = tt a !! b.
Proof.
  intros Hne. unfold tally. destruct (decide (a = from)) as [-> | ]; [|done].
  apply lookup_insert_ne. congruence.
Qed.

(** C5: a transition to a state that is not a legal successor of the
    current state, the current state not being UNKNOWN, raises nothing: it
    is logged as invalid, and the tracker is updated as for a legal
    transition: the previous and the current state move on, the new state
    is appended to the history and the count of the edge goes up by one,
    the other counts staying as they were. *)
Theorem updateState_illegal_transition t text :
  identifyState t text <> currentState t ->
  currentState t <> UNKNOWN ->
  identifyState t text ∉ STATE_TRANSITIONS (currentState t) ->
  fst (updateState t text) = identifyState t text
  /\ currentState (snd (updateState t text)) = identifyState t text
  /\ previousState (snd (updateState t text)) = Some (currentState t)
  /\ stateHistory (snd (updateState t text))
     = stateHistory t ++ [identifyState t text]
  /\ stateTransitions (snd (updateState t text)) (currentState t)
       !! identifyState t text
     = Some (S (default 0 (stateTransitions t (currentState t)
                             !! identifyState t text)))
  /\ (forall a b, (a, b) <> (currentState t, identifyState t text) ->
        stateTransitions (snd (updateState t text)) a !! b
        = stateTransitions t a !! b)
  /\ logged (snd (updateState t text))
     = logged t
       ++ [LogInvalidTransition (currentState t) (identifyState t text)].
Proof.
  intros Hne Hknown Hillegal. rewrite (updateState_changed _ _ Hne). simpl.
  rewrite (bool_decide_eq_true_2 _ Hknown).
  rewrite (bool_decide_eq_false_2 _ Hillegal).
  rewrite (bool_decide_eq_false_2 _ Hknown). simpl.
  repeat split; auto using tally_lookup, tally_lookup_other.
Qed.

Lemma updateState_illegal_transition_witness :
  currentState Scripted.weeklyHours = WEEKLY_HOURS
  /\ STATE_TRANSITIONS WEEKLY_HOURS = [MAIN_MENU]
  /\ identifyState Scripted.weeklyHours "Is this correct?" = CONFIRM_RX
  /\ fst (updateState Scripted.weeklyHours "Is this correct?") = CONFIRM_RX
  /\ currentState (snd (updateState Scripted.weeklyHours "Is this correct?"))
     = CONFIRM_RX
  /\ previousState (snd (updateState Scripted.weeklyHours "Is this correct?"))
     = Some WEEKLY_HOURS
  /\ stateHistory (snd (updateState Scripted.weeklyHours "Is this correct?"))
     = [WEEKLY_HOURS; CONFIRM_RX]
  /\ stateTransitions
       (snd (updateState Scripted.weeklyHours "Is this correct?"))
       WEEKLY_HOURS !! CONFIRM_RX
     = Some 1%nat
  /\ logged (snd (updateState Scripted.weeklyHours "Is this correct?"))
     = [LogTransition UNKNOWN WEEKLY_HOURS;
        LogInvalidTransition WEEKLY_HOURS CONFIRM_RX].
Proof.
  destruct (updateState_illegal_transition Scripted.weeklyHours
              "Is this correct?")
    as (Hret & Hcur & Hprev & Hhist & Htally & _ & Hlog).
  - vm_compute. discriminate.
  - vm_compute. discriminate.
  - intros Hin. apply list_elem_of_In in Hin. vm_compute in Hin.
    destruct Hin as [Hin | []]. discriminate.
  - do 3 (split; [reflexivity|]).
    split; [exact Hret|]. split; [exact Hcur|]. split; [exact Hprev|].
    split; [exact Hhist|]. split; [exact Htally | exact Hlog].
Defined.

(** C6: when the identified state is the current state, [updateState]
    returns it and leaves the history, the transition counts, the current
    and the previous state as they were; and a call made in state UNKNOWN
    never changes the transition counts, whatever state is identified. *)
Theorem updateState_self_loop_frame t text :
  (identifyState t text = currentState t ->
     fst (updateState t text) = currentState t
     /\ stateHistory (snd (updateState t text)) = stateHistory t
     /\ stateTransitions (snd (updateState t text)) = stateTransitions t
     /\ currentState (snd (updateState t text)) = currentState t
     /\ previousState (snd (updateState t text)) = previousState t)
  /\ (currentState t = UNKNOWN ->
        stateTransitions (snd (updateState t text)) = stateTransitions t).
Proof.
  split.
  - intros Heq. by rewrite (updateState_unchanged _ _ Heq).
  - intros Hunknown.
    destruct (decide (identifyState t text = currentState t)) as [Heq | Hne].
    + by rewrite (updateState_unchanged _ _ Heq).
    + rewrite (updateState_changed _ _ Hne). simpl.
      rewrite bool_decide_eq_false_2; [done | by intros []].
Qed.

Lemma updateState_self_loop_frame_witness :
  (fst (updateState Scripted.weeklyHours "Tuesday from 9 to 5") = WEEKLY_HOURS
   /\ stateHistory
        (snd (updateState Scripted.weeklyHours "Tuesday from 9 to 5"))
      = [WEEKLY_HOURS]
   /\ stateTransitions
        (snd (updateState Scripted.weeklyHours "Tuesday from 9 to 5"))
      = stateTransitions Scripted.weeklyHours)
  /\ stateTransitions (snd (updateState newTracker "Is this correct?"))
     = stateTransitions newTracker.
Proof.
  split.
  - destruct (updateState_self_loop_frame Scripted.weeklyHours
                "Tuesday from 9 to 5") as [Hself _].
    destruct Hself as (Hret & Hhist & Htally & _); [reflexivity|].
    split; [exact Hret | split; [exact Hhist | exact Htally]].
  - destruct (updateState_self_loop_frame newTracker "Is this correct?")
      as [_ Hunknown].
    apply Hunknown. reflexivity.
Defined.

(** C7: outside exploration mode [getNextAction] is total: for every
    current state it returns an action whose input is a string; that input
    is empty for UNKNOWN and for TRANSFER_TO_PHARMACY, and a state that is
    none of the [case] labels gets the default action with the empty
    input. *)
Theorem getNextAction_scripted_total t options :
  mode options <> "explore" ->
  (exists token, input (getNextAction t options) = Some token)
  /\ (currentState t = UNKNOWN \/ currentState t = TRANSFER_TO_PHARMACY ->
        input (getNextAction t options) = Some "")
  /\ (currentState t ∉ scriptedCases ->
        getNextAction t options
        = {| action := "default"; input := Some "";
             description := "Default action for unknown state" |}).
Proof.
  intros Hmode. unfold getNextAction.
  destruct (String.eqb_spec (mode options) "explore") as [E | _]; [done|].
  split; [|split].
  - destruct (currentState t); simpl; eauto.
  - by intros [-> | ->].
  - intros Hnot. destruct (currentState t); try reflexivity;
      exfalso; apply Hnot; unfold scriptedCases; set_solver.
Qed.

Lemma getNextAction_scripted_total_witness :
  input (getNextAction newTracker defaultOptions) = Some ""
  /\ getNextAction newTracker defaultOptions
     = {| action := "default"; input := Some "";
          description := "Default action for unknown state" |}.
Proof.
  destruct (getNextAction_scripted_total newTracker defaultOptions)
    as (_ & Hwait & Hdefault); [discriminate|].
  split.
  - apply Hwait. by left.
  - apply Hdefault. intros Hin. apply list_elem_of_In in Hin.
    simpl in Hin. intuition discriminate.
Defined.

Lemma getDtmfOptions_nonempty t : (0 < length (getDtmfOptions t))%nat.
Proof.
  unfold getDtmfOptions. destruct (currentState t); simpl; lia.
Qed.

(** The answer in exploration mode, for a depth that is not negative. *)
Lemma getNextAction_explore_input t depth :
  (0 <= depth)%Z ->
  input (getNextAction t {| mode := "explore"; explorationDepth := depth |})
  = getDtmfOptions t
      !! Z.to_nat (depth mod Z.of_nat (length (getDtmfOptions t))).
Proof.
  intros Hdepth. unfold getNextAction. simpl.
  pose proof (getDtmfOptions_nonempty t) as Hlen.
  destruct (Nat.ltb_spec 0 (length (getDtmfOptions t))) as [_ | ?]; [|lia].
  simpl. unfold Js.index, Js.rem.
  rewrite Z.rem_mod_nonneg by lia.
  destruct (Z.ltb_spec (depth mod Z.of_nat (length (getDtmfOptions t))) 0)
    as [Hneg | _]; [|done].
  pose proof (Z.mod_pos_bound depth
                (Z.of_nat (length (getDtmfOptions t)))). lia.
Qed.

(** C8: in exploration mode, for a depth that is not negative,
    [getNextAction] returns the candidate at index depth modulo the number
    of candidates, the candidates being the list declared for the current
    state or, when none is declared, the list of UNKNOWN: the ten digits,
    the star and the hash.  With the candidates 1, 2, 9 the depths 0 to 3
    give 1, 2, 9, 1. *)
Theorem getNextAction_explore_round_robin t options :
  mode options = "explore" ->
  (0 <= explorationDepth options)%Z ->
  (forall candidates,
     STATE_DTMF_OPTIONS (currentState t) = Some candidates ->
     getDtmfOptions t = candidates)
  /\ (STATE_DTMF_OPTIONS (currentState t) = None ->
        getDtmfOptions t
        = ["1"; "2"; "3"; "4"; "5"; "6"; "7"; "8"; "9"; "0"; "*"; "#"])
  /\ action (getNextAction t options) = "explore"
  /\ input (getNextAction t options)
     = getDtmfOptions t
         !! Z.to_nat (explorationDepth options
                      mod Z.of_nat (length (getDtmfOptions t)))
  /\ is_Some (input (getNextAction t options))
  /\ (getDtmfOptions t = ["1"; "2"; "9"] ->
        map (fun depth =>
               input (getNextAction t {| mode := "explore";
                                         explorationDepth := depth |}))
            [0; 1; 2; 3]%Z
        = [Some "1"; Some "2"; Some "9"; Some "1"]).
Proof.
  intros Hmode Hdepth. destruct options as [m depth]. simpl in *. subst m.
  pose proof (getDtmfOptions_nonempty t) as Hlen.
  split; [|split; [|split; [|split; [|split]]]].
  - intros candidates H. unfold getDtmfOptions. by rewrite H.
  - intros H. unfold getDtmfOptions. by rewrite H.
  - unfold getNextAction. simpl.
    by destruct (Nat.ltb_spec 0 (length (getDtmfOptions t))); [|lia].
  - by apply getNextAction_explore_input.
  - rewrite getNextAction_explore_input by done.
    apply lookup_lt_is_Some.
    pose proof (Z.mod_pos_bound depth
                  (Z.of_nat (length (getDtmfOptions t)))). lia.
  - intros H. simpl. rewrite !getNextAction_explore_input by lia.
    by rewrite H.
Qed.

Lemma getNextAction_explore_round_robin_witness :
  currentState Scripted.pharmacyHours = PHARMACY_HOURS
  /\ input (getNextAction Scripted.pharmacyHours
              {| mode := "explore"; explorationDepth := 3 |})
     = Some "1"
  /\ map (fun depth =>
            input (getNextAction Scripted.pharmacyHours
                     {| mode := "explore"; explorationDepth := depth |}))
         [0; 1; 2; 3]%Z
     = [Some "1"; Some "2"; Some "9"; Some "1"].
Proof.
  destruct (getNextAction_explore_round_robin Scripted.pharmacyHours
              {| mode := "explore"; explorationDepth := 3 |})
    as (_ & _ & _ & Hinput & _ & Hround); [reflexivity | done |].
  split; [reflexivity|]. split; [exact Hinput|].
  apply Hround. reflexivity.
Defined.

(** C10: [updateState] adds the identified state to the discovered states
    on every call, also when it records no transition; on a new tracker a
    text identified as UNKNOWN leaves UNKNOWN among the discovered states
    and the history empty. *)
Theorem updateState_discovers t text :
  identifyState t text ∈ discoveredStates (snd (updateState t text))
  /\ (identifyState newTracker text = UNKNOWN ->
        UNKNOWN ∈ discoveredStates (snd (updateState newTracker text))
        /\ stateHistory (snd (updateState newTracker text)) = []).
Proof.
  split.
  - destruct (decide (identifyState t text = currentState t)) as [Heq | Hne].
    + rewrite (updateState_unchanged _ _ Heq). simpl. set_solver.
    + rewrite (updateState_changed _ _ Hne). simpl. set_solver.
  - intros Hunknown.
    rewrite (updateState_unchanged newTracker text Hunknown). simpl.
    rewrite Hunknown. split; [set_solver | done].
Qed.

Lemma updateState_discovers_witness :
  UNKNOWN ∈ discoveredStates (snd (updateState newTracker "static noise"))
  /\ stateHistory (snd (updateState newTracker "static noise")) = [].
Proof.
  destruct (updateState_discovers newTracker "static noise") as [_ Hfirst].
  apply Hfirst. reflexivity.
Defined.

(** *** The registry of discovered patterns *)

Lemma registered_None reg s : registered reg s = None <-> s ∉ reg.*1.
Proof.
  induction reg as [|[s0 l0] reg IH]; csimpl.
  - split; [intros _; apply not_elem_of_nil | done].
  - rewrite not_elem_of_cons.
    destruct (decide (s0 = s)) as [-> | Hne].
    + split; [done | by intros []].
    + rewrite IH. split; [by split | by intros []].
Qed.

Lemma registered_new reg s : registered reg s = None ->
  forall s', registered (reg ++ [(s, [])]) s'
             = if decide (s' = s) then Some [] else registered reg s'.
Proof.
  intros Hnone s'. induction reg as [|[s0 l0] reg IH]; simpl in *.
  - destruct (decide (s = s')), (decide (s' = s)); congruence.
  - destruct (decide (s0 = s)) as [|Hne]; [discriminate|].
    destruct (decide (s0 = s')) as [<- |]; [|by apply IH].
    by rewrite decide_False.
Qed.

Lemma registered_push reg s p l : registered reg s = Some l ->
  forall s', registered (pushPattern reg s p) s'
             = if decide (s' = s) then Some (l ++ [p]) else registered reg s'.
Proof.
  intros Hsome s'. induction reg as [|[s0 l0] reg IH]; simpl in *; [done|].
  destruct (decide (s0 = s)) as [-> | Hne]; simpl.
  - destruct (decide (s = s')) as [<- |].
    + rewrite decide_True by done. congruence.
    + by rewrite decide_False.
  - destruct (decide (s0 = s')) as [<- |]; [|by apply IH].
    by rewrite decide_False.
Qed.

Lemma pushPattern_keys reg s p : (pushPattern reg s p).*1 = reg.*1.
Proof.
  induction reg as [|[s0 l0] reg IH]; csimpl; [done|].
  destruct (decide (s0 = s)); csimpl; congruence.
Qed.

Lemma pushPattern_NoDup reg s p :
  Forall (fun entry => NoDup (snd entry)) reg ->
  p ∉ default [] (registered reg s) ->
  Forall (fun entry => NoDup (snd entry)) (pushPattern reg s p).
Proof.
  induction 1 as [|[s0 l0] reg Hl0 Hreg IH]; simpl; [constructor|].
  destruct (decide (s0 = s)) as [-> | Hne]; simpl; intros Hp.
  - constructor; [|done]. simpl in *. apply NoDup_app.
    split; [done|]. split; [|apply NoDup_singleton].
    by intros x Hx ->%list_elem_of_singleton.
  - constructor; [done | by apply IH].
Qed.

(** The patterns of every state after [addStatePattern]. *)
Lemma registered_addStatePattern t state pattern s :
  default []
    (registered (discoveredPatterns (addStatePattern t state pattern)) s)
  = if decide (s = state)
    then if bool_decide
              (pattern ∈ default [] (registered (discoveredPatterns t) state))
         then default [] (registered (discoveredPatterns t) state)
         else default [] (registered (discoveredPatterns t) state) ++ [pattern]
    else default [] (registered (discoveredPatterns t) s).
Proof.
  unfold addStatePattern.
  destruct (registered (discoveredPatterns t) state) as [l|] eqn:Hreg; simpl.
  - rewrite Hreg. simpl. destruct (bool_decide (pattern ∈ l)); simpl.
    + destruct (decide (s = state)) as [-> |]; [by rewrite Hreg | done].
    + rewrite (registered_push _ _ _ _ Hreg).
      by destruct (decide (s = state)).
  - rewrite (registered_new _ _ Hreg), decide_True by done. simpl.
    rewrite (registered_push _ state pattern []).
    + rewrite (registered_new _ _ Hreg).
      by destruct (decide (s = state)).
    + by rewrite (registered_new _ _ Hreg), decide_True.
Qed.

Lemma addStatePattern_registered t state pattern :
  pattern ∈ default [] (registered (discoveredPatterns t) state) ->
  addStatePattern t state pattern = t.
Proof.
  intros Hin. unfold addStatePattern.
  destruct (registered (discoveredPatterns t) state) as [l|] eqn:Hreg;
    simpl in Hin; [|set_solver].
  rewrite Hreg. simpl. rewrite (bool_decide_eq_true_2 _ Hin).
  by destruct t.
Qed.

(** C9: [addStatePattern] is idempotent and keeps the registry free of
    duplicates: a pair that is registered already leaves the tracker as it
    is, so adding a pair twice is adding it once; a registry without
    duplicates, as the empty registry of a new tracker is, stays without
    duplicates; and every pattern registered before is registered
    after. *)
Theorem addStatePattern_idempotent t state pattern :
  (pattern ∈ default [] (registered (discoveredPatterns t) state) ->
     addStatePattern t state pattern = t)
  /\ addStatePattern (addStatePattern t state pattern) state pattern
     = addStatePattern t state pattern
  /\ duplicateFree (discoveredPatterns newTracker)
  /\ (duplicateFree (discoveredPatterns t) ->
        duplicateFree (discoveredPatterns (addStatePattern t state pattern)))
  /\ (forall s p,
        p ∈ default [] (registered (discoveredPatterns t) s) ->
        p ∈ default []
              (registered
                 (discoveredPatterns (addStatePattern t state pattern)) s)).
Proof.
  split; [apply addStatePattern_registered|].
  split; [|split; [|split]].
  - apply addStatePattern_registered.
    rewrite registered_addStatePattern, decide_True by done.
    case_bool_decide; set_solver.
  - split; simpl; constructor.
  - intros [Hkeys Hlists]. unfold addStatePattern.
    destruct (registered (discoveredPatterns t) state) as [l|] eqn:Hreg.
    + rewrite Hreg. simpl. case_bool_decide as Hin; simpl; [done|].
      split; [by rewrite pushPattern_keys|].
      apply pushPattern_NoDup; [done | by rewrite Hreg].
    + assert (duplicateFree (discoveredPatterns t ++ [(state, [])]))
        as [Hkeys' Hlists'].
      { split.
        - rewrite fmap_app. simpl. apply NoDup_app.
          split; [done|]. split; [|apply NoDup_singleton].
          intros x Hx ->%list_elem_of_singleton.
          by apply registered_None in Hreg.
        - apply Forall_app. split; [done|].
          repeat constructor. }
      case_bool_decide as Hin; simpl; [done|].
      split; [by rewrite pushPattern_keys|].
      by apply pushPattern_NoDup.
  - intros s p Hin. rewrite registered_addStatePattern.
    destruct (decide (s = state)) as [-> |]; [|done].
    case_bool_decide; set_solver.
Qed.

Lemma addStatePattern_idempotent_witness :
  addStatePattern (addStatePattern newTracker GREETING "good morning")
                  GREETING "good morning"
  = addStatePattern newTracker GREETING "good morning"
  /\ duplicateFree
       (discoveredPatterns
          (addStatePattern (addStatePattern newTracker GREETING "good morning")
                           GREETING "good afternoon")).
Proof.
  destruct (addStatePattern_idempotent
              (addStatePattern newTracker GREETING "good morning")
              GREETING "good morning") as (Hsame & _).
  destruct (addStatePattern_idempotent
              (addStatePattern newTracker GREETING "good morning")
              GREETING "good afternoon") as (_ & _ & _ & Hkeep & _).
  split.
  - apply Hsame. simpl. listed.
  - apply Hkeep. split; simpl; repeat constructor; set_solver.
Defined.

End TrackerSpec.

(** ** Properties of the driver *)

Module DriverSpec.
Import Effects Session FlowTester Integration.

(** *** Running a computation *)

Section Running.
Context {S : Type}.

Lemma bind_run {A B} (m : M S A) (k : A -> M S B) s :
  (m ≫= k) s =
  match m s with
  | (Return a, s') => k a s'
  | (Throw message, s') => (Throw message, s')
  | (OutOfFuel, s') => (OutOfFuel, s')
  end.
Proof. reflexivity. Qed.

Lemma bind_Return {A B} (m : M S A) (k : A -> M S B) s a s' :
  m s = (Return a, s') -> (m ≫= k) s = k a s'.
Proof. intros E. by rewrite bind_run, E. Qed.

Lemma bind_Return_inv {A B} (m : M S A) (k : A -> M S B) s b s' :
  (m ≫= k) s = (Return b, s') ->
  exists a s1, m s = (Return a, s1) /\ k a s1 = (Return b, s').
Proof.
  rewrite bind_run. destruct (m s) as [[a | message |] s1]; [eauto | done..].
Qed.

Lemma bind_terminates {A B} (m : M S A) (k : A -> M S B) s :
  fst (m s) <> OutOfFuel ->
  (forall a s1, m s = (Return a, s1) -> fst (k a s1) <> OutOfFuel) ->
  fst ((m ≫= k) s) <> OutOfFuel.
Proof.
  rewrite bind_run. destruct (m s) as [[a | message |] s1]; simpl; eauto.
Qed.

Lemma tryCatch_Return {A} (m : M S A) handler s a s' :
  m s = (Return a, s') -> tryCatch m handler s = (Return a, s').
Proof. intros E. unfold tryCatch. by rewrite E. Qed.

End Running.

Section WithRemote.
Context {Env : Type} `{Remote Env}.

(** What the loop accumulates: the history and the step counter. *)
Definition progress (w : World Env) : list HistoryEntry * nat :=
  (history (integration w), currentStep (integration w)).

(** A computation that always ends without running out of fuel and
    leaves the history and the step counter alone. *)
Definition steady {A} (m : M (World Env) A) : Prop :=
  forall w, fst (m w) <> OutOfFuel /\ progress (snd (m w)) = progress w.

Lemma steady_run {A} (m : M (World Env) A) w o w' :
  steady m -> m w = (o, w') -> o <> OutOfFuel /\ progress w' = progress w.
Proof. intros Hm E. specialize (Hm w). by rewrite E in Hm. Qed.

Lemma steady_ret {A} (a : A) : steady (mret a : M (World Env) A).
Proof. by intros w. Qed.

Lemma steady_throw {A} message : steady (throw message : M (World Env) A).
Proof. by intros w. Qed.

Lemma steady_get : steady (get : M (World Env) (World Env)).
Proof. by intros w. Qed.

Lemma steady_bind {A B} (m : M (World Env) A) (k : A -> M (World Env) B) :
  steady m -> (forall a, steady (k a)) -> steady (m ≫= k).
Proof.
  intros Hm Hk w. rewrite bind_run.
  destruct (m w) as [[a | message |] w1] eqn:E;
    destruct (steady_run _ _ _ _ Hm E) as [Hfuel Hw1]; simpl; [|done..].
  destruct (Hk a w1) as [? Hw2]. split; [done | congruence].
Qed.

Lemma steady_tryCatch {A} (m : M (World Env) A) handler :
  steady m -> (forall message, steady (handler message)) ->
  steady (tryCatch m handler).
Proof.
  intros Hm Hh w. unfold tryCatch.
  destruct (m w) as [[a | message |] w1] eqn:E;
    destruct (steady_run _ _ _ _ Hm E) as [Hfuel Hw1]; simpl; [done | | done].
  destruct (Hh message w1) as [? Hw2]. split; [done | congruence].
Qed.

Lemma steady_request {A} event (call : Env -> (string + A) * Env) :
  steady (request event call).
Proof.
  intros w. unfold request. destruct (call (remote w)) as [[message | a] env];
    by split.
Qed.

Lemma steady_wait delay : steady (wait delay).
Proof. by intros w. Qed.

Lemma steady_setTester f : steady (setTester f).
Proof. by intros w. Qed.

Lemma steady_received parsed : steady (received parsed).
Proof. apply steady_setTester. Qed.

Lemma steady_sendDtmf digits : steady (sendDtmf digits).
Proof.
  unfold sendDtmf. apply steady_bind; [apply steady_get|]. intros w.
  destruct (callActive (tester w)), (sid (tester w));
    try apply steady_throw.
  repeat (apply steady_bind; [|intros ?]);
    auto using steady_request, steady_received, steady_ret.
Qed.

Lemma steady_continueCall : steady continueCall.
Proof.
  unfold continueCall. apply steady_bind; [apply steady_get|]. intros w.
  destruct (callActive (tester w)), (sid (tester w));
    try apply steady_throw.
  repeat (apply steady_bind; [|intros ?]);
    auto using steady_request, steady_received, steady_ret.
Qed.

Lemma steady_endCall : steady endCall.
Proof.
  unfold endCall. apply steady_bind; [apply steady_get|]. intros w.
  destruct (sid (tester w)); [|apply steady_throw].
  repeat (apply steady_bind; [|intros ?]);
    auto using steady_request, steady_setTester, steady_ret.
Qed.

Lemma steady_startCall testName : steady (startCall testName).
Proof.
  unfold startCall. apply steady_bind; [apply steady_get|]. intros w.
  destruct (uuid8 (remote w)) as [uuid env].
  repeat (apply steady_bind; [|intros ?]);
    auto using steady_request, steady_received, steady_setTester,
      steady_ret.
  by intros w'.
Qed.

Lemma steady_startSession : steady startSession.
Proof.
  unfold startSession.
  repeat (apply steady_bind; [|intros ?]);
    auto using steady_request, steady_ret.
  by intros w.
Qed.

Lemma steady_endSession : steady endSession.
Proof.
  unfold endSession. apply steady_bind; [apply steady_get|]. intros w.
  destruct (noSession (integration w)); [apply steady_ret|].
  apply steady_tryCatch; [|intros; apply steady_ret].
  apply steady_bind; [apply steady_request|]. intros _. by intros w'.
Qed.

Lemma steady_askAmazonQ ivrPrompt : steady (askAmazonQ ivrPrompt).
Proof.
  unfold askAmazonQ. apply steady_bind; [apply steady_get|]. intros w.
  apply steady_bind.
  - destruct (noSession (integration w)); [|apply steady_ret].
    apply steady_bind; [apply steady_startSession|].
    intros; apply steady_ret.
  - intros _. apply steady_bind; [apply steady_get|]. intros w'.
    apply steady_bind; [apply steady_request|]. intros; apply steady_ret.
Qed.

Lemma steady_sendSplit digits : steady (sendSplit digits).
Proof.
  unfold sendSplit.
  apply steady_bind; [apply steady_sendDtmf|]. intros _.
  apply steady_bind; [apply steady_wait|]. intros _.
  apply steady_bind; [apply steady_sendDtmf|]. intros response.
  destruct (Js.isBlank _); [|apply steady_ret].
  apply steady_bind; [apply steady_wait|]. intros _.
  apply steady_continueCall.
Qed.

Lemma steady_dispatch action : steady (dispatch action).
Proof.
  unfold dispatch. destruct (_ || _).
  - destruct (Js.isMultiDigit action);
      auto using steady_sendSplit, steady_sendDtmf.
  - destruct (Js.matchDigits action) as [digits|];
      [destruct (Nat.ltb 1 _)|];
      auto using steady_sendSplit, steady_sendDtmf.
Qed.

(** *** The legs of a dispatch *)

(** The tester after [received]. *)
Definition heard (t : IvrFlowTester) (parsed : Parsed) : IvrFlowTester :=
  {| sid := sid t;
     lastResponse := parsed;
     callActive := callActive t;
     stateTracker :=
       snd (Tracker.updateState (stateTracker t)
              (extractTextFromResponse parsed)) |}.

(** The session after a leg that was answered. *)
Definition afterLeg (w : World Env) (event : Event) (env : Env)
    (parsed : Parsed) : World Env :=
  mkWorld env (heard (tester w) parsed) (integration w)
          (events w ++ [event]).

(** The session after a leg that failed. *)
Definition afterFailure (w : World Env) (event : Event) (env : Env)
    : World Env :=
  mkWorld env (tester w) (integration w) (events w ++ [event]).

(** The session after a wait. *)
Definition waited (delay : Delay) (w : World Env) : World Env :=
  mkWorld (remote w) (tester w) (integration w)
          (events w ++ [EvWait delay]).

Definition legOutcome (w : World Env) (event : Event)
    (reply : (string + Parsed) * Env) : Outcome Parsed * World Env :=
  match reply with
  | (inl message, env) => (Throw message, afterFailure w event env)
  | (inr parsed, env) => (Return parsed, afterLeg w event env parsed)
  end.

Lemma sendDtmf_reply w callSid digits :
  callActive (tester w) = true -> sid (tester w) = Some callSid ->
  sendDtmf digits w
  = legOutcome w (EvSendDtmf digits)
      (postVoice callSid (Some digits) (remote w)).
Proof.
  intros Hactive Hsid. unfold sendDtmf. rewrite bind_run. simpl.
  rewrite Hactive, Hsid. rewrite bind_run. unfold request, legOutcome.
  by destruct (postVoice _ _ _) as [[message | parsed] env].
Qed.

Lemma continueCall_reply w callSid :
  callActive (tester w) = true -> sid (tester w) = Some callSid ->
  continueCall w
  = legOutcome w EvContinueCall (postVoice callSid None (remote w)).
Proof.
  intros Hactive Hsid. unfold continueCall. rewrite bind_run. simpl.
  rewrite Hactive, Hsid. rewrite bind_run. unfold request, legOutcome.
  by destruct (postVoice _ _ _) as [[message | parsed] env].
Qed.

Lemma legOutcome_events w event reply :
  events (snd (legOutcome w event reply)) = events w ++ [event].
Proof. by destruct reply as [[message | parsed] env]. Qed.

(** The session after the two legs of a split. *)
Definition afterSplit (w : World Env) (digits : string)
    (env1 : Env) (r1 : Parsed) (env2 : Env) (r2 : Parsed) : World Env :=
  afterLeg
    (waited HalfWait
       (afterLeg w (EvSendDtmf (Js.charAt0 digits)) env1 r1))
    (EvSendDtmf (Js.substring1 digits)) env2 r2.

Lemma sendSplit_run w callSid digits r1 env1 r2 env2 :
  callActive (tester w) = true -> sid (tester w) = Some callSid ->
  postVoice callSid (Some (Js.charAt0 digits)) (remote w)
    = (inr r1, env1) ->
  postVoice callSid (Some (Js.substring1 digits)) env1 = (inr r2, env2) ->
  sendSplit digits w
  = if Js.isBlank (extractTextFromResponse r2)
    then legOutcome (waited HalfWait (afterSplit w digits env1 r1 env2 r2))
           EvContinueCall (postVoice callSid None env2)
    else (Return r2, afterSplit w digits env1 r1 env2 r2).
Proof.
  intros Hactive Hsid Hleg1 Hleg2. unfold sendSplit.
  rewrite bind_run, (sendDtmf_reply w callSid) by done.
  rewrite Hleg1. simpl. rewrite bind_run. simpl.
  rewrite bind_run, (sendDtmf_reply _ callSid) by done. simpl.
  rewrite Hleg2. simpl. fold (afterSplit w digits env1 r1 env2 r2).
  destruct (Js.isBlank (extractTextFromResponse r2)); [|done].
  rewrite bind_run. simpl.
  by rewrite (continueCall_reply _ callSid).
Qed.


Lemma isMultiDigit_isDigitString s :
  Js.isMultiDigit s = true -> Js.isDigitString s = true.
Proof.
  unfold Js.isMultiDigit, Js.isDigitString.
  destruct s as [|a [|b s]]; simpl; [done | done |].
  by destruct (Js.isDigit a).
Qed.

Lemma dispatch_multiDigit action :
  Js.isMultiDigit action = true -> dispatch action = sendSplit action.
Proof.
  intros Hmulti. unfold dispatch.
  by rewrite (isMultiDigit_isDigitString _ Hmulti), Hmulti.
Qed.




Lemma takeDigits_allDigits s : Js.allDigits (Js.takeDigits s) = true.
Proof.
  induction s as [|a s IH]; simpl; [done|].
  destruct (Js.isDigit a) eqn:E; simpl; [|done]. by rewrite E.
Qed.

Lemma matchDigits_digits s digits :
  Js.matchDigits s = Some digits ->
  Js.allDigits digits = true /\ (1 <= String.length digits)%nat.
Proof.
  induction s as [|a s IH]; simpl; [done|].
  destruct (Js.isDigit a) eqn:E; [|done].
  intros [= <-]. simpl. rewrite E, takeDigits_allDigits.
  split; [done | lia].
Qed.

(** An action that is neither digits nor a star nor a hash is sent as
    its first run of digits is. *)
Lemma dispatch_extracted action digits :
  Js.isDigitString action = false -> action <> "*" -> action <> "#" ->
  Js.matchDigits action = Some digits ->
  dispatch action = dispatch digits.
Proof.
  intros Hnot Hstar Hhash Hmatch.
  destruct (matchDigits_digits _ _ Hmatch) as [Hall Hlen].
  unfold dispatch at 1. rewrite Hnot, Hmatch.
  destruct (String.eqb_spec action "*"); [done|].
  destruct (String.eqb_spec action "#"); [done|]. simpl.
  unfold dispatch, Js.isDigitString, Js.isMultiDigit. rewrite Hall.
  destruct (Nat.leb_spec 1 (String.length digits)); [|lia]. simpl.
  rewrite andb_true_r. reflexivity.
Qed.


(** The digits that the loop body splits: the action itself when it is two
    or more digits, else its first run of digits when that run has two or
    more. *)
Definition splitDigits (action digits : string) : Prop :=
  (Js.isMultiDigit action = true /\ digits = action)
  \/ (Js.isDigitString action = false /\ action <> "*" /\ action <> "#"
      /\ Js.matchDigits action = Some digits
      /\ (2 <= String.length digits)%nat).

Lemma dispatch_splitDigits action digits :
  splitDigits action digits -> dispatch action = sendSplit digits.
Proof.
  intros [[Hmulti ->] | (Hnot & Hstar & Hhash & Hmatch & Hlen)].
  - by apply dispatch_multiDigit.
  - rewrite (dispatch_extracted action digits) by done.
    apply dispatch_multiDigit. unfold Js.isMultiDigit.
    destruct (matchDigits_digits _ _ Hmatch) as [-> _].
    by destruct (Nat.leb_spec 2 (String.length digits)); [|lia].
Qed.

(** C2: in a dispatch that splits its digits, when the text of the reply to
    the second leg is blank, exactly one more leg follows, a call without
    input, and the dispatch ends as that leg does: its reply is the result,
    blank or not, and no leg comes after it. *)
Theorem dispatch_blank_recovery_once
    action digits w callSid r1 env1 r2 env2 :
  callActive (tester w) = true ->
  sid (tester w) = Some callSid ->
  splitDigits action digits ->
  postVoice callSid (Some (Js.charAt0 digits)) (remote w) = (inr r1, env1) ->
  postVoice callSid (Some (Js.substring1 digits)) env1 = (inr r2, env2) ->
  Js.isBlank (extractTextFromResponse r2) = true ->
  events (snd (dispatch action w))
  = events w
    ++ [EvSendDtmf (Js.charAt0 digits); EvWait HalfWait;
        EvSendDtmf (Js.substring1 digits);
        EvWait HalfWait; EvContinueCall]
  /\ fst (dispatch action w)
     = match fst (postVoice callSid None env2) with
       | inl message => Throw message
       | inr r3 => Return r3
       end.
Proof.
  intros Hactive Hsid Hsplit Hleg1 Hleg2 Hblank.
  rewrite (dispatch_splitDigits _ _ Hsplit).
  rewrite (sendSplit_run w callSid digits r1 env1 r2 env2) by done.
  rewrite Hblank. split.
  - rewrite legOutcome_events. simpl events. by rewrite <- !app_assoc.
  - by destruct (postVoice callSid None env2) as [[message | r3] env3].
Qed.

(** *** The navigation loop *)

Lemma steady_history {A} (m : M (World Env) A) w o w' :
  steady m -> m w = (o, w') ->
  history (integration w') = history (integration w)
  /\ currentStep (integration w') = currentStep (integration w).
Proof.
  intros Hm E. destruct (steady_run _ _ _ _ Hm E) as [_ Hp].
  unfold progress in Hp. by injection Hp.
Qed.

Lemma steady_recheckBlank action newPrompt :
  steady (recheckBlank action newPrompt).
Proof.
  unfold recheckBlank. destruct (_ && _); [|apply steady_ret].
  apply steady_bind; [apply steady_continueCall|]. intros response.
  apply steady_bind; [apply steady_wait|]. intros; apply steady_ret.
Qed.

Lemma navigationLoop_unfold fuel currentPrompt :
  navigationLoop (S fuel) currentPrompt =
  (setIntegration (fun i =>
     {| sessionId := sessionId i; history := history i;
        currentStep := S (currentStep i) |});;
   action ← askAmazonQ currentPrompt;
   w ← get;
   let historyEntry (ivr : string) :=
     {| step := currentStep (integration w);
        prompt := currentPrompt;
        response := action;
        action := action;
        ivrResponse := Some ivr |} in
   if String.eqb (Js.toLowerCase action) "hang up" then
     endCall;;
     pushHistory (historyEntry "Call ended");;
     mret {| testCompleted := true; exit := HangUp |}
   else
     response ← dispatch action;
     wait FullWait;;
     newPrompt ← recheckBlank action (extractTextFromResponse response);
     pushHistory (historyEntry newPrompt);;
     w ← get;
     if Nat.leb maxSteps (currentStep (integration w)) then
       endCall;;
       mret {| testCompleted := true; exit := MaxSteps |}
     else navigationLoop fuel newPrompt).
Proof. reflexivity. Qed.

(** What a loop that ends by one of its [break]s has done: one entry per
    step, numbered from the step counter on. *)
Lemma navigationLoop_Return fuel : forall currentPrompt w e w',
  navigationLoop fuel currentPrompt w = (Return e, w') ->
  testCompleted e = true
  /\ exists entries,
       history (integration w') = history (integration w) ++ entries
       /\ map step entries
          = seq (S (currentStep (integration w))) (length entries)
       /\ currentStep (integration w')
          = (currentStep (integration w) + length entries)%nat
       /\ (exit e = MaxSteps ->
             (maxSteps <= currentStep (integration w'))%nat)
       /\ ((currentStep (integration w) < maxSteps)%nat ->
             (currentStep (integration w') <= maxSteps)%nat).
Proof.
  induction fuel as [|fuel IH]; intros currentPrompt w e w' Hrun;
    [discriminate|].
  rewrite navigationLoop_unfold in Hrun.
  apply bind_Return_inv in Hrun as ([] & w1 & [= <-] & Hrun).
  apply bind_Return_inv in Hrun as (action & w2 & Hask & Hrun).
  apply (steady_history _ _ _ _ (steady_askAmazonQ _)) in Hask
    as [Hh2 Hs2]. simpl in Hh2, Hs2.
  apply bind_Return_inv in Hrun as (? & ? & [= <- <-] & Hrun).
  destruct (String.eqb (Js.toLowerCase action) "hang up").
  - apply bind_Return_inv in Hrun as (? & w3 & Hend & Hrun).
    apply (steady_history _ _ _ _ steady_endCall) in Hend as [Hh3 Hs3].
    apply bind_Return_inv in Hrun as ([] & ? & [= <-] & [= <- <-]).
    split; [done|]. eexists [_]. simpl.
    rewrite Hh3, Hh2, Hs3, Hs2. repeat split; try done; lia.
  - apply bind_Return_inv in Hrun as (response & w3 & Hsend & Hrun).
    apply (steady_history _ _ _ _ (steady_dispatch _)) in Hsend
      as [Hh3 Hs3].
    apply bind_Return_inv in Hrun as ([] & ? & [= <-] & Hrun).
    apply bind_Return_inv in Hrun as (newPrompt & w5 & Hcheck & Hrun).
    apply (steady_history _ _ _ _ (steady_recheckBlank _ _)) in Hcheck
      as [Hh5 Hs5]. simpl in Hh5, Hs5.
    apply bind_Return_inv in Hrun as ([] & ? & [= <-] & Hrun).
    apply bind_Return_inv in Hrun as (? & ? & [= <- <-] & Hrun).
    cbv beta in Hrun.
    match type of Hrun with
    | context [Nat.leb maxSteps ?n] =>
        destruct (Nat.leb_spec maxSteps n) as [Hmax | Hless]
    end; simpl in Hmax || simpl in Hless.
    + apply bind_Return_inv in Hrun as (? & w7 & Hend & [= <- <-]).
      apply (steady_history _ _ _ _ steady_endCall) in Hend as [Hh7 Hs7].
      simpl in Hh7, Hs7.
      split; [done|]. eexists [_]. simpl.
      rewrite Hh7, Hs7, Hh5, Hs5, Hh3, Hs3, Hh2, Hs2.
      repeat split; try done; lia.
    + apply IH in Hrun as (Hdone & entries & Hh & Hsteps & Hs & Hexit & Hle).
      simpl in Hh, Hsteps, Hs, Hle.
      rewrite Hs5, Hs3, Hs2 in Hsteps, Hs, Hle, Hless.
      split; [done|]. eexists (_ :: entries).
      split; [by rewrite Hh, Hh5, Hh3, Hh2, <- app_assoc|].
      split; [simpl; by rewrite Hs2, Hsteps|].
      split; [simpl; lia|].
      split; [done | intros _; apply Hle, Hless].
Qed.

(** With enough fuel the loop never runs out of it: the check against
    [maxSteps] ends it first. *)
Lemma navigationLoop_terminates fuel : forall currentPrompt w,
  (0 < fuel)%nat ->
  (maxSteps <= fuel + currentStep (integration w))%nat ->
  fst (navigationLoop fuel currentPrompt w) <> OutOfFuel.
Proof.
  induction fuel as [|fuel IH]; intros currentPrompt w Hpos Hfuel; [lia|].
  rewrite navigationLoop_unfold.
  apply bind_terminates; [done|]. intros [] w1 [= <-].
  apply bind_terminates; [apply steady_askAmazonQ|].
  intros action w2 Hask.
  apply (steady_history _ _ _ _ (steady_askAmazonQ _)) in Hask
    as [_ Hs2]. simpl in Hs2.
  apply bind_terminates; [done|]. intros ? ? [= <- <-].
  destruct (String.eqb (Js.toLowerCase action) "hang up").
  - apply bind_terminates; [apply steady_endCall|]. intros _ w3 _.
    apply bind_terminates; [done|]. by intros.
  - apply bind_terminates; [apply steady_dispatch|].
    intros response w3 Hsend.
    apply (steady_history _ _ _ _ (steady_dispatch _)) in Hsend
      as [_ Hs3].
    apply bind_terminates; [done|]. intros [] ? [= <-].
    apply bind_terminates; [apply steady_recheckBlank|].
    intros newPrompt w5 Hcheck.
    apply (steady_history _ _ _ _ (steady_recheckBlank _ _)) in Hcheck
      as [_ Hs5]. simpl in Hs5.
    apply bind_terminates; [done|]. intros [] ? [= <-].
    apply bind_terminates; [done|]. intros ? ? [= <- <-]. cbv beta.
    match goal with
    | |- context [Nat.leb maxSteps ?n] =>
        destruct (Nat.leb_spec maxSteps n) as [Hmax | Hless]
    end; simpl in Hmax || simpl in Hless.
    + apply bind_terminates; [apply steady_endCall|]. by intros.
    + apply IH; simpl; lia.
Qed.

(** *** The driver around the loop *)

(** A computation whose errors are caught and dropped returns. *)
Lemma caught_returns (m : M (World Env) unit) w :
  steady m ->
  exists w', tryCatch m (fun _ => mret tt) w = (Return tt, w')
             /\ progress w' = progress w.
Proof.
  intros Hm. unfold tryCatch.
  destruct (m w) as [[[] | message |] w1] eqn:E;
    destruct (steady_run _ _ _ _ Hm E) as [Hfuel Hp]; [| | done];
    by exists w1.
Qed.

Lemma endSession_returns w :
  exists w', endSession w = (Return tt, w') /\ progress w' = progress w.
Proof.
  unfold endSession. rewrite bind_run. simpl.
  destruct (noSession (integration w)); [by exists w|].
  apply caught_returns.
  apply steady_bind; [apply steady_request|]. intros _. by intros w'.
Qed.

Lemma closeSession_returns w :
  exists w',
    closeSession w
    = (Return {| success := true; error := None;
                 steps := currentStep (integration w);
                 resultHistory := history (integration w) |}, w')
    /\ progress w' = progress w.
Proof.
  destruct (endSession_returns w) as (w' & Hend & Hp).
  exists w'. split; [|done].
  unfold closeSession. rewrite (bind_Return _ _ _ _ _ Hend).
  rewrite bind_run. simpl. unfold progress in Hp.
  injection Hp as -> ->. reflexivity.
Qed.

Lemma cleanUp_returns message w :
  exists w',
    cleanUp message w
    = (Return {| success := false; error := Some message;
                 steps := currentStep (integration w);
                 resultHistory := history (integration w) |}, w').
Proof.
  unfold cleanUp.
  edestruct (caught_returns
               (w ← get;
                if callActive (tester w) then endCall;; mret tt
                else mret tt) w) as (w1 & Hcall & Hp1).
  { apply steady_bind; [apply steady_get|]. intros w0.
    destruct (callActive (tester w0)); [|apply steady_ret].
    apply steady_bind; [apply steady_endCall|].
    intros; apply steady_ret. }
  rewrite (bind_Return _ _ _ _ _ Hcall).
  destruct (caught_returns endSession w1 steady_endSession)
    as (w2 & Hend & Hp2).
  rewrite (bind_Return _ _ _ _ _ Hend).
  exists w2. rewrite bind_run. simpl.
  rewrite Hp1 in Hp2. unfold progress in Hp2.
  injection Hp2 as -> ->. reflexivity.
Qed.

Lemma openCall_Return testName w currentPrompt w1 :
  openCall testName w = (Return currentPrompt, w1) ->
  history (integration w1) = history (integration w)
  /\ currentStep (integration w1) = 0%nat.
Proof.
  unfold openCall. intros Hrun.
  apply bind_Return_inv in Hrun as (? & wa & Hsession & Hrun).
  apply (steady_history _ _ _ _ steady_startSession) in Hsession
    as [Hha _].
  apply bind_Return_inv in Hrun as (initial & wb & Hcall & Hrun).
  apply (steady_history _ _ _ _ (steady_startCall _)) in Hcall
    as [Hhb _].
  apply bind_Return_inv in Hrun as ([] & ? & [= <-] & Hrun).
  apply bind_Return_inv in Hrun as ([] & ? & [= <-] & [= _ <-]).
  simpl. split; [congruence | done].
Qed.

Lemma openCall_terminates testName w :
  fst (openCall testName w) <> OutOfFuel.
Proof.
  unfold openCall.
  apply bind_terminates; [apply steady_startSession|]. intros ? wa _.
  apply bind_terminates; [apply steady_startCall|]. intros ? wb _.
  apply bind_terminates; [done|]. intros [] ? _.
  apply bind_terminates; [done|]. by intros.
Qed.

(** With [maxSteps] units of fuel, [runAutomatedNavigation] always
    returns a result: it neither throws nor loops for ever. *)
Lemma runAutomatedNavigation_returns fuel testName w :
  (maxSteps <= fuel)%nat ->
  exists result w',
    runAutomatedNavigation fuel testName w = (Return result, w').
Proof.
  intros Hfuel. unfold runAutomatedNavigation, tryCatch.
  match goal with
  | |- context [match ?body w with _ => _ end] =>
      assert (fst (body w) <> OutOfFuel) as Hbody;
      [|destruct (body w) as [[result | message |] w1]]
  end.
  - apply bind_terminates; [apply openCall_terminates|].
    intros currentPrompt w1 Hopen.
    apply openCall_Return in Hopen as [_ Hstep].
    apply bind_terminates.
    + apply navigationLoop_terminates; unfold maxSteps in *; lia.
    + intros e w2 _. destruct (closeSession_returns w2) as (w3 & -> & _).
      done.
  - eauto.
  - destruct (cleanUp_returns message w1) as (w2 & ->). eauto.
  - done.
Qed.

(** C3, as the code has it: when the loop ends because the step counter
    has reached [maxSteps], no error is raised: the loop variable
    [testCompleted] is set, as it is when Amazon Q says to hang up, and
    the driver returns a result with [success] true, 20 steps and the
    whole history: what was there before the run followed by one entry
    per step, numbered 1 to 20. *)
Theorem runAutomatedNavigation_maxSteps
    fuel testName w currentPrompt w1 e w2 :
  openCall testName w = (Return currentPrompt, w1) ->
  navigationLoop fuel currentPrompt w1 = (Return e, w2) ->
  exit e = MaxSteps ->
  testCompleted e = true
  /\ exists entries w3,
       runAutomatedNavigation fuel testName w
       = (Return {| success := true; error := None; steps := maxSteps;
                    resultHistory := history (integration w) ++ entries |},
          w3)
       /\ map step entries = seq 1 maxSteps
       /\ history (integration w3) = history (integration w) ++ entries.
Proof.
  intros Hopen Hloop Hexit.
  destruct (openCall_Return _ _ _ _ Hopen) as [Hh1 Hs1].
  destruct (navigationLoop_Return _ _ _ _ _ Hloop)
    as (Hdone & entries & Hh2 & Hsteps & Hs2 & Hmax & Hle).
  specialize (Hmax Hexit). rewrite Hs1 in Hsteps, Hs2, Hle.
  assert (currentStep (integration w2) = maxSteps) as Hs
    by (unfold maxSteps in *; lia).
  assert (length entries = maxSteps) as Hlen by lia.
  destruct (closeSession_returns w2) as (w3 & Hclose & Hp).
  split; [done|]. exists entries, w3. split; [|split].
  - unfold runAutomatedNavigation.
    apply tryCatch_Return.
    rewrite (bind_Return _ _ _ _ _ Hopen), (bind_Return _ _ _ _ _ Hloop).
    by rewrite Hclose, Hs, Hh2, Hh1.
  - by rewrite Hsteps, Hlen.
  - unfold progress in Hp. injection Hp as Hh3 _. congruence.
Qed.

End WithRemote.

(** *** The driver on scripted sessions *)

Import Scripted.

(** The request legs among the events: the calls to the voice endpoint. *)
Definition isLeg (event : Event) : bool :=
  match event with
  | EvStartCall | EvSendDtmf _ | EvContinueCall => true
  | _ => false
  end.

Definition legs (trace : list Event) : list Event := List.filter isLeg trace.




Lemma dispatch_blank_recovery_once_witness :
  events (snd (dispatch "1234" blankAfterDigits))
  = [EvSendDtmf "1"; EvWait HalfWait; EvSendDtmf "234";
     EvWait HalfWait; EvContinueCall]
  /\ fst (dispatch "1234" blankAfterDigits)
     = Return (Some {| Say := SayAbsent; GatherSay := SayAbsent |})
  /\ Js.isBlank
       (extractTextFromResponse
          (Some {| Say := SayAbsent; GatherSay := SayAbsent |})) = true.
Proof.
  destruct (@dispatch_blank_recovery_once Script scripted
              "1234" "1234" blankAfterDigits "T_1b9d6bcd"
              (Some {| Say := SaySingle (SayText "Please hold");
                       GatherSay := SayAbsent |})
              (mkScript [silence; silence] [])
              (Some {| Say := SayAbsent; GatherSay := SayAbsent |})
              (mkScript [silence] [])
              eq_refl eq_refl (or_introl (conj eq_refl eq_refl))
              eq_refl eq_refl eq_refl)
    as [Hevents Hresult].
  split; [exact Hevents|]. split; [exact Hresult | reflexivity].
Defined.

(** A whole run in which the reply to the second leg and the replies to the
    calls without input are blank: the dispatch makes its one call without
    input, the check that follows in the loop body makes one more, and the
    blank prompt then goes to Amazon Q. *)
Example blank_replies_run :
  events
    (snd (runAutomatedNavigation 20 "T"
            (newWorld
               (mkScript [says "Please enter the prescription number";
                          says "Please hold"; silence; silence; silence]
                         [inr "1234"; inr "hang up"]))))
  = [EvCreateSession; EvStartCall; EvWait FullWait;
     EvMessage "Please enter the prescription number";
     EvSendDtmf "1"; EvWait HalfWait; EvSendDtmf "234";
     EvWait HalfWait; EvContinueCall;
     EvWait FullWait; EvContinueCall; EvWait FullWait;
     EvMessage ""; EvEndCall; EvDeleteSession].
Proof. by vm_compute. Qed.

Lemma runAutomatedNavigation_maxSteps_witness :
  exists entries w3,
    runAutomatedNavigation 20 "T" endless
    = (Return {| success := true; error := None; steps := 20;
                 resultHistory := entries |}, w3)
    /\ map step entries = seq 1 20.
Proof.
  destruct (@runAutomatedNavigation_maxSteps Script scripted 20%nat "T" endless
              "To refill a prescription, press 1"
              (snd (openCall "T" endless))
              {| testCompleted := true; exit := MaxSteps |}
              (snd (navigationLoop 20 "To refill a prescription, press 1"
                      (snd (openCall "T" endless)))))
    as (_ & entries & w3 & Hrun & Hsteps & _).
  - vm_compute. reflexivity.
  - vm_compute. reflexivity.
  - reflexivity.
  - exists entries, w3. split; [exact Hrun | exact Hsteps].
Defined.

(** C3 as the specification states it: a run that ends on the step budget
    reports a flag that is false, be it the flag of the result or the loop
    variable. *)
Definition budgetReportedIncomplete : Prop :=
  forall (Env : Type) (R : Remote Env) fuel testName (w : World Env)
         currentPrompt w1 e w2,
    openCall testName w = (Return currentPrompt, w1) ->
    navigationLoop fuel currentPrompt w1 = (Return e, w2) ->
    exit e = MaxSteps ->
    exists result w3,
      runAutomatedNavigation fuel testName w = (Return result, w3)
      /\ (success result = false \/ testCompleted e = false).

(** On the session where Amazon Q answers 1 twenty times the loop ends on
    the step budget, with [testCompleted] true, and the result has 20 steps
    and [success] true. *)
Lemma budgetReportedIncomplete_counterexample :
  fst (navigationLoop 20 "To refill a prescription, press 1"
         (snd (openCall "T" endless)))
  = Return {| testCompleted := true; exit := MaxSteps |}
  /\ success <$> fst (runAutomatedNavigation 20 "T" endless) = Return true
  /\ steps <$> fst (runAutomatedNavigation 20 "T" endless) = Return 20%nat
  /\ ~ budgetReportedIncomplete.
Proof.
  split; [by vm_compute|]. split; [by vm_compute|]. split; [by vm_compute|].
  intros Hflag.
  destruct (Hflag Script scripted 20%nat "T" endless
              "To refill a prescription, press 1"
              (snd (openCall "T" endless))
              {| testCompleted := true; exit := MaxSteps |}
              (snd (navigationLoop 20 "To refill a prescription, press 1"
                      (snd (openCall "T" endless)))))
    as (result & w3 & Hrun & [Hfalse | Hfalse]).
  - vm_compute. reflexivity.
  - vm_compute. reflexivity.
  - reflexivity.
  - apply (f_equal fst) in Hrun. vm_compute in Hrun.
    injection Hrun as <-. discriminate.
  - discriminate.
Qed.

End DriverSpec.

(** ** Invariants of the state tracker *)

Module TrackerInvariants.
Import Tracker TrackerMethods.

(** The trackers a program can get: a new one, changed by the methods. *)
Inductive Reachable : Tracker -> Prop :=
| reach_new : Reachable newTracker
| reach_update t text : Reachable t -> Reachable (snd (updateState t text))
| reach_add t state pattern :
    Reachable t -> Reachable (addStatePattern t state pattern)
| reach_reset t : Reachable t -> Reachable (reset t).

(** The same without [reset]. *)
Inductive Running : Tracker -> Prop :=
| running_new : Running newTracker
| running_update t text : Running t -> Running (snd (updateState t text))
| running_add t state pattern :
    Running t -> Running (addStatePattern t state pattern).

Lemma Running_Reachable t : Running t -> Reachable t.
Proof. induction 1; by constructor. Qed.

(** The states the tracker has been in since it was made or reset, in
    order: UNKNOWN, then the history. *)
Definition visited (t : Tracker) : list IvrState := UNKNOWN :: stateHistory t.

(** No state is followed by itself. *)
Fixpoint stutterFree (l : list IvrState) : Prop :=
  match l with
  | x :: (y :: _) as rest => x <> y /\ stutterFree rest
  | _ => True
  end.

(** How often [a] is followed at once by [b]. *)
Fixpoint countPairs (a b : IvrState) (l : list IvrState) : nat :=
  match l with
  | x :: (y :: _) as rest =>
      (if bool_decide (x = a /\ y = b) then 1 else 0) + countPairs a b rest
  | _ => 0
  end.

(** A count as [stateTransitions] holds it: no property for 0. *)
Definition counted (n : nat) : option nat :=
  match n with
  | O => None
  | S _ => Some n
  end.

(** What a message of the log says of the transition table. *)
Definition logSound (message : LogMsg) : Prop :=
  match message with
  | LogTransition from to =>
      from <> to /\ (from = UNKNOWN \/ to ∈ STATE_TRANSITIONS from)
  | LogInvalidTransition from to =>
      from <> to /\ from <> UNKNOWN /\ to ∉ STATE_TRANSITIONS from
  | LogAddedPattern _ _ => True
  end.

Definition isTransitionMessage (message : LogMsg) : bool :=
  match message with
  | LogTransition _ _ | LogInvalidTransition _ _ => true
  | LogAddedPattern _ _ => false
  end.

Lemma stutterFree_snoc l x :
  stutterFree (l ++ [x]) <-> stutterFree l /\ last l <> Some x.
Proof.
  induction l as [|a [|b l] IH]; simpl in *.
  - split; [done | done].
  - split; [intros [Hne _]; split; [done | congruence]
           | intros [_ Hne]; split; [congruence | done]].
  - rewrite IH. change (last (a :: b :: l)) with (last (b :: l)). tauto.
Qed.

Lemma countPairs_cons a b x y l :
  countPairs a b (x :: y :: l)
  = ((if bool_decide (x = a /\ y = b) then 1 else 0)
     + countPairs a b (y :: l))%nat.
Proof. reflexivity. Qed.

Lemma countPairs_snoc a b l x :
  countPairs a b (l ++ [x])
  = (countPairs a b l
     + if bool_decide (last l = Some a /\ x = b) then 1 else 0)%nat.
Proof.
  induction l as [|c l IH]; [done|].
  destruct l as [|d l].
  - change (countPairs a b ([c] ++ [x]))
      with ((if bool_decide (c = a /\ x = b) then 1 else 0) + 0)%nat.
    change (countPairs a b [c]) with 0%nat.
    rewrite Nat.add_0_r, Nat.add_0_l.
    rewrite (bool_decide_ext (c = a /\ x = b) (last [c] = Some a /\ x = b));
      [done|].
    simpl. split; intros [? ?]; split; congruence.
  - change ((c :: d :: l) ++ [x]) with (c :: d :: (l ++ [x])).
    rewrite !countPairs_cons.
    change (d :: l ++ [x]) with ((d :: l) ++ [x]). rewrite IH.
    change (last (c :: d :: l)) with (last (d :: l)). lia.
Qed.

(** The tracker after [updateState], by cases on the identified state. *)
Lemma updateState_fields t text :
  let t' := snd (updateState t text) in
  discoveredPatterns t' = discoveredPatterns t
  /\ discoveredStates t' = {[identifyState t text]} ∪ discoveredStates t
  /\ ((identifyState t text = currentState t
       /\ currentState t' = currentState t
       /\ previousState t' = previousState t
       /\ stateHistory t' = stateHistory t
       /\ stateTransitions t' = stateTransitions t
       /\ logged t' = logged t)
      \/ (identifyState t text <> currentState t
          /\ currentState t' = identifyState t text
          /\ previousState t' = Some (currentState t)
          /\ stateHistory t' = stateHistory t ++ [identifyState t text]
          /\ stateTransitions t'
             = (if bool_decide (currentState t <> UNKNOWN)
                then tally (stateTransitions t) (currentState t)
                           (identifyState t text)
                else stateTransitions t)
          /\ logged t'
             = logged t ++
               [if bool_decide (identifyState t text
                                  ∈ STATE_TRANSITIONS (currentState t))
                   || bool_decide (currentState t = UNKNOWN)
                then LogTransition (currentState t) (identifyState t text)
                else LogInvalidTransition (currentState t)
                                          (identifyState t text)])).
Proof.
  destruct (decide (identifyState t text = currentState t)) as [Heq | Hne].
  - rewrite (TrackerSpec.updateState_unchanged _ _ Heq). simpl.
    split; [done|]. split; [done|]. by left.
  - rewrite (TrackerSpec.updateState_changed _ _ Hne). simpl.
    split; [done|]. split; [done|]. by right.
Qed.

Lemma addStatePattern_fields t state pattern :
  let t' := addStatePattern t state pattern in
  currentState t' = currentState t
  /\ previousState t' = previousState t
  /\ stateHistory t' = stateHistory t
  /\ stateTransitions t' = stateTransitions t
  /\ discoveredStates t' = discoveredStates t
  /\ (logged t' = logged t
      \/ logged t' = logged t ++ [LogAddedPattern state pattern]).
Proof.
  unfold addStatePattern. case_bool_decide; simpl; tauto.
Qed.

(** [updateState] ends in the state it identified, and returns it, whatever
    the table of transitions says. *)
Lemma updateState_follows t text :
  fst (updateState t text) = identifyState t text
  /\ currentState (snd (updateState t text)) = identifyState t text.
Proof.
  destruct (decide (identifyState t text = currentState t)) as [Heq | Hne].
  - by rewrite (TrackerSpec.updateState_unchanged _ _ Heq).
  - by rewrite (TrackerSpec.updateState_changed _ _ Hne).
Qed.

Lemma reachable_last t :
  Reachable t -> last (visited t) = Some (currentState t).
Proof.
  induction 1 as [| t text _ IH | t state pattern _ IH | t _ _];
    [done | | |done].
  - destruct (updateState_fields t text)
      as (_ & _ & [(_ & -> & _ & Hh & _) | (_ & -> & _ & Hh & _)]);
      unfold visited in *; rewrite Hh; [done|].
    rewrite app_comm_cons. apply last_snoc.
  - destruct (addStatePattern_fields t state pattern) as (Hc & _ & Hh & _).
    unfold visited in *. by rewrite Hc, Hh.
Qed.

(** X1: the history never repeats a state twice in a row and never starts with
    UNKNOWN; its last state is the current one (UNKNOWN when it is empty), and
    the previous state is the one before that. *)
Theorem history_shape t :
  Reachable t ->
  stutterFree (visited t)
  /\ last (visited t) = Some (currentState t)
  /\ previousState t = last (take (length (stateHistory t)) (visited t)).
Proof.
  induction 1 as [| t text _ IH | t state pattern _ IH | t _ _].
  - done.
  - destruct IH as (Hfree & Hlast & Hprev).
    destruct (updateState_fields t text)
      as (_ & _ & [(_ & -> & -> & Hh & _) | (Hne & -> & -> & Hh & _)]);
      unfold visited in *; rewrite Hh; [done|].
    rewrite app_comm_cons. split; [|split].
    + apply stutterFree_snoc. split; [done|]. rewrite Hlast. congruence.
    + apply last_snoc.
    + rewrite length_app. simpl.
      change (UNKNOWN :: stateHistory t ++ [identifyState t text])
        with ((UNKNOWN :: stateHistory t) ++ [identifyState t text]).
      rewrite take_app_length'; [done | simpl; lia].
  - destruct (addStatePattern_fields t state pattern)
      as (Hc & Hp & Hh & _).
    unfold visited in *. by rewrite Hc, Hp, Hh.
  - done.
Qed.

Lemma history_shape_witness :
  stutterFree (UNKNOWN :: stateHistory Scripted.weeklyHours)
  /\ last (UNKNOWN :: stateHistory Scripted.weeklyHours) = Some WEEKLY_HOURS
  /\ previousState Scripted.weeklyHours = Some UNKNOWN.
Proof.
  apply (history_shape Scripted.weeklyHours).
  apply reach_update, reach_new.
Defined.

(** X2: every state of the history is among the discovered states. *)
Theorem history_discovered t s :
  Reachable t -> s ∈ stateHistory t -> s ∈ discoveredStates t.
Proof.
  intros Hreach. revert s.
  induction Hreach as [| t text _ IH | t state pattern _ IH | t _ _];
    intros s Hin.
  - by apply elem_of_nil in Hin.
  - destruct (updateState_fields t text)
      as (_ & -> & [(_ & _ & _ & Hh & _) | (_ & _ & _ & Hh & _)]);
      rewrite Hh in Hin.
    + apply elem_of_union_r. by apply IH.
    + apply elem_of_app in Hin as [Hin | Hin%list_elem_of_singleton].
      * apply elem_of_union_r. by apply IH.
      * subst s. apply elem_of_union_l. by apply elem_of_singleton.
  - destruct (addStatePattern_fields t state pattern)
      as (_ & _ & Hh & _ & Hd & _).
    rewrite Hd. rewrite Hh in Hin. by apply IH.
  - by apply elem_of_nil in Hin.
Qed.

Lemma history_discovered_witness :
  WEEKLY_HOURS ∈ discoveredStates Scripted.weeklyHours.
Proof.
  apply (history_discovered Scripted.weeklyHours WEEKLY_HOURS).
  - apply reach_update, reach_new.
  - assert (stateHistory Scripted.weeklyHours = [WEEKLY_HOURS]) as ->
      by (vm_compute; reflexivity).
    apply list_elem_of_singleton. reflexivity.
Defined.

(** X3: the log tells the truth about the table of transitions: a transition
    is logged as invalid only if it leaves a state other than UNKNOWN for a
    state that is not among its successors, and as a transition only if it is
    legal; no message is about a state followed by itself. Without [reset],
    there is one such message per entry of the history. *)
Theorem log_sound t :
  (Reachable t -> Forall logSound (logged t))
  /\ (Running t ->
        length (List.filter isTransitionMessage (logged t))
        = length (stateHistory t)).
Proof.
  split.
  - induction 1 as [| t text _ IH | t state pattern _ IH | t _ IH];
      [by constructor | | | done].
    + destruct (updateState_fields t text)
        as (_ & _ & [(_ & _ & _ & _ & _ & ->) | (Hne & _ & _ & _ & _ & ->)]);
        [done|].
      apply Forall_app. split; [done|]. constructor; [|constructor].
      destruct (decide (identifyState t text
                          ∈ STATE_TRANSITIONS (currentState t)))
        as [Hin | Hout];
        destruct (decide (currentState t = UNKNOWN)) as [Hu | Hk].
      * rewrite (bool_decide_eq_true_2 _ Hin). simpl.
        split; [congruence | auto].
      * rewrite (bool_decide_eq_true_2 _ Hin). simpl.
        split; [congruence | auto].
      * rewrite (bool_decide_eq_false_2 _ Hout), (bool_decide_eq_true_2 _ Hu).
        simpl. split; [congruence | auto].
      * rewrite (bool_decide_eq_false_2 _ Hout), (bool_decide_eq_false_2 _ Hk).
        simpl. split; [congruence | auto].
    + destruct (addStatePattern_fields t state pattern)
        as (_ & _ & _ & _ & _ & [-> | ->]); [done|].
      apply Forall_app. split; [done|]. by repeat constructor.
  - induction 1 as [| t text _ IH | t state pattern _ IH]; [done | |].
    + destruct (updateState_fields t text)
        as (_ & _ & [(_ & _ & _ & -> & _ & ->) | (_ & _ & _ & -> & _ & ->)]);
        [done|].
      rewrite List.filter_app, !length_app, IH.
      by destruct (_ || _).
    + destruct (addStatePattern_fields t state pattern)
        as (_ & _ & -> & _ & _ & [-> | ->]); [done|].
      rewrite List.filter_app, length_app, IH. simpl. lia.
Qed.

Lemma log_sound_witness :
  Forall logSound
    (logged (snd (updateState Scripted.weeklyHours "Is this correct?")))
  /\ length (List.filter isTransitionMessage
               (logged (snd (updateState Scripted.weeklyHours
                               "Is this correct?"))))
     = 2%nat.
Proof.
  destruct (log_sound (snd (updateState Scripted.weeklyHours
                              "Is this correct?"))) as [Hsound Hcount].
  split.
  - apply Hsound. do 2 apply reach_update. apply reach_new.
  - apply Hcount. do 2 apply running_update. apply running_new.
Defined.

(** X4: without [reset], the count kept for a transition from [a] to [b] is
    the number of times [a] is followed at once by [b] in the history; nothing
    is kept for a pair that did not occur, and nothing at all for the
    transitions from UNKNOWN. *)
Theorem tally_counts_history t a b :
  Running t ->
  stateTransitions t a !! b
  = if bool_decide (a = UNKNOWN) then None
    else counted (countPairs a b (visited t)).
Proof.
  induction 1 as [| t text Hrun IH | t state pattern _ IH].
  - simpl. rewrite lookup_empty. by case_bool_decide.
  - pose proof (reachable_last t (Running_Reachable t Hrun)) as Hlast.
    destruct (updateState_fields t text)
      as (_ & _ & [(_ & _ & _ & Hh & -> & _) | (Hne & _ & _ & Hh & -> & _)]);
      unfold visited in *; rewrite Hh; [done|].
    rewrite app_comm_cons, countPairs_snoc, Hlast.
    destruct (decide (currentState t = UNKNOWN)) as [Hu | Hk].
    + rewrite (bool_decide_eq_false_2 (currentState t <> UNKNOWN)) by tauto.
      rewrite IH. case_bool_decide as Ha; [done|].
      rewrite (bool_decide_eq_false_2 (Some _ = Some a /\ _));
        [by rewrite Nat.add_0_r|].
      intros [[= Hc] _]. congruence.
    + rewrite (bool_decide_eq_true_2 _ Hk).
      destruct (decide ((a, b) = (currentState t, identifyState t text)))
        as [[= -> ->] | Hother].
      * rewrite TrackerSpec.tally_lookup, IH.
        rewrite (bool_decide_eq_false_2 _ Hk).
        rewrite (bool_decide_eq_true_2 (_ /\ _)) by done.
        destruct (countPairs _ _ _); simpl; f_equal; lia.
      * rewrite TrackerSpec.tally_lookup_other by done. rewrite IH.
        case_bool_decide as Ha; [done|].
        rewrite (bool_decide_eq_false_2 (Some _ = Some a /\ _));
          [by rewrite Nat.add_0_r|].
        intros [[= Hc] Hb]. congruence.
  - destruct (addStatePattern_fields t state pattern)
      as (_ & _ & Hh & -> & _). unfold visited in *. by rewrite Hh.
Qed.

Lemma tally_counts_history_witness :
  stateTransitions (snd (updateState Scripted.weeklyHours "Is this correct?"))
    WEEKLY_HOURS !! CONFIRM_RX = Some 1%nat
  /\ stateTransitions
       (snd (updateState Scripted.weeklyHours "Is this correct?"))
       UNKNOWN !! WEEKLY_HOURS = None.
Proof.
  split.
  - apply (tally_counts_history
             (snd (updateState Scripted.weeklyHours "Is this correct?"))
             WEEKLY_HOURS CONFIRM_RX).
    do 2 apply running_update. apply running_new.
  - apply (tally_counts_history
             (snd (updateState Scripted.weeklyHours "Is this correct?"))
             UNKNOWN WEEKLY_HOURS).
    do 2 apply running_update. apply running_new.
Defined.

(** *** The registry of discovered patterns and the classifier *)

Lemma scanPatterns_key lowerText table s :
  scanPatterns lowerText table = Some s -> s ∈ table.*1.
Proof.
  induction table as [|[s0 pats] table IH]; csimpl; [done|].
  destruct (existsb _ pats).
  - intros [= ->]. by left.
  - intros Hs. right. by apply IH.
Qed.

Lemma specialCase_known previous lowerText :
  specialCase previous lowerText <> Some UNKNOWN.
Proof.
  unfold specialCase.
  repeat match goal with
         | |- context [if ?b then _ else _] => destruct b
         end; discriminate.
Qed.

Lemma scanPatterns_snoc_empty lowerText table s :
  scanPatterns lowerText (table ++ [(s, [])]) = scanPatterns lowerText table.
Proof.
  induction table as [|[s0 pats] table IH]; simpl; [done|].
  by destruct (existsb _ pats).
Qed.

Lemma scanPatterns_push lowerText table s pattern patterns :
  scanPatterns lowerText table = None ->
  registered table s = Some patterns ->
  Js.includes lowerText (Js.toLowerCase pattern) = true ->
  scanPatterns lowerText (pushPattern table s pattern) = Some s.
Proof.
  intros Hnone Hreg Hin.
  induction table as [|[s0 pats] table IH]; simpl in *; [done|].
  destruct (existsb _ pats) eqn:Hpats; [done|].
  destruct (decide (s0 = s)) as [-> | Hne]; simpl.
  - by rewrite existsb_app, Hpats; simpl; rewrite Hin.
  - rewrite Hpats. by apply IH.
Qed.

Lemma scanPatterns_none_fresh lowerText table s patterns pattern :
  scanPatterns lowerText table = None ->
  registered table s = Some patterns ->
  pattern ∈ patterns ->
  Js.includes lowerText (Js.toLowerCase pattern) = false.
Proof.
  intros Hnone Hreg Hp.
  induction table as [|[s0 pats] table IH]; simpl in *; [done|].
  destruct (existsb _ pats) eqn:Hpats; [done|].
  destruct (decide (s0 = s)) as [-> |]; [|by apply IH].
  injection Hreg as ->.
  destruct (Js.includes _ _) eqn:Hin; [|done].
  rewrite <- Hpats. symmetry. apply existsb_exists. exists pattern.
  split; [by apply list_elem_of_In | done].
Qed.

(** X5: the discovered patterns never override the rules that are built in: a
    text that a tracker without discovered patterns classifies is classified
    the same with any registry. *)
Theorem builtin_rules_first t t' text :
  previousState t = previousState t' ->
  discoveredPatterns t' = [] ->
  identifyState t' text <> UNKNOWN ->
  identifyState t text = identifyState t' text.
Proof.
  unfold identifyState. intros -> -> Hknown.
  destruct (String.eqb text ""); [done|].
  destruct (specialCase _ _); [done|].
  by destruct (scanPatterns _ STATE_PATTERNS).
Qed.

Lemma builtin_rules_first_witness :
  identifyState (addStatePattern newTracker MAIN_MENU "weekly hours")
    "Press 1 for our weekly hours"
  = PHARMACY_HOURS.
Proof.
  apply (builtin_rules_first
           (addStatePattern newTracker MAIN_MENU "weekly hours") newTracker
           "Press 1 for our weekly hours"); [reflexivity | reflexivity |].
  vm_compute. discriminate.
Defined.

(** X6: registering and classifying: once a pattern is registered for a state,
    a text that contains it, and that nothing classified before, is classified
    as that state. *)
Theorem registered_pattern_classifies t state pattern text :
  text <> "" ->
  registered (discoveredPatterns t) UNKNOWN = None ->
  identifyState t text = UNKNOWN ->
  TrackerSpec.containsPattern text pattern ->
  identifyState (addStatePattern t state pattern) text = state.
Proof.
  intros Htext Hkey Hunknown Hin. unfold identifyState in *.
  destruct (String.eqb_spec text ""); [done|].
  replace (previousState (addStatePattern t state pattern))
    with (previousState t)
    by (unfold addStatePattern; by case_bool_decide).
  destruct (specialCase _ _) as [s|] eqn:Hspecial.
  { subst s. by apply specialCase_known in Hspecial. }
  destruct (scanPatterns _ STATE_PATTERNS) as [s|] eqn:Hstatic.
  { subst s. apply scanPatterns_key in Hstatic.
    apply list_elem_of_In in Hstatic. simpl in Hstatic.
    intuition discriminate. }
  destruct (scanPatterns _ (discoveredPatterns t)) as [s|] eqn:Hscan.
  { subst s. apply scanPatterns_key in Hscan.
    by apply TrackerSpec.registered_None in Hkey. }
  assert (forall patterns,
            registered (discoveredPatterns t) state = Some patterns ->
            pattern ∉ patterns) as Hfresh.
  { intros patterns Hreg Hp.
    pose proof (scanPatterns_none_fresh _ _ _ _ _ Hscan Hreg Hp) as Hout.
    unfold TrackerSpec.containsPattern in Hin. congruence. }
  unfold addStatePattern.
  destruct (registered (discoveredPatterns t) state) as [patterns|] eqn:Hreg.
  - rewrite Hreg. simpl.
    rewrite bool_decide_eq_false_2 by (by apply Hfresh). simpl.
    by rewrite (scanPatterns_push _ _ _ _ patterns).
  - rewrite (TrackerSpec.registered_new _ _ Hreg), decide_True by done.
    simpl.
    rewrite (scanPatterns_push _ _ _ _ []); [done | | | done].
    + by rewrite scanPatterns_snoc_empty.
    + by rewrite (TrackerSpec.registered_new _ _ Hreg), decide_True.
Qed.

Lemma registered_pattern_classifies_witness :
  identifyState newTracker "Your order has shipped" = UNKNOWN
  /\ identifyState (addStatePattern newTracker HOME_DELIVERY "has shipped")
       "Your order has shipped"
     = HOME_DELIVERY.
Proof.
  split; [reflexivity|].
  apply (registered_pattern_classifies newTracker HOME_DELIVERY "has shipped"
           "Your order has shipped");
    [discriminate | reflexivity | reflexivity | reflexivity].
Defined.

(** *** [getInput] *)

Lemma ownProperty_member object key value :
  ownProperty object key = Some value -> (key, value) ∈ object.
Proof.
  induction object as [|[k v] object IH]; simpl; [done|].
  destruct (String.eqb_spec k key) as [-> |].
  - intros [= ->]. by left.
  - intros Hrest. right. by apply IH.
Qed.

(** X7: [getInput] treats an empty token as a missing one: for an action that
    is not the name of an inherited member, the answer is a token of the
    current state that is not empty, found under the action or under
    [default], or else the default input given by the caller. For the name of
    an inherited member the answer is that member, not a string. *)
Theorem getInput_falls_back t action defaultInput :
  (action ∉ objectPrototypeKeys ->
   exists token,
     getInput t action defaultInput = Token token
     /\ (token = defaultInput
         \/ (token <> ""
             /\ ((action, token) ∈ STATE_INPUTS (currentState t)
                 \/ ("default", token) ∈ STATE_INPUTS (currentState t)))))
  /\ (action ∈ objectPrototypeKeys ->
      getInput t action defaultInput = Member action).
Proof.
  split.
  - intros Hplain. unfold getInput, property.
    rewrite (bool_decide_eq_false_2 _ Hplain).
    assert (exists token,
              match ownProperty (STATE_INPUTS (currentState t)) "default" with
              | Some value =>
                  if String.eqb value "" then defaultInput else value
              | None => defaultInput
              end = token
              /\ (token = defaultInput
                  \/ (token <> ""
                      /\ ("default", token)
                           ∈ STATE_INPUTS (currentState t))))
      as (fallback & -> & Hfallback).
    { destruct (ownProperty _ "default") as [value|] eqn:Hdefault;
        [|by exists defaultInput; split; [|left]].
      destruct (String.eqb_spec value "") as [|Hne];
        [by exists defaultInput; split; [|left]|].
      exists value. split; [done|]. right. split; [done|].
      by apply ownProperty_member. }
    destruct (ownProperty _ action) as [value|] eqn:Hown.
    + destruct (String.eqb_spec value "") as [|Hne].
      * exists fallback. split; [done|]. tauto.
      * exists value. split; [done|]. right. split; [done|]. left.
        by apply ownProperty_member.
    + exists fallback. split; [done|]. tauto.
  - intros Hmember. apply list_elem_of_In in Hmember. simpl in Hmember.
    unfold getInput.
    repeat (destruct Hmember as [<- | Hmember];
            [by destruct (currentState t)|]).
    done.
Qed.

Lemma getInput_falls_back_witness :
  getInput (snd (updateState newTracker "Thank you for calling"))
    "continue" "0"
  = Token "0"
  /\ getInput Scripted.pharmacyHours "back" "0" = Token "2"
  /\ getInput Scripted.pharmacyHours "toString" "0" = Member "toString".
Proof.
  split; [reflexivity|]. split; [reflexivity|].
  destruct (getInput_falls_back Scripted.pharmacyHours "toString" "0")
    as [_ Hmember].
  apply Hmember. apply list_elem_of_In. simpl. tauto.
Defined.

End TrackerInvariants.

(** ** Properties of the request legs of [lib/ivr_flow_tester.js] *)

Module FlowTesterSpec.
Import Effects Session FlowTester.
Import DriverSpec.

(** The three requests that bring a reply of the IVR. *)
Inductive Leg : Set :=
| Start (testName : string)
| Dtmf (digits : string)
| Continue.

Definition legEvent (leg : Leg) : Event :=
  match leg with
  | Start _ => EvStartCall
  | Dtmf digits => EvSendDtmf digits
  | Continue => EvContinueCall
  end.

Section WithRemote.
Context {Env : Type} `{Remote Env}.

Definition runLeg (leg : Leg) : M (World Env) Parsed :=
  match leg with
  | Start testName => startCall testName
  | Dtmf digits => sendDtmf digits
  | Continue => continueCall
  end.

(** The tester after the first statement of [startCall]. *)
Definition dialled (t : IvrFlowTester) (callSid : string) : IvrFlowTester :=
  {| sid := Some callSid; lastResponse := lastResponse t;
     callActive := callActive t; stateTracker := stateTracker t |}.

(** The tester after the last statements of [startCall]. *)
Definition answered (t : IvrFlowTester) (callSid : string) (parsed : Parsed)
    : IvrFlowTester :=
  {| sid := Some callSid; lastResponse := parsed; callActive := true;
     stateTracker :=
       snd (Tracker.updateState (stateTracker t)
              (extractTextFromResponse parsed)) |}.

(** The tester after [endCall]. *)
Definition hungUp (t : IvrFlowTester) : IvrFlowTester :=
  {| sid := sid t; lastResponse := lastResponse t; callActive := false;
     stateTracker := stateTracker t |}.

Lemma startCall_run testName w :
  startCall testName w
  = let callSid := testName +:+ "_" +:+ fst (uuid8 (remote w)) in
    match postVoice callSid None (snd (uuid8 (remote w))) with
    | (inl message, env) =>
        (Throw message,
         mkWorld env (dialled (tester w) callSid) (integration w)
                 (events w ++ [EvStartCall]))
    | (inr parsed, env) =>
        (Return parsed,
         mkWorld env (answered (tester w) callSid parsed) (integration w)
                 (events w ++ [EvStartCall]))
    end.
Proof.
  unfold startCall. rewrite bind_run. simpl.
  destruct (uuid8 (remote w)) as [uuid env0].
  cbv [mbind M_bind mret M_ret setTester received modify request get
       remote tester integration events fst snd].
  by destruct (postVoice _ _ _) as [[message | parsed] env].
Qed.

Lemma endCall_run w callSid :
  sid (tester w) = Some callSid ->
  endCall w
  = match postVoiceStatus callSid (remote w) with
    | (inl message, env) => (Throw message, afterFailure w EvEndCall env)
    | (inr parsed, env) =>
        (Return parsed,
         mkWorld env (hungUp (tester w)) (integration w)
                 (events w ++ [EvEndCall]))
    end.
Proof.
  intros Hsid. unfold endCall. rewrite bind_run. simpl. rewrite Hsid.
  rewrite bind_run. unfold request.
  by destruct (postVoiceStatus _ _) as [[message | parsed] env].
Qed.

Lemma refused w :
  callActive (tester w) = false \/ sid (tester w) = None ->
  (forall digits, sendDtmf digits w = (Throw "No active call", w))
  /\ continueCall w = (Throw "No active call", w).
Proof.
  intros Hidle. unfold sendDtmf, continueCall.
  split; [intros digits|]; rewrite bind_run; simpl;
    destruct (callActive (tester w)), (sid (tester w));
    try done; by destruct Hidle.
Qed.

(** The outcome of a leg, in the three cases of its code. *)
Lemma runLeg_cases leg w :
  (exists testName, leg = Start testName
                    /\ runLeg leg w = startCall testName w)
  \/ ((callActive (tester w) = false \/ sid (tester w) = None)
      /\ runLeg leg w = (Throw "No active call", w))
  \/ (exists callSid input,
        callActive (tester w) = true /\ sid (tester w) = Some callSid
        /\ runLeg leg w
           = legOutcome w (legEvent leg) (postVoice callSid input (remote w))).
Proof.
  destruct leg as [testName | digits |]; [left; by exists testName | |];
    right; simpl.
  - destruct (callActive (tester w)) eqn:Hactive;
      [destruct (sid (tester w)) as [callSid|] eqn:Hsid|].
    + right. exists callSid, (Some digits).
      by rewrite (sendDtmf_reply w callSid).
    + left. split; [by right|]. by apply refused; right.
    + left. split; [by left|]. by apply refused; left.
  - destruct (callActive (tester w)) eqn:Hactive;
      [destruct (sid (tester w)) as [callSid|] eqn:Hsid|].
    + right. exists callSid, None.
      by rewrite (continueCall_reply w callSid).
    + left. split; [by right|]. by apply refused; right.
    + left. split; [by left|]. by apply refused; left.
Qed.

(** X8: a leg that is answered: the reply is kept, the tracker is in the state
    that it identifies in the text of the reply, the call is active, and one
    request has gone out. *)
Theorem leg_updates_tracker leg w parsed w' :
  runLeg leg w = (Return parsed, w') ->
  lastResponse (tester w') = parsed
  /\ Tracker.currentState (stateTracker (tester w'))
     = Tracker.identifyState (stateTracker (tester w))
         (extractTextFromResponse parsed)
  /\ stateTracker (tester w')
     = snd (Tracker.updateState (stateTracker (tester w))
              (extractTextFromResponse parsed))
  /\ callActive (tester w') = true
  /\ integration w' = integration w
  /\ events w' = events w ++ [legEvent leg].
Proof.
  intros Hrun.
  assert (stateTracker (tester w')
          = snd (Tracker.updateState (stateTracker (tester w))
                   (extractTextFromResponse parsed))
          /\ lastResponse (tester w') = parsed
          /\ callActive (tester w') = true
          /\ integration w' = integration w
          /\ events w' = events w ++ [legEvent leg])
    as (Htracker & Hlast & Hactive & Hint & Hevents).
  { destruct (runLeg_cases leg w)
      as [(testName & -> & Hleg)
         | [[_ Hleg] | (callSid & input & Hactive & Hsid & Hleg)]];
      rewrite Hleg in Hrun; [| done |].
    - rewrite startCall_run in Hrun. simpl in Hrun.
      destruct (postVoice _ _ _) as [[message | reply] env]; [done|].
      by injection Hrun as <- <-.
    - unfold legOutcome in Hrun.
      destruct (postVoice _ _ _) as [[message | reply] env]; [done|].
      by injection Hrun as <- <-. }
  repeat split; try done.
  rewrite Htracker.
  apply (TrackerInvariants.updateState_follows (stateTracker (tester w))).
Qed.

(** X9: a leg that fails leaves what the tester has heard, and the
    integration, as they were: the reply kept, the tracker and the flag of the
    call. A leg that is refused sends no request at all. *)
Theorem failed_leg_keeps_state leg w message w' :
  runLeg leg w = (Throw message, w') ->
  lastResponse (tester w') = lastResponse (tester w)
  /\ stateTracker (tester w') = stateTracker (tester w)
  /\ callActive (tester w') = callActive (tester w)
  /\ integration w' = integration w
  /\ (events w' = events w ++ [legEvent leg]
      \/ (callActive (tester w) = false \/ sid (tester w) = None)
         /\ message = "No active call" /\ w' = w).
Proof.
  intros Hrun.
  destruct (runLeg_cases leg w)
    as [(testName & -> & Hleg)
       | [[Hidle Hleg] | (callSid & input & Hactive & Hsid & Hleg)]];
    rewrite Hleg in Hrun.
  - rewrite startCall_run in Hrun. simpl in Hrun.
    destruct (postVoice _ _ _) as [[failure | reply] env]; [|done].
    injection Hrun as <- <-. simpl. repeat split; by left.
  - injection Hrun as <- <-. repeat split. by right.
  - unfold legOutcome in Hrun.
    destruct (postVoice _ _ _) as [[failure | reply] env]; [|done].
    injection Hrun as <- <-. simpl. repeat split; by left.
Qed.

(** X10: the life of a call: digits and calls without input are refused before
    [startCall] and after [endCall]; between the two they go to the endpoint
    under the SID that [startCall] made of the name of the test and eight
    characters of a UUID. *)
Theorem call_lifecycle w :
  (forall testName parsed w1,
     startCall testName w = (Return parsed, w1) ->
     let callSid := testName +:+ "_" +:+ fst (uuid8 (remote w)) in
     (forall digits,
        sendDtmf digits w1
        = legOutcome w1 (EvSendDtmf digits)
            (postVoice callSid (Some digits) (remote w1)))
     /\ continueCall w1
        = legOutcome w1 EvContinueCall (postVoice callSid None (remote w1)))
  /\ (forall parsed w1,
        endCall w = (Return parsed, w1) ->
        (forall digits, sendDtmf digits w1 = (Throw "No active call", w1))
        /\ continueCall w1 = (Throw "No active call", w1)
        /\ sid (tester w1) = sid (tester w))
  /\ (sid (tester w) = None -> endCall w = (Throw "No SID", w)).
Proof.
  split; [|split].
  - intros testName parsed w1 Hrun. rewrite startCall_run in Hrun.
    simpl in Hrun.
    destruct (postVoice _ _ _) as [[message | reply] env]; [done|].
    injection Hrun as <- <-. simpl.
    split; [intros digits; by apply sendDtmf_reply|].
    by apply continueCall_reply.
  - intros parsed w1 Hrun.
    destruct (sid (tester w)) as [callSid|] eqn:Hsid.
    + rewrite (endCall_run w callSid Hsid) in Hrun.
      destruct (postVoiceStatus _ _) as [[message | reply] env]; [done|].
      injection Hrun as <- <-.
      destruct (refused
                  (mkWorld env (hungUp (tester w)) (integration w)
                           (events w ++ [EvEndCall])))
        as [Hdtmf Hcontinue]; [by left|].
      by repeat split.
    + unfold endCall in Hrun. rewrite bind_run in Hrun. simpl in Hrun.
      by rewrite Hsid in Hrun.
  - intros Hsid. unfold endCall. rewrite bind_run. simpl. by rewrite Hsid.
Qed.

End WithRemote.

Import Scripted.

Lemma leg_updates_tracker_witness :
  Tracker.currentState
    (stateTracker
       (tester (snd (sendDtmf "1"
                       (inCall (mkScript
                                  [says "Please enter the prescription number"]
                                  []))))))
  = Tracker.ENTER_RX_NUMBER.
Proof.
  destruct (@leg_updates_tracker Script scripted (Dtmf "1")
              (inCall (mkScript [says "Please enter the prescription number"]
                                []))
              (Some {| Say :=
                         SaySingle
                           (SayText "Please enter the prescription number");
                       GatherSay := SayAbsent |})
              (snd (sendDtmf "1"
                      (inCall (mkScript
                                 [says "Please enter the prescription number"]
                                 [])))))
    as (_ & Hstate & _); [vm_compute; reflexivity|].
  exact Hstate.
Defined.

Lemma failed_leg_keeps_state_witness :
  stateTracker (tester (snd (continueCall (inCall (mkScript [] [])))))
  = Tracker.newTracker
  /\ callActive (tester (snd (continueCall (inCall (mkScript [] [])))))
     = true.
Proof.
  destruct (@failed_leg_keeps_state Script scripted Continue
              (inCall (mkScript [] [])) "socket hang up"
              (snd (continueCall (inCall (mkScript [] [])))))
    as (_ & Htracker & Hactive & _); [vm_compute; reflexivity|].
  split; [exact Htracker | exact Hactive].
Defined.

Lemma call_lifecycle_witness :
  sendDtmf "1" (snd (startCall "T" (newWorld (mkScript [says "Welcome"] []))))
  = legOutcome (snd (startCall "T" (newWorld (mkScript [says "Welcome"] []))))
      (EvSendDtmf "1") (inl "socket hang up", mkScript [] [])
  /\ sendDtmf "1" (snd (endCall talkative))
     = (Throw "No active call", snd (endCall talkative))
  /\ endCall (newWorld (mkScript [] []))
     = (Throw "No SID", newWorld (mkScript [] [])).
Proof.
  split; [|split].
  - destruct (@call_lifecycle Script scripted
                (newWorld (mkScript [says "Welcome"] [])))
      as (Hstarted & _ & _).
    destruct (Hstarted "T"
                (Some {| Say := SaySingle (SayText "Welcome");
                         GatherSay := SayAbsent |})
                (snd (startCall "T" (newWorld (mkScript [says "Welcome"] [])))))
      as [Hdtmf _]; [vm_compute; reflexivity|].
    exact (Hdtmf "1").
  - destruct (@call_lifecycle Script scripted talkative)
      as (_ & Hended & _).
    destruct (Hended None (snd (endCall talkative))) as [Hdtmf _];
      [vm_compute; reflexivity|].
    exact (Hdtmf "1").
  - destruct (@call_lifecycle Script scripted (newWorld (mkScript [] [])))
      as (_ & _ & Hnone).
    exact (Hnone eq_refl).
Defined.

End FlowTesterSpec.

(** ** Properties of whole runs of the driver *)

Module IntegrationSpec.
Import Effects Session FlowTester Integration.
Import DriverSpec.

Section Running.
Context {S : Type}.

Lemma bind_Throw_inv {A B} (m : M S A) (k : A -> M S B) s message s' :
  (m ≫= k) s = (Throw message, s') ->
  m s = (Throw message, s')
  \/ exists a s1, m s = (Return a, s1) /\ k a s1 = (Throw message, s').
Proof.
  rewrite bind_run. destruct (m s) as [[a | failure |] s1]; [eauto | | done].
  intros [= -> ->]. by left.
Qed.

End Running.

Section WithRemote.
Context {Env : Type} `{Remote Env}.

Lemma steady_closeSession : steady closeSession.
Proof.
  unfold closeSession. apply steady_bind; [apply steady_endSession|].
  intros _. apply steady_bind; [apply steady_get|].
  intros; apply steady_ret.
Qed.

Lemma steady_cleanUp message : steady (cleanUp message).
Proof.
  unfold cleanUp. apply steady_bind.
  { apply steady_tryCatch; [|intros; apply steady_ret].
    apply steady_bind; [apply steady_get|]. intros w.
    destruct (callActive (tester w)); [|apply steady_ret].
    apply steady_bind; [apply steady_endCall|]. intros; apply steady_ret. }
  intros _. apply steady_bind.
  { apply steady_tryCatch; [apply steady_endSession|].
    intros; apply steady_ret. }
  intros _. apply steady_bind; [apply steady_get|].
  intros; apply steady_ret.
Qed.

(** What a loop that ends by an error has done: the step in which the
    error came has no entry, unless the error came from ending the call at
    the step bound. *)
Lemma navigationLoop_Throw fuel : forall currentPrompt w message w',
  navigationLoop fuel currentPrompt w = (Throw message, w') ->
  exists entries,
    history (integration w') = history (integration w) ++ entries
    /\ map step entries
       = seq (S (currentStep (integration w))) (length entries)
    /\ (currentStep (integration w')
        = S (currentStep (integration w) + length entries)
        \/ (currentStep (integration w')
            = (currentStep (integration w) + length entries)%nat
            /\ (1 <= length entries)%nat
            /\ (maxSteps <= currentStep (integration w'))%nat))
    /\ ((currentStep (integration w) < maxSteps)%nat ->
          (currentStep (integration w') <= maxSteps)%nat).
Proof.
  induction fuel as [|fuel IH]; intros currentPrompt w message w' Hrun;
    [discriminate|].
  rewrite navigationLoop_unfold in Hrun.
  apply bind_Throw_inv in Hrun as [Hrun | ([] & w1 & [= <-] & Hrun)];
    [discriminate|].
  assert (forall A wa (m : M (World Env) A) (o : Outcome A) wb,
            steady m -> m wa = (o, wb) ->
            history (integration wa) = history (integration w) ->
            currentStep (integration wa) = S (currentStep (integration w)) ->
            exists entries,
              history (integration wb) = history (integration w) ++ entries
              /\ map step entries
                 = seq (S (currentStep (integration w))) (length entries)
              /\ (currentStep (integration wb)
                  = S (currentStep (integration w) + length entries)
                  \/ (currentStep (integration wb)
                      = (currentStep (integration w) + length entries)%nat
                      /\ (1 <= length entries)%nat
                      /\ (maxSteps <= currentStep (integration wb))%nat))
              /\ ((currentStep (integration w) < maxSteps)%nat ->
                    (currentStep (integration wb) <= maxSteps)%nat))
    as Hearly.
  { intros A wa m o wb Hm E Hh Hs.
    apply (steady_history _ _ _ _ Hm) in E as [Hhb Hsb].
    exists []. rewrite app_nil_r. simpl.
    repeat split; [congruence | left; lia | lia]. }
  apply bind_Throw_inv in Hrun as [Hrun | (action & w2 & Hask & Hrun)].
  { by apply (Hearly _ _ _ _ _ (steady_askAmazonQ _) Hrun). }
  apply (steady_history _ _ _ _ (steady_askAmazonQ _)) in Hask
    as [Hh2 Hs2]. simpl in Hh2, Hs2.
  apply bind_Throw_inv in Hrun as [Hrun | (? & ? & [= <- <-] & Hrun)];
    [discriminate|].
  destruct (String.eqb (Js.toLowerCase action) "hang up").
  - apply bind_Throw_inv in Hrun as [Hrun | (? & w3 & Hend & Hrun)].
    { by apply (Hearly _ _ _ _ _ steady_endCall Hrun). }
    apply bind_Throw_inv in Hrun as [Hrun | ([] & ? & [= <-] & Hrun)];
      discriminate.
  - apply bind_Throw_inv in Hrun as [Hrun | (response & w3 & Hsend & Hrun)].
    { by apply (Hearly _ _ _ _ _ (steady_dispatch _) Hrun). }
    apply (steady_history _ _ _ _ (steady_dispatch _)) in Hsend
      as [Hh3 Hs3].
    apply bind_Throw_inv in Hrun as [Hrun | ([] & ? & [= <-] & Hrun)];
      [discriminate|].
    apply bind_Throw_inv in Hrun
      as [Hrun | (newPrompt & w5 & Hcheck & Hrun)].
    { apply (Hearly _ _ _ _ _ (steady_recheckBlank _ _) Hrun); simpl;
        congruence. }
    apply (steady_history _ _ _ _ (steady_recheckBlank _ _)) in Hcheck
      as [Hh5 Hs5]. simpl in Hh5, Hs5.
    apply bind_Throw_inv in Hrun as [Hrun | ([] & ? & [= <-] & Hrun)];
      [discriminate|].
    apply bind_Throw_inv in Hrun as [Hrun | (? & ? & [= <- <-] & Hrun)];
      [discriminate|].
    cbv beta in Hrun.
    match type of Hrun with
    | context [Nat.leb maxSteps ?n] =>
        destruct (Nat.leb_spec maxSteps n) as [Hmax | Hless]
    end; simpl in Hmax || simpl in Hless.
    + apply bind_Throw_inv in Hrun as [Hrun | (? & w7 & Hend & Hrun)];
        [|discriminate].
      apply (steady_history _ _ _ _ steady_endCall) in Hrun as [Hh7 Hs7].
      simpl in Hh7, Hs7.
      eexists [_]. simpl.
      rewrite Hh7, Hs7, Hh5, Hs5, Hh3, Hs3, Hh2, Hs2.
      rewrite Hs5, Hs3, Hs2 in Hmax.
      split; [done|]. split; [done|]. split; [right; lia | lia].
    + apply IH in Hrun as (entries & Hh & Hsteps & Hs & Hle).
      simpl in Hh, Hsteps, Hs, Hle.
      rewrite Hs5, Hs3, Hs2 in Hsteps, Hs, Hle, Hless.
      eexists (_ :: entries).
      split; [by rewrite Hh, Hh5, Hh3, Hh2, <- app_assoc|].
      split; [simpl; by rewrite Hs2, Hsteps|].
      split; [simpl; lia | intros _; apply Hle, Hless].
Qed.

(** A loop that ends by one of its [break]s has made a step. *)
Lemma navigationLoop_Return_steps fuel : forall currentPrompt w e w',
  navigationLoop fuel currentPrompt w = (Return e, w') ->
  (S (currentStep (integration w)) <= currentStep (integration w'))%nat.
Proof.
  induction fuel as [|fuel IH]; intros currentPrompt w e w' Hrun;
    [discriminate|].
  rewrite navigationLoop_unfold in Hrun.
  apply bind_Return_inv in Hrun as ([] & w1 & [= <-] & Hrun).
  apply bind_Return_inv in Hrun as (action & w2 & Hask & Hrun).
  apply (steady_history _ _ _ _ (steady_askAmazonQ _)) in Hask
    as [_ Hs2]. simpl in Hs2.
  apply bind_Return_inv in Hrun as (? & ? & [= <- <-] & Hrun).
  destruct (String.eqb (Js.toLowerCase action) "hang up").
  - apply bind_Return_inv in Hrun as (? & w3 & Hend & Hrun).
    apply (steady_history _ _ _ _ steady_endCall) in Hend as [_ Hs3].
    apply bind_Return_inv in Hrun as ([] & ? & [= <-] & [= _ <-]).
    simpl. lia.
  - apply bind_Return_inv in Hrun as (response & w3 & Hsend & Hrun).
    apply (steady_history _ _ _ _ (steady_dispatch _)) in Hsend
      as [_ Hs3].
    apply bind_Return_inv in Hrun as ([] & ? & [= <-] & Hrun).
    apply bind_Return_inv in Hrun as (newPrompt & w5 & Hcheck & Hrun).
    apply (steady_history _ _ _ _ (steady_recheckBlank _ _)) in Hcheck
      as [_ Hs5]. simpl in Hs5.
    apply bind_Return_inv in Hrun as ([] & ? & [= <-] & Hrun).
    apply bind_Return_inv in Hrun as (? & ? & [= <- <-] & Hrun).
    cbv beta in Hrun.
    match type of Hrun with
    | context [Nat.leb maxSteps ?n] =>
        destruct (Nat.leb_spec maxSteps n) as [Hmax | Hless]
    end.
    + apply bind_Return_inv in Hrun as (? & w7 & Hend & [= _ <-]).
      apply (steady_history _ _ _ _ steady_endCall) in Hend as [_ Hs7].
      simpl in Hs7. lia.
    + apply IH in Hrun. simpl in Hrun. lia.
Qed.

Lemma openCall_Throw testName w message w1 :
  openCall testName w = (Throw message, w1) -> progress w1 = progress w.
Proof.
  unfold openCall. intros Hrun.
  apply bind_Throw_inv in Hrun as [Hrun | (? & wa & Hsession & Hrun)].
  { by destruct (steady_run _ _ _ _ steady_startSession Hrun). }
  destruct (steady_run _ _ _ _ steady_startSession Hsession) as [_ Hpa].
  apply bind_Throw_inv in Hrun as [Hrun | (initial & wb & Hcall & Hrun)].
  { destruct (steady_run _ _ _ _ (steady_startCall _) Hrun). congruence. }
  apply bind_Throw_inv in Hrun as [Hrun | ([] & ? & [= <-] & Hrun)];
    [discriminate|].
  apply bind_Throw_inv in Hrun as [Hrun | ([] & ? & [= <-] & Hrun)];
    discriminate.
Qed.

(** The books of a run, for the theorem below and for the runner. *)
Lemma run_books fuel testName w :
  (maxSteps <= fuel)%nat ->
  exists result w' entries,
    runAutomatedNavigation fuel testName w = (Return result, w')
    /\ steps result = currentStep (integration w')
    /\ resultHistory result = history (integration w')
    /\ resultHistory result = history (integration w) ++ entries
    /\ map step entries = seq 1 (length entries)
    /\ (length entries <= maxSteps)%nat
    /\ if success result
       then error result = None
            /\ steps result = length entries
            /\ (1 <= steps result)%nat
       else is_Some (error result)
            /\ ((entries = []
                 /\ steps result = currentStep (integration w))
                \/ steps result = S (length entries)
                \/ (steps result = length entries
                    /\ length entries = maxSteps)).
Proof.
  intros Hfuel. unfold runAutomatedNavigation, tryCatch. rewrite bind_run.
  pose proof (openCall_terminates testName w) as Hopened.
  destruct (openCall testName w) as [[currentPrompt | message |] w1]
    eqn:Hopen; [| | done].
  - destruct (openCall_Return _ _ _ _ Hopen) as [Hh1 Hs1].
    rewrite bind_run.
    pose proof (navigationLoop_terminates fuel currentPrompt w1) as Hlooped.
    destruct (navigationLoop fuel currentPrompt w1)
      as [[e | message |] w2] eqn:Hloop.
    + destruct (navigationLoop_Return _ _ _ _ _ Hloop)
        as (_ & entries & Hh2 & Hsteps & Hs2 & _ & Hle).
      apply navigationLoop_Return_steps in Hloop.
      rewrite Hs1 in Hsteps, Hs2, Hle, Hloop.
      destruct (closeSession_returns w2) as (w3 & -> & Hp).
      unfold progress in Hp. injection Hp as Hh3 Hs3.
      exists {| success := true; error := None;
                steps := currentStep (integration w2);
                resultHistory := history (integration w2) |}, w3, entries.
      simpl. rewrite Hh3, Hs3, Hh2, Hh1, Hs2, Hsteps.
      repeat split; try done; unfold maxSteps in *; lia.
    + destruct (navigationLoop_Throw _ _ _ _ _ Hloop)
        as (entries & Hh2 & Hsteps & Hs2 & Hle).
      rewrite Hs1 in Hsteps, Hs2, Hle.
      destruct (cleanUp_returns message w2) as (w3 & Hclean).
      destruct (steady_history _ _ _ _ (steady_cleanUp message) Hclean)
        as [Hh3 Hs3].
      rewrite Hclean.
      exists {| success := false; error := Some message;
                steps := currentStep (integration w2);
                resultHistory := history (integration w2) |}, w3, entries.
      simpl. rewrite Hh3, Hs3, Hh2, Hh1, Hsteps.
      repeat match goal with |- _ /\ _ => split end;
        try done; unfold maxSteps in *; lia.
    + exfalso. apply Hlooped; [| |done]; unfold maxSteps in *; lia.
  - pose proof (openCall_Throw _ _ _ _ Hopen) as Hp1.
    unfold progress in Hp1. injection Hp1 as Hh1 Hs1.
    destruct (cleanUp_returns message w1) as (w3 & Hclean).
    destruct (steady_history _ _ _ _ (steady_cleanUp message) Hclean)
      as [Hh3 Hs3].
    rewrite Hclean.
    exists {| success := false; error := Some message;
              steps := currentStep (integration w1);
              resultHistory := history (integration w1) |}, w3, [].
    simpl. rewrite Hh3, Hs3, Hh1, Hs1, app_nil_r.
    repeat match goal with |- _ /\ _ => split end;
      try done; [lia | by left].
Qed.

(** X11: the books of a run. A run with [maxSteps] units of fuel returns a
    result whose [history] and [steps] are those of the integration. The
    history is the one from before the run (it is never emptied) followed by
    the entries of this run, numbered from 1. A run that succeeds has as many
    steps as entries, between 1 and [maxSteps]; a run that fails before the
    loop reports the steps of the run before; a run that fails in the loop
    counts the step that failed, which has no entry, unless ending the call at
    the step bound failed. *)
Theorem run_accounting fuel testName w :
  (maxSteps <= fuel)%nat ->
  exists result w' entries,
    runAutomatedNavigation fuel testName w = (Return result, w')
    /\ steps result = currentStep (integration w')
    /\ resultHistory result = history (integration w')
    /\ resultHistory result = history (integration w) ++ entries
    /\ map step entries = seq 1 (length entries)
    /\ (length entries <= maxSteps)%nat
    /\ if success result
       then error result = None
            /\ steps result = length entries
            /\ (1 <= steps result)%nat
       else is_Some (error result)
            /\ ((entries = []
                 /\ steps result = currentStep (integration w))
                \/ steps result = S (length entries)
                \/ (steps result = length entries
                    /\ length entries = maxSteps)).
Proof.
  intros Hfuel.
  destruct (run_books fuel testName w Hfuel)
    as (result & w' & entries & Hbooks).
  by exists result, w', entries.
Qed.

(** *** What a run keeps of the tester *)

(** A property of the tester that a computation keeps, however it ends. *)
Definition keeps (I : IvrFlowTester -> Prop) {A} (m : M (World Env) A)
    : Prop :=
  forall w, I (tester w) -> I (tester (snd (m w))).

Lemma keeps_still I {A} (m : M (World Env) A) :
  (forall w, tester (snd (m w)) = tester w) -> keeps I m.
Proof. intros Hstill w Hw. by rewrite Hstill. Qed.

Lemma keeps_bind I {A B} (m : M (World Env) A) (k : A -> M (World Env) B) :
  keeps I m -> (forall a, keeps I (k a)) -> keeps I (m ≫= k).
Proof.
  intros Hm Hk w Hw. rewrite bind_run. specialize (Hm w Hw).
  destruct (m w) as [[a | message |] w1]; [by apply Hk | done..].
Qed.

Lemma keeps_tryCatch I {A} (m : M (World Env) A) handler :
  keeps I m -> (forall message, keeps I (handler message)) ->
  keeps I (tryCatch m handler).
Proof.
  intros Hm Hh w Hw. unfold tryCatch. specialize (Hm w Hw).
  destruct (m w) as [[a | message |] w1]; [done | by apply Hh | done].
Qed.

Lemma keeps_request I {A} event (call : Env -> (string + A) * Env) :
  keeps I (request event call).
Proof.
  apply keeps_still. intros w. unfold request.
  by destruct (call (remote w)) as [[message | a] env].
Qed.

Lemma keeps_setTester (I : IvrFlowTester -> Prop) f :
  (forall t, I t -> I (f t)) -> keeps I (setTester f).
Proof. intros Hf w Hw. by apply Hf. Qed.

(** The tester of a session that is in order: its tracker has only been
    updated and given patterns, and a call that is active has a SID. *)
Definition sound (t : IvrFlowTester) : Prop :=
  TrackerInvariants.Running (stateTracker t)
  /\ (callActive t = true -> is_Some (sid t)).

Lemma sound_received parsed : keeps sound (received parsed).
Proof.
  apply keeps_setTester. intros t [Hrun Hsid].
  split; [by constructor | done].
Qed.

Ltac keeps_steps :=
  repeat first
    [ apply keeps_bind; [|intros ?]
    | apply keeps_request
    | apply sound_received
    | by apply keeps_still ].

Lemma sound_sendDtmf digits : keeps sound (sendDtmf digits).
Proof.
  unfold sendDtmf. apply keeps_bind; [by apply keeps_still|]. intros w.
  destruct (callActive (tester w)), (sid (tester w)); keeps_steps.
Qed.

Lemma sound_continueCall : keeps sound continueCall.
Proof.
  unfold continueCall. apply keeps_bind; [by apply keeps_still|]. intros w.
  destruct (callActive (tester w)), (sid (tester w)); keeps_steps.
Qed.

Lemma sound_endCall : keeps sound endCall.
Proof.
  unfold endCall. apply keeps_bind; [by apply keeps_still|]. intros w.
  destruct (sid (tester w)); keeps_steps.
  apply keeps_setTester. by intros t [Hrun Hsid].
Qed.

Lemma sound_startCall testName : keeps sound (startCall testName).
Proof.
  intros w [Hrun Hsid]. rewrite FlowTesterSpec.startCall_run. simpl.
  destruct (postVoice _ _ _) as [[message | parsed] env]; simpl;
    (split; [by try constructor | by eexists]).
Qed.

Lemma sound_sendSplit digits : keeps sound (sendSplit digits).
Proof.
  unfold sendSplit.
  apply keeps_bind; [apply sound_sendDtmf|]. intros _.
  apply keeps_bind; [by apply keeps_still|]. intros _.
  apply keeps_bind; [apply sound_sendDtmf|]. intros response.
  destruct (Js.isBlank _); [|by apply keeps_still].
  apply keeps_bind; [by apply keeps_still|]. intros _.
  apply sound_continueCall.
Qed.

Lemma sound_dispatch action : keeps sound (dispatch action).
Proof.
  unfold dispatch. destruct (_ || _).
  - destruct (Js.isMultiDigit action);
      auto using sound_sendSplit, sound_sendDtmf.
  - destruct (Js.matchDigits action) as [digits|];
      [destruct (Nat.ltb 1 _)|];
      auto using sound_sendSplit, sound_sendDtmf.
Qed.

Lemma sound_recheckBlank action newPrompt :
  keeps sound (recheckBlank action newPrompt).
Proof.
  unfold recheckBlank. destruct (_ && _); [|by apply keeps_still].
  apply keeps_bind; [apply sound_continueCall|]. intros response.
  apply keeps_bind; [|intros ?]; by apply keeps_still.
Qed.

Lemma keeps_any {A} (m : M (World Env) A) w :
  (forall t, keeps (fun t' => t' = t) m) -> tester (snd (m w)) = tester w.
Proof. intros Hm. by apply (Hm (tester w) w). Qed.

Lemma still_startSession w :
  tester (snd (startSession w)) = tester w.
Proof.
  apply keeps_any. intros t. unfold startSession.
  apply keeps_bind; [apply keeps_request|]. intros id.
  apply keeps_bind; [|intros ?]; by apply keeps_still.
Qed.

Lemma still_endSession w : tester (snd (endSession w)) = tester w.
Proof.
  apply keeps_any. intros t. unfold endSession.
  apply keeps_bind; [by apply keeps_still|]. intros w0.
  destruct (noSession (integration w0)); [by apply keeps_still|].
  apply keeps_tryCatch; [|intros; by apply keeps_still].
  apply keeps_bind; [apply keeps_request|]. intros; by apply keeps_still.
Qed.

Lemma still_askAmazonQ ivrPrompt w :
  tester (snd (askAmazonQ ivrPrompt w)) = tester w.
Proof.
  apply keeps_any. intros t. unfold askAmazonQ.
  apply keeps_bind; [by apply keeps_still|]. intros w0.
  apply keeps_bind.
  { destruct (noSession (integration w0)); [|by apply keeps_still].
    apply keeps_bind; [apply keeps_still, still_startSession|].
    intros; by apply keeps_still. }
  intros _. apply keeps_bind; [by apply keeps_still|]. intros w1.
  apply keeps_bind; [apply keeps_request|]. intros; by apply keeps_still.
Qed.

Lemma sound_navigationLoop fuel : forall currentPrompt,
  keeps sound (navigationLoop fuel currentPrompt).
Proof.
  induction fuel as [|fuel IH]; intros currentPrompt;
    [by apply keeps_still|].
  rewrite navigationLoop_unfold.
  apply keeps_bind; [by apply keeps_still|]. intros _.
  apply keeps_bind; [apply keeps_still, still_askAmazonQ|]. intros action.
  apply keeps_bind; [by apply keeps_still|]. intros w.
  destruct (String.eqb (Js.toLowerCase action) "hang up").
  - apply keeps_bind; [apply sound_endCall|]. intros _.
    apply keeps_bind; [|intros ?]; by apply keeps_still.
  - apply keeps_bind; [apply sound_dispatch|]. intros response.
    apply keeps_bind; [by apply keeps_still|]. intros _.
    apply keeps_bind; [apply sound_recheckBlank|]. intros newPrompt.
    apply keeps_bind; [by apply keeps_still|]. intros _.
    apply keeps_bind; [by apply keeps_still|]. intros w'.
    destruct (Nat.leb maxSteps _); [|apply IH].
    apply keeps_bind; [apply sound_endCall|]. intros _.
    by apply keeps_still.
Qed.

Lemma sound_openCall testName : keeps sound (openCall testName).
Proof.
  unfold openCall.
  apply keeps_bind; [apply keeps_still, still_startSession|]. intros _.
  apply keeps_bind; [apply sound_startCall|]. intros initialResponse.
  apply keeps_bind; [by apply keeps_still|]. intros _.
  apply keeps_bind; [|intros ?]; by apply keeps_still.
Qed.

Lemma sound_cleanUp message : keeps sound (cleanUp message).
Proof.
  unfold cleanUp. apply keeps_bind.
  { apply keeps_tryCatch; [|intros; by apply keeps_still].
    apply keeps_bind; [by apply keeps_still|]. intros w.
    destruct (callActive (tester w)); [|by apply keeps_still].
    apply keeps_bind; [apply sound_endCall|]. intros; by apply keeps_still. }
  intros _. apply keeps_bind.
  { apply keeps_tryCatch; [apply keeps_still, still_endSession|].
    intros; by apply keeps_still. }
  intros _. apply keeps_bind; [|intros ?]; by apply keeps_still.
Qed.

Lemma sound_body fuel testName :
  keeps sound (currentPrompt ← openCall testName;
               navigationLoop fuel currentPrompt;;
               closeSession).
Proof.
  apply keeps_bind; [apply sound_openCall|]. intros currentPrompt.
  apply keeps_bind; [apply sound_navigationLoop|]. intros _.
  unfold closeSession.
  apply keeps_bind; [apply keeps_still, still_endSession|]. intros _.
  apply keeps_bind; [|intros ?]; by apply keeps_still.
Qed.

(** X12: through a run, and through each of its legs, the tester stays in
    order: its tracker is one that has only been updated, so that what holds
    of such trackers holds of the tracker of a run, and an active call has a
    SID, so that ending it is never refused. *)
Theorem run_keeps_tester_sound fuel testName action w :
  sound (tester w) ->
  sound (tester (snd (runAutomatedNavigation fuel testName w)))
  /\ sound (tester (snd (dispatch action w)))
  /\ sound (tester (snd (startCall testName w)))
  /\ sound (tester (snd (endCall w))).
Proof.
  intros Hw. split; [|split; [|split]].
  - revert w Hw. unfold runAutomatedNavigation.
    apply keeps_tryCatch; [apply sound_body | apply sound_cleanUp].
  - by apply sound_dispatch.
  - by apply sound_startCall.
  - by apply sound_endCall.
Qed.

(** *** The requests of a run *)

(** [grows n w w']: the session [w'] has the events of [w] followed by new
    ones, at most [n] of which are legs. *)
Definition grows (n : nat) (w w' : World Env) : Prop :=
  exists new, events w' = events w ++ new /\ (length (legs new) <= n)%nat.

Lemma legs_app trace1 trace2 :
  legs (trace1 ++ trace2) = legs trace1 ++ legs trace2.
Proof. apply List.filter_app. Qed.

Lemma grows_refl n w : grows n w w.
Proof. exists []. rewrite app_nil_r. split; [done | simpl; lia]. Qed.

Lemma grows_trans a b w w1 w2 :
  grows a w w1 -> grows b w1 w2 -> grows (a + b) w w2.
Proof.
  intros (new1 & E1 & Hn1) (new2 & E2 & Hn2). exists (new1 ++ new2).
  split; [by rewrite E2, E1, app_assoc|].
  rewrite legs_app, length_app. lia.
Qed.

Lemma grows_le a b w w' : (a <= b)%nat -> grows a w w' -> grows b w w'.
Proof. intros Hle (new & E & Hn). exists new. split; [done | lia]. Qed.

(** A computation that sends at most [n] legs, however it ends. *)
Definition sends (n : nat) {A} (m : M (World Env) A) : Prop :=
  forall w, grows n w (snd (m w)).

Lemma sends_quiet {A} (m : M (World Env) A) :
  (forall w, events (snd (m w)) = events w) -> sends 0 m.
Proof.
  intros Hquiet w. exists []. rewrite app_nil_r. split; [done | simpl; lia].
Qed.

Lemma sends_le a b {A} (m : M (World Env) A) :
  (a <= b)%nat -> sends a m -> sends b m.
Proof. intros Hle Hm w. by apply (grows_le a). Qed.

Lemma sends_bind a b {A B} (m : M (World Env) A)
    (k : A -> M (World Env) B) :
  sends a m -> (forall x, sends b (k x)) -> sends (a + b) (m ≫= k).
Proof.
  intros Hm Hk w. rewrite bind_run. specialize (Hm w).
  destruct (m w) as [[x | message |] w1]; simpl in *.
  - by apply (grows_trans a b w w1), Hk.
  - apply (grows_le a); [lia | done].
  - apply (grows_le a); [lia | done].
Qed.

Lemma sends_tryCatch a b {A} (m : M (World Env) A) handler :
  sends a m -> (forall message, sends b (handler message)) ->
  sends (a + b) (tryCatch m handler).
Proof.
  intros Hm Hh w. unfold tryCatch. specialize (Hm w).
  destruct (m w) as [[x | message |] w1]; simpl in *.
  - apply (grows_le a); [lia | done].
  - by apply (grows_trans a b w w1), Hh.
  - apply (grows_le a); [lia | done].
Qed.

Lemma sends_request {A} event (call : Env -> (string + A) * Env) :
  sends (length (legs [event])) (request event call).
Proof.
  intros w. exists [event]. split; [|done]. unfold request.
  by destruct (call (remote w)) as [[message | a] env].
Qed.

Lemma sends_wait delay : sends 0 (wait delay).
Proof. intros w. by exists [EvWait delay]. Qed.

Lemma sends_sendDtmf digits : sends 1 (sendDtmf digits).
Proof.
  intros w.
  change (sendDtmf digits w)
    with (FlowTesterSpec.runLeg (FlowTesterSpec.Dtmf digits) w).
  destruct (FlowTesterSpec.runLeg_cases (FlowTesterSpec.Dtmf digits) w)
    as [(testName & [=] & _) | [[_ ->] | (callSid & input & _ & _ & ->)]].
  - apply grows_refl.
  - exists [EvSendDtmf digits]. by rewrite legOutcome_events.
Qed.

Lemma sends_continueCall : sends 1 continueCall.
Proof.
  intros w.
  change (continueCall w)
    with (FlowTesterSpec.runLeg FlowTesterSpec.Continue w).
  destruct (FlowTesterSpec.runLeg_cases FlowTesterSpec.Continue w)
    as [(testName & [=] & _) | [[_ ->] | (callSid & input & _ & _ & ->)]].
  - apply grows_refl.
  - exists [EvContinueCall]. by rewrite legOutcome_events.
Qed.

Lemma sends_startCall testName : sends 1 (startCall testName).
Proof.
  intros w. rewrite FlowTesterSpec.startCall_run. simpl.
  exists [EvStartCall].
  by destruct (postVoice _ _ _) as [[message | parsed] env].
Qed.

Lemma sends_endCall : sends 0 endCall.
Proof.
  intros w. destruct (sid (tester w)) as [callSid|] eqn:Hsid.
  - rewrite (FlowTesterSpec.endCall_run w callSid Hsid).
    exists [EvEndCall].
    by destruct (postVoiceStatus _ _) as [[message | parsed] env].
  - unfold endCall. rewrite bind_run. simpl. rewrite Hsid.
    apply grows_refl.
Qed.

Lemma sends_startSession : sends 0 startSession.
Proof.
  unfold startSession. apply (sends_bind 0 0); [apply sends_request|].
  intros id. apply (sends_bind 0 0); [|intros ?]; by apply sends_quiet.
Qed.

Lemma sends_endSession : sends 0 endSession.
Proof.
  unfold endSession. apply (sends_bind 0 0); [by apply sends_quiet|].
  intros w. destruct (noSession (integration w)); [by apply sends_quiet|].
  apply (sends_tryCatch 0 0); [|intros; by apply sends_quiet].
  apply (sends_bind 0 0); [apply sends_request|].
  intros; by apply sends_quiet.
Qed.

Lemma sends_askAmazonQ ivrPrompt : sends 0 (askAmazonQ ivrPrompt).
Proof.
  unfold askAmazonQ. apply (sends_bind 0 0); [by apply sends_quiet|].
  intros w. apply (sends_bind 0 0).
  { destruct (noSession (integration w)); [|by apply sends_quiet].
    apply (sends_bind 0 0); [apply sends_startSession|].
    intros; by apply sends_quiet. }
  intros _. apply (sends_bind 0 0); [by apply sends_quiet|]. intros w'.
  apply (sends_bind 0 0); [apply sends_request|].
  intros; by apply sends_quiet.
Qed.

Lemma sends_sendSplit digits : sends 3 (sendSplit digits).
Proof.
  unfold sendSplit.
  apply (sends_bind 1 2); [apply sends_sendDtmf|]. intros _.
  apply (sends_bind 0 2); [apply sends_wait|]. intros _.
  apply (sends_bind 1 1); [apply sends_sendDtmf|]. intros response.
  destruct (Js.isBlank _);
    [|apply (sends_le 0); [lia | by apply sends_quiet]].
  apply (sends_bind 0 1); [apply sends_wait|]. intros _.
  apply sends_continueCall.
Qed.

Lemma sends_dispatch action : sends 3 (dispatch action).
Proof.
  assert (forall digits, sends 3 (sendDtmf digits)) as Hone.
  { intros digits. apply (sends_le 1); [lia | apply sends_sendDtmf]. }
  unfold dispatch. destruct (_ || _).
  - destruct (Js.isMultiDigit action); auto using sends_sendSplit.
  - destruct (Js.matchDigits action) as [digits|];
      [destruct (Nat.ltb 1 _)|]; auto using sends_sendSplit.
Qed.

Lemma sends_recheckBlank action newPrompt :
  sends 1 (recheckBlank action newPrompt).
Proof.
  unfold recheckBlank.
  destruct (_ && _); [|apply (sends_le 0); [lia | by apply sends_quiet]].
  apply (sends_bind 1 0); [apply sends_continueCall|]. intros response.
  apply (sends_bind 0 0); [apply sends_wait|].
  intros; by apply sends_quiet.
Qed.

Lemma grows_step {A B} (m : M (World Env) A) (k : A -> M (World Env) B)
    a b n w0 w :
  grows a w0 w -> grows b w (snd (m w)) -> (a + b <= n)%nat ->
  (forall x w1, m w = (Return x, w1) -> grows (a + b) w0 w1 ->
                grows n w0 (snd (k x w1))) ->
  grows n w0 (snd ((m ≫= k) w)).
Proof.
  intros Hacc Hm Hle Hk. rewrite bind_run.
  pose proof (grows_trans _ _ _ _ _ Hacc Hm) as Hacc'.
  destruct (m w) as [[x | message |] w1]; simpl in *.
  - by apply Hk.
  - by apply (grows_le (a + b)).
  - by apply (grows_le (a + b)).
Qed.

Lemma sends_setIntegration f : sends 0 (setIntegration f).
Proof. by apply sends_quiet. Qed.

Lemma sends_get : sends 0 (get : M (World Env) (World Env)).
Proof. by apply sends_quiet. Qed.

(** A step of the loop sends at most four legs: the two of a split, the
    call without input that follows a blank reply, and the one of the
    check after the dispatch. *)
Lemma navigationLoop_grows fuel : forall currentPrompt w,
  grows (4 * Nat.max 1 (maxSteps - currentStep (integration w))) w
        (snd (navigationLoop fuel currentPrompt w)).
Proof.
  induction fuel as [|fuel IH]; intros currentPrompt w; [apply grows_refl|].
  rewrite navigationLoop_unfold.
  apply (grows_step _ _ 0 0); [apply grows_refl | apply sends_setIntegration
                              | lia |].
  intros [] w1 [= <-] Hacc.
  apply (grows_step _ _ 0 0); [done | apply sends_askAmazonQ | lia |].
  intros action w2 Hask Hacc2.
  apply (steady_history _ _ _ _ (steady_askAmazonQ _)) in Hask
    as [_ Hs2]. simpl in Hs2. simpl in Hacc2.
  apply (grows_step _ _ 0 0); [done | apply sends_get | lia |].
  intros ? ? [= <- <-] Hacc3. simpl in Hacc3.
  destruct (String.eqb (Js.toLowerCase action) "hang up").
  - apply (grows_step _ _ 0 0); [done | apply sends_endCall | lia |].
    intros _ w3 _ Hacc4. simpl in Hacc4.
    apply (grows_step _ _ 0 0); [done | apply sends_setIntegration | lia |].
    intros [] ? [= <-] _. simpl. apply (grows_le 0); [lia | done].
  - apply (grows_step _ _ 0 3); [done | apply sends_dispatch | lia |].
    intros response w3 Hsend Hacc4.
    apply (steady_history _ _ _ _ (steady_dispatch _)) in Hsend
      as [_ Hs3]. simpl in Hacc4.
    apply (grows_step _ _ 3 0); [done | apply sends_wait | lia |].
    intros [] w4 [= <-] Hacc5. simpl in Hacc5.
    apply (grows_step _ _ 3 1); [done | apply sends_recheckBlank | lia |].
    intros newPrompt w5 Hcheck Hacc6.
    apply (steady_history _ _ _ _ (steady_recheckBlank _ _)) in Hcheck
      as [_ Hs5]. simpl in Hs5, Hacc6.
    apply (grows_step _ _ 4 0); [done | apply sends_setIntegration | lia |].
    intros [] w6 [= <-] Hacc7. simpl in Hacc7.
    apply (grows_step _ _ 4 0); [done | apply sends_get | lia |].
    intros ? ? [= <- <-] Hacc8. simpl in Hacc8. cbv beta.
    match goal with
    | |- context [Nat.leb maxSteps ?n] =>
        destruct (Nat.leb_spec maxSteps n) as [Hmax | Hless]
    end; simpl in Hmax || simpl in Hless.
    + apply (grows_step _ _ 4 0); [done | apply sends_endCall | lia |].
      intros _ w7 _ Hacc9. simpl. apply (grows_le 4); [lia | done].
    + rewrite Hs5, Hs3, Hs2 in Hless.
      eapply grows_le; [|eapply grows_trans; [exact Hacc8 | apply IH]].
      simpl. rewrite Hs5, Hs3, Hs2. unfold maxSteps in *. lia.
Qed.

Lemma sends_openCall testName : sends 1 (openCall testName).
Proof.
  unfold openCall.
  apply (sends_bind 0 1); [apply sends_startSession|]. intros _.
  apply (sends_bind 1 0); [apply sends_startCall|]. intros initialResponse.
  apply (sends_bind 0 0); [apply sends_wait|]. intros _.
  apply (sends_bind 0 0); [|intros ?]; by apply sends_quiet.
Qed.

Lemma sends_closeSession : sends 0 closeSession.
Proof.
  unfold closeSession. apply (sends_bind 0 0); [apply sends_endSession|].
  intros _. apply (sends_bind 0 0); [|intros ?]; by apply sends_quiet.
Qed.

Lemma sends_cleanUp message : sends 0 (cleanUp message).
Proof.
  unfold cleanUp. apply (sends_bind 0 0).
  { apply (sends_tryCatch 0 0); [|intros; by apply sends_quiet].
    apply (sends_bind 0 0); [by apply sends_quiet|]. intros w.
    destruct (callActive (tester w)); [|by apply sends_quiet].
    apply (sends_bind 0 0); [apply sends_endCall|].
    intros; by apply sends_quiet. }
  intros _. apply (sends_bind 0 0).
  { apply (sends_tryCatch 0 0); [apply sends_endSession|].
    intros; by apply sends_quiet. }
  intros _. apply (sends_bind 0 0); [|intros ?]; by apply sends_quiet.
Qed.

Lemma body_grows fuel testName w :
  grows (1 + 4 * maxSteps) w
        (snd ((currentPrompt ← openCall testName;
               navigationLoop fuel currentPrompt;;
               closeSession) w)).
Proof.
  apply (grows_step _ _ 0 1); [apply grows_refl | apply sends_openCall
                              | lia |].
  intros currentPrompt w1 Hopen Hacc.
  apply openCall_Return in Hopen as [_ Hs1].
  apply (grows_step _ _ 1 (4 * maxSteps)); [done | | lia |].
  - pose proof (navigationLoop_grows fuel currentPrompt w1) as Hloop.
    rewrite Hs1 in Hloop. eapply grows_le; [|exact Hloop].
    unfold maxSteps. lia.
  - intros e w2 _ Hacc2.
    eapply grows_le; [|eapply grows_trans; [exact Hacc2|]];
      [|apply sends_closeSession]. lia.
Qed.

(** X13: the requests of a dispatch and of a run: a dispatch sends at most
    three legs, and a run at most one leg to start the call and four for each
    of its [maxSteps] steps, whatever the replies and however it ends. *)
Theorem requests_bounded fuel testName action w :
  grows 3 w (snd (dispatch action w))
  /\ grows (1 + 4 * maxSteps) w
       (snd (runAutomatedNavigation fuel testName w)).
Proof.
  split; [apply sends_dispatch|].
  unfold runAutomatedNavigation, tryCatch.
  pose proof (body_grows fuel testName w) as Hbody.
  destruct ((currentPrompt ← openCall testName;
             navigationLoop fuel currentPrompt;;
             closeSession) w) as [[result | message |] w1]; [done | | done].
  eapply grows_le; [|eapply grows_trans; [exact Hbody|]];
    [|apply sends_cleanUp]. lia.
Qed.

(** *** What a run leaves behind *)

Lemma endSession_post w :
  exists w' new,
    endSession w = (Return tt, w')
    /\ tester w' = tester w
    /\ events w' = events w ++ new
    /\ (noSession (integration w') = false -> new = [EvDeleteSession]).
Proof.
  unfold endSession. rewrite bind_run. simpl.
  destruct (noSession (integration w)) eqn:Hno.
  - exists w, []. rewrite app_nil_r. repeat split; try done. congruence.
  - unfold tryCatch. rewrite bind_run. unfold request.
    destruct (deleteSession _ _) as [[message | []] env]; simpl;
      by eexists _, [EvDeleteSession].
Qed.

Lemma endCall_Return_idle w parsed w' :
  endCall w = (Return parsed, w') -> callActive (tester w') = false.
Proof.
  intros Hrun. destruct (sid (tester w)) as [callSid|] eqn:Hsid.
  - rewrite (FlowTesterSpec.endCall_run w callSid Hsid) in Hrun.
    destruct (postVoiceStatus _ _) as [[message | reply] env]; [done|].
    by injection Hrun as <- <-.
  - unfold endCall in Hrun. rewrite bind_run in Hrun. simpl in Hrun.
    by rewrite Hsid in Hrun.
Qed.

(** A loop that ends by one of its [break]s has ended the call. *)
Lemma navigationLoop_Return_idle fuel : forall currentPrompt w e w',
  navigationLoop fuel currentPrompt w = (Return e, w') ->
  callActive (tester w') = false.
Proof.
  induction fuel as [|fuel IH]; intros currentPrompt w e w' Hrun;
    [discriminate|].
  rewrite navigationLoop_unfold in Hrun.
  apply bind_Return_inv in Hrun as ([] & w1 & [= <-] & Hrun).
  apply bind_Return_inv in Hrun as (action & w2 & Hask & Hrun).
  apply bind_Return_inv in Hrun as (? & ? & [= <- <-] & Hrun).
  destruct (String.eqb (Js.toLowerCase action) "hang up").
  - apply bind_Return_inv in Hrun as (? & w3 & Hend & Hrun).
    apply endCall_Return_idle in Hend.
    by apply bind_Return_inv in Hrun as ([] & ? & [= <-] & [= _ <-]).
  - apply bind_Return_inv in Hrun as (response & w3 & Hsend & Hrun).
    apply bind_Return_inv in Hrun as ([] & ? & [= <-] & Hrun).
    apply bind_Return_inv in Hrun as (newPrompt & w5 & Hcheck & Hrun).
    apply bind_Return_inv in Hrun as ([] & ? & [= <-] & Hrun).
    apply bind_Return_inv in Hrun as (? & ? & [= <- <-] & Hrun).
    cbv beta in Hrun.
    match type of Hrun with
    | context [Nat.leb maxSteps ?n] => destruct (Nat.leb maxSteps n)
    end.
    + apply bind_Return_inv in Hrun as (? & w7 & Hend & [= _ <-]).
      by apply endCall_Return_idle in Hend.
    + by apply IH in Hrun.
Qed.

(** The first statement of the [catch] block: the call is ended when it
    is active, and an error of that is dropped. *)
Lemma endCall_attempt w :
  sound (tester w) ->
  exists w' new,
    tryCatch
      (w ← get;
       if callActive (tester w) then endCall;; mret tt else mret tt)
      (fun _ => mret tt) w
    = (Return tt, w')
    /\ events w' = events w ++ new
    /\ (callActive (tester w') = true -> EvEndCall ∈ new).
Proof.
  intros [_ Hsid]. unfold tryCatch. rewrite bind_run. simpl.
  destruct (callActive (tester w)) eqn:Hactive.
  - destruct (Hsid eq_refl) as [callSid Hsome].
    rewrite bind_run, (FlowTesterSpec.endCall_run w callSid Hsome).
    destruct (postVoiceStatus _ _) as [[message | reply] env]; simpl;
      eexists _, [EvEndCall]; (split; [done|]); (split; [done|]);
      intros _; by left.
  - exists w, []. rewrite app_nil_r. by rewrite Hactive.
Qed.

Lemma cleanUp_post message w :
  sound (tester w) ->
  exists w' new,
    snd (cleanUp message w) = w'
    /\ events w' = events w ++ new
    /\ (callActive (tester w') = true -> EvEndCall ∈ new)
    /\ (noSession (integration w') = false ->
          last new = Some EvDeleteSession).
Proof.
  intros Hsound.
  destruct (endCall_attempt w Hsound) as (w1 & new1 & Hcall & E1 & Hactive).
  destruct (endSession_post w1) as (w2 & new2 & Hend & Hstill & E2 & Hno).
  exists w2, (new1 ++ new2). unfold cleanUp.
  rewrite (bind_Return _ _ _ _ _ Hcall).
  rewrite (bind_Return _ _ _ _ _ (tryCatch_Return _ _ _ _ _ Hend)).
  rewrite bind_run. simpl.
  split; [done|]. split; [by rewrite E2, E1, app_assoc|]. split.
  - rewrite Hstill. intros Hon. apply elem_of_app. left. by apply Hactive.
  - intros Hsession. rewrite (Hno Hsession). apply last_snoc.
Qed.

Lemma body_terminates fuel testName w :
  (maxSteps <= fuel)%nat ->
  fst ((currentPrompt ← openCall testName;
        navigationLoop fuel currentPrompt;;
        closeSession) w) <> OutOfFuel.
Proof.
  intros Hfuel.
  apply bind_terminates; [apply openCall_terminates|].
  intros currentPrompt w1 Hopen.
  apply openCall_Return in Hopen as [_ Hstep].
  apply bind_terminates.
  - apply navigationLoop_terminates; unfold maxSteps in *; lia.
  - intros e w2 _. by destruct (closeSession_returns w2) as (w3 & -> & _).
Qed.

(** X14: what a run leaves behind. After a run of a tester that is in order,
    the call is not active, or the request to end it was sent (and failed);
    and the integration has no session, or the last request of the run was the
    one to delete the session (and it failed). *)
Theorem run_cleans_up fuel testName w :
  (maxSteps <= fuel)%nat ->
  sound (tester w) ->
  exists new,
    events (snd (runAutomatedNavigation fuel testName w)) = events w ++ new
    /\ (callActive (tester (snd (runAutomatedNavigation fuel testName w)))
        = true -> EvEndCall ∈ new)
    /\ (noSession
          (integration (snd (runAutomatedNavigation fuel testName w)))
        = false -> last new = Some EvDeleteSession).
Proof.
  intros Hfuel Hsound. unfold runAutomatedNavigation, tryCatch.
  pose proof (body_terminates fuel testName w Hfuel) as Hends.
  pose proof (body_grows fuel testName w) as (newB & EB & _).
  pose proof (sound_body fuel testName w Hsound) as Hsound1.
  destruct ((currentPrompt ← openCall testName;
             navigationLoop fuel currentPrompt;;
             closeSession) w) as [[result | message |] w3] eqn:Hbody;
    [| | done]; simpl in *.
  - apply bind_Return_inv in Hbody as (currentPrompt & w1 & Hopen & Hbody).
    apply bind_Return_inv in Hbody as (e & w2 & Hloop & Hbody).
    apply navigationLoop_Return_idle in Hloop as Hidle.
    pose proof (sends_openCall testName w) as (new1 & E1 & _).
    rewrite Hopen in E1.
    pose proof (navigationLoop_grows fuel currentPrompt w1) as (new2 & E2 & _).
    rewrite Hloop in E2. simpl in E1, E2.
    destruct (endSession_post w2) as (w' & new3 & Hend & Hstill & E3 & Hno).
    unfold closeSession in Hbody.
    rewrite (bind_Return _ _ _ _ _ Hend), bind_run in Hbody.
    simpl in Hbody. injection Hbody as _ <-.
    exists (new1 ++ new2 ++ new3).
    split; [by rewrite E3, E2, E1, <- !app_assoc|]. split.
    + rewrite Hstill, Hidle. discriminate.
    + intros Hsession. rewrite (Hno Hsession), app_assoc. apply last_snoc.
  - destruct (cleanUp_post message w3 Hsound1)
      as (w' & newC & -> & EC & Hactive & Hno).
    exists (newB ++ newC). split; [by rewrite EC, EB, app_assoc|]. split.
    + intros Hon. apply elem_of_app. right. by apply Hactive.
    + intros Hsession. specialize (Hno Hsession).
      destruct newC as [|event newC] using rev_ind; [done|].
      by rewrite app_assoc, !last_snoc in *.
Qed.

End WithRemote.

Import Scripted.

Lemma run_accounting_witness :
  exists result w' entries,
    runAutomatedNavigation 20 "T" endless = (Return result, w')
    /\ resultHistory result = history (integration endless) ++ entries
    /\ map step entries = seq 1 (length entries).
Proof.
  destruct (@run_accounting Script scripted 20%nat "T" endless)
    as (result & w' & entries & Hrun & _ & _ & Hhistory & Hsteps & _);
    [unfold maxSteps; lia|].
  exists result, w', entries. exact (conj Hrun (conj Hhistory Hsteps)).
Defined.

Lemma run_keeps_tester_sound_witness :
  sound (tester (snd (runAutomatedNavigation 20 "T" endless)))
  /\ sound (tester (snd (dispatch "1234" endless))).
Proof.
  destruct (@run_keeps_tester_sound Script scripted 20%nat "T" "1234" endless)
    as (Hrun & Hdispatch & _).
  - split; [apply TrackerInvariants.running_new | discriminate].
  - exact (conj Hrun Hdispatch).
Defined.

Lemma run_cleans_up_witness :
  exists new,
    events (snd (runAutomatedNavigation 20 "T" endless)) = new
    /\ callActive (tester (snd (runAutomatedNavigation 20 "T" endless)))
       = false
    /\ noSession (integration (snd (runAutomatedNavigation 20 "T" endless)))
       = true.
Proof.
  destruct (@run_cleans_up Script scripted 20%nat "T" endless)
    as (new & Hevents & _).
  - unfold maxSteps; lia.
  - split; [apply TrackerInvariants.running_new | discriminate].
  - exists new. split; [exact Hevents|].
    split; vm_compute; reflexivity.
Defined.

End IntegrationSpec.

(** ** Properties of [extractAction] *)

Module ActionSpec.
Import Integration.

(** Strings of white space, and strings without a line feed. *)
Fixpoint allSpace (s : string) : bool :=
  match s with
  | EmptyString => true
  | String c r => Js.isSpace c && allSpace r
  end.


Lemma trimStart_empty s : Js.trimStart s = "" <-> allSpace s = true.
Proof.
  induction s as [|c r IH]; simpl; [done|].
  destruct (Js.isSpace c); simpl; [done|]. split; discriminate.
Qed.

Lemma trimEnd_empty s : Js.trimEnd s = "" <-> allSpace s = true.
Proof.
  induction s as [|c r IH]; simpl; [done|].
  destruct (Js.trimEnd r) as [|c' r'] eqn:E.
  - destruct (Js.isSpace c); simpl; [tauto|]. split; discriminate.
  - rewrite andb_true_iff, <- IH. split; [discriminate | intros [_ ?]; done].
Qed.

Lemma allSpace_trimStart s : allSpace (Js.trimStart s) = allSpace s.
Proof.
  induction s as [|c r IH]; simpl; [done|].
  destruct (Js.isSpace c) eqn:E; simpl; [done | by rewrite E].
Qed.

Lemma trim_empty s : Js.trim s = "" <-> allSpace s = true.
Proof. unfold Js.trim. by rewrite trimEnd_empty, allSpace_trimStart. Qed.















End ActionSpec.

(** ** Properties of the test flows *)

Module FlowsSpec.
Import Effects Session FlowTester Flows.
Import DriverSpec FlowTesterSpec IntegrationSpec.

(** The events of a successful prescription flow, but for the
    confirmation. *)
Definition prescriptionLegs (menuDigit testRx : string)
    (confirmation : list Event) : list Event :=
  [EvStartCall; EvWait FullWait; EvContinueCall;
   EvSendDtmf menuDigit; EvWait FullWait;
   EvSendDtmf testRx; EvWait FullWait]
  ++ confirmation ++ [EvContinueCall; EvEndCall].

Definition isStart (event : Event) : bool :=
  match event with
  | EvStartCall => true
  | _ => false
  end.

(** The calls started in a trace. *)
Definition starts (trace : list Event) : nat :=
  length (List.filter isStart trace).

Section WithRemote.
Context {Env : Type} `{Remote Env}.

(** [emits P m]: however [m] ends, it has added events that satisfy
    [P]. *)
Definition emits (P : list Event -> Prop) {A} (m : M (World Env) A)
    : Prop :=
  forall w, exists new, events (snd (m w)) = events w ++ new /\ P new.

Lemma emits_bind (P Q R : list Event -> Prop) {A B}
    (m : M (World Env) A) (k : A -> M (World Env) B) :
  emits P m -> (forall x, emits Q (k x)) ->
  (forall new, P new -> R new) ->
  (forall new1 new2, P new1 -> Q new2 -> R (new1 ++ new2)) ->
  emits R (m ≫= k).
Proof.
  intros Hm Hk Hearly Hboth w. rewrite bind_run.
  destruct (Hm w) as (new1 & E1 & H1).
  destruct (m w) as [[x | message |] w1]; simpl in *;
    [|exists new1; auto..].
  destruct (Hk x w1) as (new2 & E2 & H2). exists (new1 ++ new2).
  split; [by rewrite E2, E1, app_assoc | auto].
Qed.

Lemma emits_tryCatch (P Q R : list Event -> Prop) {A}
    (m : M (World Env) A) handler :
  emits P m -> (forall message, emits Q (handler message)) ->
  (forall new, P new -> R new) ->
  (forall new1 new2, P new1 -> Q new2 -> R (new1 ++ new2)) ->
  emits R (tryCatch m handler).
Proof.
  intros Hm Hh Hearly Hboth w. unfold tryCatch.
  destruct (Hm w) as (new1 & E1 & H1).
  destruct (m w) as [[x | message |] w1]; simpl in *;
    [exists new1; auto | | exists new1; auto].
  destruct (Hh message w1) as (new2 & E2 & H2). exists (new1 ++ new2).
  split; [by rewrite E2, E1, app_assoc | auto].
Qed.

(** No call is started. *)
Definition calm {A} (m : M (World Env) A) : Prop :=
  emits (fun new => starts new = 0%nat) m.

Lemma starts_app trace1 trace2 :
  starts (trace1 ++ trace2) = (starts trace1 + starts trace2)%nat.
Proof. unfold starts. by rewrite List.filter_app, length_app. Qed.

Lemma calm_bind {A B} (m : M (World Env) A) (k : A -> M (World Env) B) :
  calm m -> (forall x, calm (k x)) -> calm (m ≫= k).
Proof.
  intros Hm Hk.
  apply (emits_bind _ _ _ m k Hm Hk); [done|].
  intros new1 new2 H1 H2. rewrite starts_app. lia.
Qed.

Lemma calm_tryCatch {A} (m : M (World Env) A) handler :
  calm m -> (forall message, calm (handler message)) ->
  calm (tryCatch m handler).
Proof.
  intros Hm Hh.
  apply (emits_tryCatch _ _ _ m handler Hm Hh); [done|].
  intros new1 new2 H1 H2. rewrite starts_app. lia.
Qed.

Lemma calm_quiet {A} (m : M (World Env) A) :
  (forall w, events (snd (m w)) = events w) -> calm m.
Proof. intros Hquiet w. exists []. by rewrite app_nil_r. Qed.

Lemma calm_wait delay : calm (wait delay).
Proof. intros w. by exists [EvWait delay]. Qed.

Lemma calm_sendDtmf digits : calm (sendDtmf digits).
Proof.
  intros w. change (sendDtmf digits w) with (runLeg (Dtmf digits) w).
  destruct (runLeg_cases (Dtmf digits) w)
    as [(testName & [=] & _) | [[_ ->] | (callSid & input & _ & _ & ->)]].
  - exists []. by rewrite app_nil_r.
  - exists [EvSendDtmf digits]. by rewrite legOutcome_events.
Qed.

Lemma calm_continueCall : calm continueCall.
Proof.
  intros w. change (continueCall w) with (runLeg Continue w).
  destruct (runLeg_cases Continue w)
    as [(testName & [=] & _) | [[_ ->] | (callSid & input & _ & _ & ->)]].
  - exists []. by rewrite app_nil_r.
  - exists [EvContinueCall]. by rewrite legOutcome_events.
Qed.

Lemma calm_endCall : calm endCall.
Proof.
  intros w. destruct (sid (tester w)) as [callSid|] eqn:Hsid.
  - rewrite (endCall_run w callSid Hsid). exists [EvEndCall].
    by destruct (postVoiceStatus _ _) as [[message | parsed] env].
  - unfold endCall. rewrite bind_run. simpl. rewrite Hsid.
    exists []. by rewrite app_nil_r.
Qed.

Lemma startCall_starts testName :
  emits (fun new => starts new = 1%nat) (startCall testName).
Proof.
  intros w. rewrite startCall_run. simpl. exists [EvStartCall].
  by destruct (postVoice _ _ _) as [[message | parsed] env].
Qed.

Lemma calm_getState : calm getState.
Proof. by apply calm_quiet. Qed.

Lemma calm_endActiveCall : calm endActiveCall.
Proof.
  unfold endActiveCall. apply calm_bind; [by apply calm_quiet|]. intros w.
  destruct (callActive (tester w)); [|by apply calm_quiet].
  apply calm_tryCatch; [|intros; by apply calm_quiet].
  apply calm_bind; [apply calm_endCall|]. intros; by apply calm_quiet.
Qed.

(** *** The shape of a flow *)

(** The statements of a prescription flow after [startCall]. *)
Definition prescriptionSteps (menuDigit flow testRx : string)
    (results : TestResults) : M (World Env) (bool * TestResults) :=
  wait FullWait;;
  continueCall;;
  sendDtmf menuDigit;;
  wait FullWait;;
  sendDtmf testRx;;
  wait FullWait;;
  w ← get;
  let responseText := extractTextFromResponse (lastResponse (tester w)) in
  (if asksToConfirm responseText
   then sendDtmf "1";; wait FullWait
   else mret tt);;
  continueCall;;
  endCall;;
  state ← getState;
  mret (true,
        assign results flow
          {| success := true; rxNumber := Some testRx; error := None;
             finalState := state |}).

(** The statements of the pharmacy hours flow after [startCall]. *)
Definition pharmacySteps (results : TestResults)
    : M (World Env) (bool * TestResults) :=
  wait FullWait;;
  continueCall;;
  sendDtmf "4";;
  wait FullWait;;
  sendDtmf "1";;
  wait FullWait;;
  continueCall;;
  endCall;;
  state ← getState;
  mret (true,
        assign results "pharmacy_hours"
          {| success := true; rxNumber := None; error := None;
             finalState := state |}).

(** The [catch] block of a flow. *)
Definition reportFailure (flow : string) (rxField : option string)
    (results : TestResults) (message : string)
    : M (World Env) (bool * TestResults) :=
  endActiveCall;;
  state ← getState;
  mret (false,
        assign results flow
          {| success := false; rxNumber := rxField;
             error := Some message; finalState := state |}).

Lemma prescriptionFlow_shape callName menuDigit flow config rx results :
  prescriptionFlow callName menuDigit flow config rx results
  = tryCatch
      (startCall (callName +:+ orTestRxNumber config rx);;
       prescriptionSteps menuDigit flow (orTestRxNumber config rx) results)
      (reportFailure flow (Some (orTestRxNumber config rx)) results).
Proof. reflexivity. Qed.

Lemma testPharmacyHours_shape results :
  testPharmacyHours results
  = tryCatch (startCall "PharmacyHours";; pharmacySteps results)
             (reportFailure "pharmacy_hours" None results).
Proof. reflexivity. Qed.

(** What the statements after [startCall] have to be for what follows. *)
Definition hasSid (t : IvrFlowTester) : Prop := is_Some (sid t).

Record goodSteps (steps : M (World Env) (bool * TestResults))
    (flow : string) (rxField : option string) (results : TestResults)
    : Prop := {
  steps_steady : steady (Env := Env) steps;
  steps_hasSid : keeps (Env := Env) hasSid steps;
  steps_calm : calm steps;
  steps_Return w b results' w' :
    steps w = (Return (b, results'), w') ->
    b = true
    /\ callActive (tester w') = false
    /\ results'
       = assign results flow
           {| success := true; rxNumber := rxField; error := None;
              finalState :=
                Tracker.currentState (stateTracker (tester w')) |}
}.

Lemma hasSid_heard parsed : keeps (Env := Env) hasSid (received parsed).
Proof. by apply keeps_setTester. Qed.

Lemma hasSid_sendDtmf digits : keeps (Env := Env) hasSid (sendDtmf digits).
Proof.
  unfold sendDtmf. apply keeps_bind; [by apply keeps_still|]. intros w.
  destruct (callActive (tester w)), (sid (tester w));
    try by apply keeps_still.
  apply keeps_bind; [apply keeps_request|]. intros parsed.
  apply keeps_bind; [apply hasSid_heard|]. intros; by apply keeps_still.
Qed.

Lemma hasSid_continueCall : keeps (Env := Env) hasSid continueCall.
Proof.
  unfold continueCall. apply keeps_bind; [by apply keeps_still|]. intros w.
  destruct (callActive (tester w)), (sid (tester w));
    try by apply keeps_still.
  apply keeps_bind; [apply keeps_request|]. intros parsed.
  apply keeps_bind; [apply hasSid_heard|]. intros; by apply keeps_still.
Qed.

Lemma hasSid_endCall : keeps (Env := Env) hasSid endCall.
Proof.
  unfold endCall. apply keeps_bind; [by apply keeps_still|]. intros w.
  destruct (sid (tester w)); [|by apply keeps_still].
  apply keeps_bind; [apply keeps_request|]. intros parsed.
  apply keeps_bind; [by apply keeps_setTester|].
  intros; by apply keeps_still.
Qed.

Lemma steady_getState : steady (Env := Env) getState.
Proof.
  unfold getState. apply steady_bind; [apply steady_get|].
  intros; apply steady_ret.
Qed.

Lemma getState_run (w : World Env) :
  getState w
  = (Return (Tracker.currentState (stateTracker (tester w))), w).
Proof. reflexivity. Qed.

Lemma leg_Return leg (w : World Env) parsed w' :
  runLeg leg w = (Return parsed, w') ->
  events w' = events w ++ [legEvent leg]
  /\ sid (tester w')
     = match leg with
       | Start testName =>
           Some (testName +:+ "_" +:+ fst (uuid8 (remote w)))
       | _ => sid (tester w)
       end.
Proof.
  intros Hrun.
  assert (forall leg',
            (forall testName, leg' <> Start testName) ->
            runLeg leg' w = (Return parsed, w') ->
            events w' = events w ++ [legEvent leg']
            /\ sid (tester w') = sid (tester w)) as Hother.
  { intros leg' Hleg' Hrun'.
    destruct (runLeg_cases leg' w)
      as [(testName & -> & _)
         | [[_ Hleg] | (callSid & input & _ & _ & Hleg)]];
      [by destruct (Hleg' testName) | |]; rewrite Hleg in Hrun'; [done|].
    unfold legOutcome in Hrun'.
    destruct (postVoice _ _ _) as [[message | reply] env]; [done|].
    by injection Hrun' as <- <-. }
  destruct leg as [testName | digits |]; [|by apply Hother..].
  simpl in Hrun. rewrite startCall_run in Hrun. simpl in Hrun.
  destruct (postVoice _ _ _) as [[message | reply] env]; [done|].
  by injection Hrun as <- <-.
Qed.

Lemma endCall_Return (w : World Env) parsed w' :
  endCall w = (Return parsed, w') ->
  events w' = events w ++ [EvEndCall]
  /\ sid (tester w') = sid (tester w)
  /\ callActive (tester w') = false
  /\ stateTracker (tester w') = stateTracker (tester w).
Proof.
  intros Hrun. destruct (sid (tester w)) as [callSid|] eqn:Hsid.
  - rewrite (endCall_run w callSid Hsid) in Hrun.
    destruct (postVoiceStatus _ _) as [[message | reply] env]; [done|].
    by injection Hrun as <- <-.
  - unfold endCall in Hrun. rewrite bind_run in Hrun. simpl in Hrun.
    by rewrite Hsid in Hrun.
Qed.

(** The last statements of the [try] block of every flow. *)
Lemma closing_Return flow rxField results (w : World Env) b results' w' :
  (continueCall;;
   endCall;;
   state ← getState;
   mret (true,
         assign results flow
           {| success := true; rxNumber := rxField; error := None;
              finalState := state |})) w
  = (Return (b, results'), w') ->
  b = true
  /\ callActive (tester w') = false
  /\ results'
     = assign results flow
         {| success := true; rxNumber := rxField; error := None;
            finalState := Tracker.currentState (stateTracker (tester w')) |}
  /\ events w' = events w ++ [EvContinueCall; EvEndCall]
  /\ sid (tester w') = sid (tester w).
Proof.
  intros Hrun.
  apply bind_Return_inv in Hrun as (parsed & w1 & Hcontinue & Hrun).
  apply bind_Return_inv in Hrun as (ended & w2 & Hend & Hrun).
  rewrite bind_run, getState_run in Hrun. injection Hrun as <- <- <-.
  apply (leg_Return Continue) in Hcontinue as [E1 Hsid1].
  apply endCall_Return in Hend as (E2 & Hsid2 & Hidle & _).
  repeat split; try done; [|congruence].
  by rewrite E2, E1, <- app_assoc.
Qed.

Ltac steady_steps :=
  repeat first
    [ apply steady_wait | apply steady_continueCall | apply steady_sendDtmf
    | apply steady_endCall | apply steady_get | apply steady_getState
    | apply steady_ret
    | match goal with |- steady (if ?b then _ else _) => destruct b end
    | apply steady_bind; [|intros ?] ].

Ltac hasSid_steps :=
  repeat first
    [ apply hasSid_continueCall | apply hasSid_sendDtmf
    | apply hasSid_endCall
    | match goal with |- keeps _ (if ?b then _ else _) => destruct b end
    | apply keeps_bind; [|intros ?]
    | by apply keeps_still ].

Ltac calm_steps :=
  repeat first
    [ apply calm_wait | apply calm_continueCall | apply calm_sendDtmf
    | apply calm_endCall | apply calm_getState
    | match goal with |- calm (if ?b then _ else _) => destruct b end
    | apply calm_bind; [|intros ?]
    | by apply calm_quiet ].

Lemma prescriptionSteps_good menuDigit flow testRx results :
  goodSteps (prescriptionSteps menuDigit flow testRx results)
            flow (Some testRx) results.
Proof.
  split.
  - unfold prescriptionSteps. steady_steps.
  - unfold prescriptionSteps. hasSid_steps.
  - unfold prescriptionSteps. calm_steps.
  - intros w b results' w' Hrun. unfold prescriptionSteps in Hrun.
    do 8 (apply bind_Return_inv in Hrun as (? & ? & _ & Hrun)).
    by apply closing_Return in Hrun as (? & ? & ? & _).
Qed.

Lemma pharmacySteps_good results :
  goodSteps (pharmacySteps results) "pharmacy_hours" None results.
Proof.
  split.
  - unfold pharmacySteps. steady_steps.
  - unfold pharmacySteps. hasSid_steps.
  - unfold pharmacySteps. calm_steps.
  - intros w b results' w' Hrun. unfold pharmacySteps in Hrun.
    do 6 (apply bind_Return_inv in Hrun as (? & ? & _ & Hrun)).
    by apply closing_Return in Hrun as (? & ? & ? & _).
Qed.

(** *** What a flow reports *)

(** What a flow has done when it has returned: it has not thrown; the
    entry of the flow in the results tells whether it succeeded, with the
    error if not, and the state of the tracker at the end; one call was
    started; and the call is not left active, unless the request to end
    it was the last one sent (and failed). *)
Definition reports (flow : string) (rxField : option string)
    (results : TestResults) (w : World Env)
    (outcome : Outcome (bool * TestResults) * World Env) : Prop :=
  exists b r w' new,
    outcome = (Return (b, assign results flow r), w')
    /\ success r = b
    /\ rxNumber r = rxField
    /\ (error r = None <-> b = true)
    /\ finalState r = Tracker.currentState (stateTracker (tester w'))
    /\ (callActive (tester w') = true ->
          b = false /\ last (events w') = Some EvEndCall)
    /\ events w' = events w ++ new
    /\ starts new = 1%nat.

Lemma endActiveCall_post (w : World Env) :
  hasSid (tester w) ->
  exists w' new,
    endActiveCall w = (Return tt, w')
    /\ stateTracker (tester w') = stateTracker (tester w)
    /\ (callActive (tester w') = true -> last (events w') = Some EvEndCall)
    /\ events w' = events w ++ new
    /\ starts new = 0%nat.
Proof.
  intros [callSid Hsid]. unfold endActiveCall. rewrite bind_run. simpl.
  destruct (callActive (tester w)) eqn:Hactive.
  - unfold tryCatch. rewrite bind_run, (endCall_run w callSid Hsid).
    destruct (postVoiceStatus _ _) as [[message | reply] env]; simpl;
      eexists _, [EvEndCall]; repeat split; try done.
    intros _. apply last_snoc.
  - exists w, []. rewrite app_nil_r. repeat split; try done.
    by rewrite Hactive.
Qed.

Lemma flow_outcome testName steps flow rxField results (w : World Env) :
  goodSteps steps flow rxField results ->
  reports flow rxField results w
    (tryCatch (startCall testName;; steps)
              (reportFailure flow rxField results) w).
Proof.
  intros [Hsteady Hsid Hcalm Hreturn]. unfold tryCatch.
  assert (emits (fun new => starts new = 1%nat) (startCall testName;; steps))
    as Hemits.
  { apply (emits_bind _ _ _ _ _ (startCall_starts testName)
             (fun _ => Hcalm)); [done|].
    intros new1 new2 H1 H2. rewrite starts_app. lia. }
  destruct (Hemits w) as (new1 & E1 & Hone).
  assert (steady (startCall testName;; steps)) as Hbody
    by (apply steady_bind; [apply steady_startCall | done]).
  destruct (Hbody w) as [Hfuel _].
  destruct ((startCall testName;; steps) w)
    as [[[b results'] | message |] w1] eqn:Hrun; simpl in *; [| | done].
  - apply bind_Return_inv in Hrun as (parsed & wa & _ & Hrun).
    apply Hreturn in Hrun as (-> & Hidle & ->).
    eexists true, _, w1, new1. split; [done|]. simpl.
    repeat split; try done; congruence.
  - assert (hasSid (tester w1)) as Hdialled.
    { apply bind_Throw_inv in Hrun as [Hrun | (parsed & wa & Hstart & Hrun)].
      - rewrite startCall_run in Hrun. simpl in Hrun.
        destruct (postVoice _ _ _) as [[failure | reply] env]; [|done].
        injection Hrun as _ <-. by eexists.
      - rewrite startCall_run in Hstart. simpl in Hstart.
        destruct (postVoice _ _ _) as [[failure | reply] env]; [done|].
        injection Hstart as _ <-.
        match goal with
        | |- hasSid (tester w1) =>
            replace w1 with (snd (steps
              (mkWorld env
                 (answered (tester w)
                    (testName +:+ "_" +:+ fst (uuid8 (remote w))) reply)
                 (integration w) (events w ++ [EvStartCall]))))
              by by rewrite Hrun
        end.
        apply Hsid. by eexists. }
    destruct (endActiveCall_post w1 Hdialled)
      as (w2 & new2 & Hend & Htracker & Hactive & E2 & Hnone).
    unfold reportFailure. rewrite (bind_Return _ _ _ _ _ Hend).
    rewrite bind_run, getState_run.
    eexists false, _, w2, (new1 ++ new2). split; [done|]. simpl.
    repeat split; try done.
    + by apply Hactive.
    + by rewrite E2, E1, app_assoc.
    + rewrite starts_app. lia.
Qed.

Lemma testRefillPrescription_reports config rx results (w : World Env) :
  reports "refill_prescription" (Some (orTestRxNumber config rx)) results w
    (testRefillPrescription config rx results w).
Proof.
  unfold testRefillPrescription. rewrite prescriptionFlow_shape.
  apply flow_outcome, prescriptionSteps_good.
Qed.

Lemma testCheckStatus_reports config rx results (w : World Env) :
  reports "check_status" (Some (orTestRxNumber config rx)) results w
    (testCheckStatus config rx results w).
Proof.
  unfold testCheckStatus. rewrite prescriptionFlow_shape.
  apply flow_outcome, prescriptionSteps_good.
Qed.

Lemma testPharmacyHours_reports results (w : World Env) :
  reports "pharmacy_hours" None results w (testPharmacyHours results w).
Proof.
  rewrite testPharmacyHours_shape. apply flow_outcome, pharmacySteps_good.
Qed.

(** X16: the three flows never throw: each returns a flag and leaves its entry
    in the results, as [reports] says. *)
Theorem flows_report config rx results (w : World Env) :
  reports "refill_prescription" (Some (orTestRxNumber config rx)) results w
    (testRefillPrescription config rx results w)
  /\ reports "check_status" (Some (orTestRxNumber config rx)) results w
       (testCheckStatus config rx results w)
  /\ reports "pharmacy_hours" None results w (testPharmacyHours results w).
Proof.
  split; [|split].
  - apply testRefillPrescription_reports.
  - apply testCheckStatus_reports.
  - apply testPharmacyHours_reports.
Qed.

Lemma assign_names results flow r name :
  name ∈ (assign results flow r).*1 <-> name = flow \/ name ∈ results.*1.
Proof.
  induction results as [|[name0 old] results IH]; csimpl.
  - rewrite list_elem_of_singleton.
    split; [by left | by intros [|?%elem_of_nil]].
  - destruct (String.eqb_spec name0 flow) as [-> |]; csimpl;
      rewrite !elem_of_cons; [tauto|]. rewrite IH. tauto.
Qed.

(** X17: [runAllTests] runs the three flows whatever fails: it returns, with
    an entry for each flow in the results (in the order of the flows when
    there were no results before), and three calls were started. *)
Theorem runAllTests_runs_all config results (w : World Env) :
  exists results' w' new,
    runAllTests config results w = (Return results', w')
    /\ events w' = events w ++ new
    /\ starts new = 3%nat
    /\ (forall flow,
          flow ∈ ["refill_prescription"; "check_status"; "pharmacy_hours"] ->
          flow ∈ results'.*1)
    /\ (results = [] ->
        results'.*1
        = ["refill_prescription"; "check_status"; "pharmacy_hours"])
    /\ (callActive (tester w') = true -> last (events w') = Some EvEndCall).
Proof.
  unfold runAllTests.
  destruct (testRefillPrescription_reports config None results w)
    as (b1 & r1 & w1 & new1 & Hrun1 & _ & _ & _ & _ & _ & E1 & S1).
  rewrite (bind_Return _ _ _ _ _ Hrun1). simpl snd.
  destruct (testCheckStatus_reports config None
              (assign results "refill_prescription" r1) w1)
    as (b2 & r2 & w2 & new2 & Hrun2 & _ & _ & _ & _ & _ & E2 & S2).
  rewrite (bind_Return _ _ _ _ _ Hrun2). simpl snd.
  destruct (testPharmacyHours_reports
              (assign (assign results "refill_prescription" r1)
                      "check_status" r2) w2)
    as (b3 & r3 & w3 & new3 & Hrun3 & _ & _ & _ & _ & Hactive & E3 & S3).
  rewrite (bind_Return _ _ _ _ _ Hrun3). simpl snd.
  eexists _, w3, (new1 ++ new2 ++ new3). split; [done|].
  split; [by rewrite E3, E2, E1, <- !app_assoc|].
  split; [rewrite !starts_app; lia|].
  split; [|split].
  - intros flow Hflow. rewrite !assign_names.
    apply list_elem_of_In in Hflow. simpl in Hflow.
    destruct Hflow as [<- | [<- | [<- | []]]]; auto.
  - by intros ->.
  - intros Hon. by apply Hactive.
Qed.

(** X18: a prescription flow that succeeds has sent the prescription number in
    one leg, whole (the flows do not split digits as the driver does), between
    the digit of the menu and, or not, the digit 1 that confirms; the call had
    the name of the flow and the prescription number in its SID, and it is
    ended. *)
Theorem prescription_flow_legs
    callName menuDigit flow config rx results (w : World Env) results' w' :
  prescriptionFlow callName menuDigit flow config rx results w
  = (Return (true, results'), w') ->
  exists confirmation,
    events w'
    = events w
      ++ prescriptionLegs menuDigit (orTestRxNumber config rx) confirmation
    /\ (confirmation = []
        \/ confirmation = [EvSendDtmf "1"; EvWait FullWait])
    /\ sid (tester w')
       = Some ((callName +:+ orTestRxNumber config rx) +:+ "_"
               +:+ fst (uuid8 (remote w)))
    /\ callActive (tester w') = false.
Proof.
  rewrite prescriptionFlow_shape. unfold tryCatch.
  destruct ((startCall _;; prescriptionSteps _ _ _ _) w)
    as [[[b r] | message |] w1] eqn:Hbody; [| | done].
  - intros [= -> -> ->].
    apply bind_Return_inv in Hbody as (p0 & w0 & Hstart & Hrun).
    apply (leg_Return (Start _)) in Hstart as [E0 Hsid0].
    unfold prescriptionSteps in Hrun.
    apply bind_Return_inv in Hrun as ([] & ? & [= <-] & Hrun).
    apply bind_Return_inv in Hrun as (p1 & w1 & Hleg1 & Hrun).
    apply (leg_Return Continue) in Hleg1 as [E1 Hsid1].
    apply bind_Return_inv in Hrun as (p2 & w2 & Hleg2 & Hrun).
    apply (leg_Return (Dtmf _)) in Hleg2 as [E2 Hsid2].
    apply bind_Return_inv in Hrun as ([] & ? & [= <-] & Hrun).
    apply bind_Return_inv in Hrun as (p3 & w3 & Hleg3 & Hrun).
    apply (leg_Return (Dtmf _)) in Hleg3 as [E3 Hsid3].
    apply bind_Return_inv in Hrun as ([] & ? & [= <-] & Hrun).
    apply bind_Return_inv in Hrun as (? & ? & [= <- <-] & Hrun).
    cbv zeta in Hrun.
    apply bind_Return_inv in Hrun as ([] & w4 & Hconfirm & Hrun).
    apply closing_Return in Hrun as (_ & Hidle & _ & E5 & Hsid5).
    simpl in *.
    assert (exists confirmation,
              events w4
              = events w3 ++ [EvWait FullWait] ++ confirmation
              /\ sid (tester w4) = sid (tester w3)
              /\ (confirmation = []
                  \/ confirmation = [EvSendDtmf "1"; EvWait FullWait]))
      as (confirmation & E4 & Hsid4 & Hcases).
    { destruct (asksToConfirm _).
      - apply bind_Return_inv in Hconfirm as (p4 & w5 & Hleg4 & Hwait).
        apply (leg_Return (Dtmf _)) in Hleg4 as [E4 Hsid4].
        injection Hwait as <-. simpl in *.
        exists [EvSendDtmf "1"; EvWait FullWait].
        split; [|by split; [|right]].
        by rewrite E4, <- !app_assoc.
      - injection Hconfirm as <-. exists []. simpl.
        by split; [|split; [|left]]. }
    exists confirmation. split; [|split; [done|split; [congruence | done]]].
    rewrite E5, E4, E3, E2, E1, E0. unfold prescriptionLegs.
    by rewrite <- !app_assoc.
  - unfold reportFailure. intros Hfail.
    apply bind_Return_inv in Hfail as ([] & w2 & _ & Hfail).
    rewrite bind_run, getState_run in Hfail. discriminate.
Qed.

End WithRemote.

Import Scripted.

(** The value of a computation that has returned one. *)
Definition returned {A S} (default : A) (run : Outcome A * S) : A :=
  match fst run with
  | Return a => a
  | _ => default
  end.

(** A session in which the IVR asks to confirm the prescription number. *)
Definition refillCall : World Script :=
  newWorld
    (mkScript [says "Thank you for calling";
               says "To refill a prescription, press 1";
               says "Please enter the prescription number";
               says "You entered 9009400. Is this correct?";
               says "Your refill has been submitted";
               says "Goodbye"] []).

Lemma flows_report_witness :
  exists b r w',
    testRefillPrescription defaultConfig None [] refillCall
    = (Return (b, [("refill_prescription", r)]), w')
    /\ success r = b.
Proof.
  destruct (@flows_report Script scripted defaultConfig None [] refillCall)
    as [(b & r & w' & new & Hrun & Hflag & _) _].
  exists b, r, w'. exact (conj Hrun Hflag).
Defined.

Lemma prescription_flow_legs_witness :
  exists confirmation,
    events (snd (testRefillPrescription defaultConfig None [] refillCall))
    = prescriptionLegs "1" "9009400" confirmation.
Proof.
  destruct (@prescription_flow_legs Script scripted
              "RefillRx_" "1" "refill_prescription" defaultConfig None []
              refillCall
              (snd (returned (false, [])
                      (testRefillPrescription defaultConfig None []
                         refillCall)))
              (snd (testRefillPrescription defaultConfig None [] refillCall)))
    as (confirmation & Hevents & _); [vm_compute; reflexivity|].
  exists confirmation. exact Hevents.
Defined.

Lemma runAllTests_runs_all_witness :
  exists results' w' new,
    runAllTests defaultConfig [] refillCall = (Return results', w')
    /\ events w' = new
    /\ results'.*1
       = ["refill_prescription"; "check_status"; "pharmacy_hours"].
Proof.
  destruct (@runAllTests_runs_all Script scripted defaultConfig [] refillCall)
    as (results' & w' & new & Hrun & Hevents & _ & _ & Hnames & _).
  exists results', w', new.
  exact (conj Hrun (conj Hevents (Hnames eq_refl))).
Defined.

End FlowsSpec.

(** ** Properties of [ivr-auto-navigator.js] *)

Module AutoNavigatorSpec.
Import Effects Session AutoNavigator.
Import DriverSpec IntegrationSpec.

(** *** [extractAction] *)

Lemma digit_not_space c : Js.isDigit c = true -> Js.isSpace c = false.
Proof. by destruct c as [[] [] [] [] [] [] [] []]. Qed.

Lemma digit_lower c : Js.isDigit c = true -> Js.lowerChar c = c.
Proof. by destruct c as [[] [] [] [] [] [] [] []]. Qed.

Lemma digits_lower s : Js.allDigits s = true -> Js.toLowerCase s = s.
Proof.
  induction s as [|c r IH]; simpl; [done|].
  rewrite andb_true_iff. intros [Hc Hr]. by rewrite (digit_lower c Hc), IH.
Qed.

(** A string of digits has no occurrence of a pattern that starts with
    another character. *)
Lemma digits_exclude s p0 pattern :
  Js.allDigits s = true -> Js.isDigit p0 = false ->
  Js.includes s (String p0 pattern) = false.
Proof.
  intros Hs Hp. induction s as [|c r IH]; simpl in *; [done|].
  apply andb_true_iff in Hs as [Hc Hr]. rewrite (IH Hr), orb_false_r.
  destruct (Ascii.eqb_spec p0 c) as [-> |]; [congruence | done].
Qed.

Lemma digits_pressAt s : Js.allDigits s = true -> pressAt s = None.
Proof.
  intros Hs. unfold pressAt. rewrite (digits_lower s Hs).
  destruct s as [|c r]; [done|].
  apply andb_true_iff in Hs as [Hc _].
  change (Js.startsWith (String c r) "press")
    with (Ascii.eqb "p" c && Js.startsWith r "ress").
  by destruct (Ascii.eqb_spec "p" c) as [<- |].
Qed.

Lemma digits_matchPress s : Js.allDigits s = true -> matchPress s = None.
Proof.
  induction s as [|c r IH]; [done|]. intros Hs.
  change (matchPress (String c r))
    with (match pressAt (String c r) with
          | Some digits => Some digits
          | None => matchPress r
          end).
  rewrite (digits_pressAt _ Hs). simpl in Hs.
  apply andb_true_iff in Hs as [_ Hr]. by apply IH.
Qed.

Lemma digits_takeDigits s : Js.allDigits s = true -> Js.takeDigits s = s.
Proof.
  induction s as [|c r IH]; simpl; [done|].
  rewrite andb_true_iff. intros [-> Hr]. by rewrite IH.
Qed.

Lemma digits_afterDigits s : Js.allDigits s = true -> afterDigits s = "".
Proof.
  induction s as [|c r IH]; simpl; [done|].
  rewrite andb_true_iff. intros [-> Hr]. by apply IH.
Qed.

Lemma digits_matchStandalone s :
  Js.allDigits s = true -> s <> "" -> matchStandalone s = Some s.
Proof.
  intros Hs Hne. unfold matchStandalone.
  assert (Js.trimStart s = s) as ->.
  { destruct s as [|c r]; simpl in *; [done|].
    apply andb_true_iff in Hs as [Hc _]. by rewrite (digit_not_space c Hc). }
  rewrite (digits_takeDigits s Hs), (digits_afterDigits s Hs).
  by destruct s.
Qed.

(** The action extracted from a string of digits is that string. *)
Lemma digits_fixed s :
  Js.allDigits s = true -> s <> "" -> extractAction s = s.
Proof.
  intros Hs Hne. unfold extractAction.
  rewrite (digits_matchPress s Hs), (digits_lower s Hs).
  rewrite !(digits_exclude s "p") by done. simpl.
  by rewrite (digits_matchStandalone s Hs Hne).
Qed.

Lemma pressAt_digits s digits :
  pressAt s = Some digits -> Js.allDigits digits = true /\ digits <> "".
Proof.
  unfold pressAt. destruct (Js.startsWith _ _); [|done].
  destruct (afterSpaces _) as [rest|]; [|done].
  pose proof (takeDigits_allDigits rest) as Hall.
  destruct (Js.takeDigits rest); [done|]. by intros [= <-].
Qed.

Lemma matchPress_digits s digits :
  matchPress s = Some digits -> Js.allDigits digits = true /\ digits <> "".
Proof.
  induction s as [|c r IH].
  - done.
  - change (matchPress (String c r))
      with (match pressAt (String c r) with
            | Some digits => Some digits
            | None => matchPress r
            end).
    destruct (pressAt (String c r)) eqn:E; [|done].
    intros [= <-]. by apply (pressAt_digits (String c r)).
Qed.

Lemma matchStandalone_digits s digits :
  matchStandalone s = Some digits ->
  Js.allDigits digits = true /\ digits <> "".
Proof.
  unfold matchStandalone.
  pose proof (takeDigits_allDigits (Js.trimStart s)) as Hall.
  destruct (Js.takeDigits _); [done|].
  destruct (Js.isBlank _); [|done]. by intros [= <-].
Qed.

(** X19: the action is a run of digits, a star, a hash, the words Hang Up or
    the response itself, in this order of preference: digits after the word
    press win over everything else that the response says, and the words hang
    up are only looked for when nothing else was found. Extracting the action
    of an action gives the action. *)
Theorem extractAction_classifies response :
  (Js.isDigitString (extractAction response) = true
   \/ extractAction response = "*"
   \/ extractAction response = "#"
   \/ (extractAction response = "Hang Up"
       /\ Js.includes (Js.toLowerCase response) "hang up" = true
       /\ matchPress response = None)
   \/ extractAction response = response)
  /\ (forall digits, matchPress response = Some digits ->
                     extractAction response = digits)
  /\ extractAction (extractAction response) = extractAction response.
Proof.
  assert (forall digits,
            Js.allDigits digits = true -> digits <> "" ->
            Js.isDigitString digits = true) as Hdigits.
  { intros digits Hall Hne. unfold Js.isDigitString. rewrite Hall.
    by destruct digits. }
  split; [|split].
  - unfold extractAction.
    destruct (matchPress response) as [digits|] eqn:Hpress.
    { left. by apply Hdigits; apply (matchPress_digits response). }
    destruct (_ || _); [by right; left|].
    destruct (_ || _); [by right; right; left|].
    destruct (matchStandalone response) as [digits|] eqn:Halone.
    { left. by apply Hdigits; apply (matchStandalone_digits response). }
    destruct (Js.includes _ "hang up") eqn:Hhang; [|by repeat right].
    by right; right; right; left.
  - intros digits Hpress. unfold extractAction. by rewrite Hpress.
  - unfold extractAction at 2 3.
    destruct (matchPress response) as [digits|] eqn:Hpress.
    { by apply digits_fixed; apply (matchPress_digits response). }
    cbv zeta.
    destruct (Js.includes (Js.toLowerCase response) "press asterisk"
              || Js.includes (Js.toLowerCase response) "press star")
      eqn:Hstar; [done|].
    destruct (Js.includes (Js.toLowerCase response) "press pound"
              || Js.includes (Js.toLowerCase response) "press hash")
      eqn:Hhash; [done|].
    destruct (matchStandalone response) as [digits|] eqn:Halone.
    { by apply digits_fixed; apply (matchStandalone_digits response). }
    destruct (Js.includes _ "hang up") eqn:Hhang; [done|].
    unfold extractAction. cbv zeta.
    by rewrite Hpress, Hstar, Hhash, Halone, Hhang.
Qed.

(** *** The navigation *)

Section WithRemote.
Context {Env : Type} `{Remote Env}.

(** The history and the step counter of the navigator. *)
Definition books (d : Desk Env) : list Entry * nat :=
  (history (navigator d), currentStep (navigator d)).

Lemma createSession_cases (d : Desk Env) :
  exists d',
    books d' = books d
    /\ ((exists id, createSession d = (Return id, d'))
        \/ (exists message, createSession d = (Throw message, d'))).
Proof.
  unfold createSession. rewrite bind_run. unfold call.
  destruct (postSession (service d)) as [[message | id] env].
  - eexists. split; [|right; by eexists]. done.
  - eexists. split; [|left; by eexists]. done.
Qed.

Lemma endSession_quiet (d : Desk Env) :
  exists d', endSession d = (Return tt, d') /\ books d' = books d.
Proof.
  unfold endSession. rewrite bind_run. simpl.
  destruct (noSession (navigator d)); [by exists d|].
  unfold tryCatch. rewrite bind_run. unfold call.
  destruct (deleteSession _ _) as [[message | []] env]; by eexists.
Qed.

(** The entry that [sendMessage] pushes. *)
Definition pushed (d : Desk Env) (message answer : string) : Entry :=
  {| step := S (currentStep (navigator d)); prompt := message;
     response := answer; action := None |}.

(** The [try] statement of [sendMessage]. *)
Definition posting (message : string) : M (Desk Env) (option string) :=
  tryCatch
    (d ← get;
     answer ←
       call (EvMessage message)
         (postMessage (default "" (sessionId (navigator d))) message);
     setNavigator (fun n =>
       {| sessionId := sessionId n;
          history :=
            history n
            ++ [{| step := S (currentStep n); prompt := message;
                   response := answer; action := None |}];
          currentStep := S (currentStep n) |});;
     mret (Some answer))
    (fun _ => mret None).

Lemma sendMessage_shape message :
  sendMessage message
  = (d ← get;
     (if noSession (navigator d) then createSession;; mret tt else mret tt);;
     posting message).
Proof. reflexivity. Qed.

Lemma posting_cases message (d : Desk Env) :
  exists d',
    (posting message d = (Return None, d') /\ books d' = books d)
    \/ (exists answer,
          posting message d = (Return (Some answer), d')
          /\ history (navigator d')
             = history (navigator d) ++ [pushed d message answer]
          /\ currentStep (navigator d') = S (currentStep (navigator d))).
Proof.
  unfold posting, tryCatch. rewrite bind_run. simpl.
  rewrite bind_run. unfold call.
  destruct (postMessage _ _ _) as [[failure | answer] env]; simpl.
  - eexists. left. by split.
  - eexists. right. exists answer. by split.
Qed.

Lemma sendMessage_cases message (d : Desk Env) :
  exists d',
    (exists failure,
       sendMessage message d = (Throw failure, d') /\ books d' = books d)
    \/ (sendMessage message d = (Return None, d') /\ books d' = books d)
    \/ (exists answer,
          sendMessage message d = (Return (Some answer), d')
          /\ history (navigator d')
             = history (navigator d) ++ [pushed d message answer]
          /\ currentStep (navigator d') = S (currentStep (navigator d))).
Proof.
  rewrite sendMessage_shape, bind_run. simpl.
  destruct (noSession (navigator d)).
  - rewrite bind_run.
    destruct (createSession_cases d) as (d1 & Hbooks & [[id E] | [failure E]]).
    + rewrite bind_run, E. simpl. injection Hbooks as Hh Hs.
      destruct (posting_cases message d1)
        as (d' & [[E' Hb] | (answer & E' & Hh' & Hs')]);
        exists d'; rewrite E'.
      * right. left. split; [done|]. rewrite Hb. unfold books. congruence.
      * right. right. exists answer. split; [done|].
        unfold pushed in *. rewrite Hh', Hs', Hh, Hs. done.
    + rewrite bind_run, E. exists d1. left. exists failure. by split.
  - rewrite bind_run. simpl.
    destruct (posting_cases message d)
      as (d' & [[E' Hb] | (answer & E' & Hh' & Hs')]);
      exists d'; rewrite E'.
    + right. left. by split.
    + right. right. exists answer. by split.
Qed.

Lemma setLastAction_snoc entries entry act :
  setLastAction (entries ++ [entry]) act
  = Some (entries
          ++ [{| step := step entry; prompt := prompt entry;
                 response := response entry; action := Some act |}]).
Proof.
  induction entries as [|first entries IH]; [done|].
  change ((first :: entries) ++ [entry])
    with (first :: (entries ++ [entry])).
  destruct (entries ++ [entry]) as [|second rest] eqn:E.
  - by destruct entries.
  - change (setLastAction (first :: second :: rest) act)
      with (cons first <$> setLastAction (second :: rest) act).
    by rewrite IH.
Qed.

(** The entries of a run tell that it is complete: the last one has the
    action Hang Up. *)
Definition hungUp (entries : list Entry) : Prop :=
  exists entry, last entries = Some entry /\ action entry = Some "Hang Up".

(** What the loop has done when it is left, by its condition, by a [break]
    or by an error. *)
Definition navigated (config : Config) (d : Desk Env)
    (outcome : Outcome bool) (d' : Desk Env) (entries : list Entry)
    : Prop :=
  outcome <> OutOfFuel
  /\ history (navigator d') = history (navigator d) ++ entries
  /\ map step entries
     = seq (S (currentStep (navigator d))) (length entries)
  /\ currentStep (navigator d')
     = (currentStep (navigator d) + length entries)%nat
  /\ ((currentStep (navigator d) <= maxSteps config)%nat ->
        (currentStep (navigator d') <= maxSteps config)%nat)
  /\ (forall isComplete,
        outcome = Return isComplete ->
        (isComplete = true <-> hungUp entries)).

Lemma not_hungUp_nil : ~ hungUp [].
Proof. by intros (entry & [=] & _). Qed.

Lemma navigated_still config (d d' : Desk Env) outcome :
  books d' = books d ->
  outcome <> OutOfFuel ->
  (forall isComplete, outcome = Return isComplete -> isComplete = false) ->
  navigated config d outcome d' [].
Proof.
  intros [= Hh Hs] Hfuel Hfalse. unfold navigated.
  rewrite app_nil_r, Hh, Hs. simpl.
  split; [done|]. split; [done|]. split; [done|]. split; [lia|].
  split; [done|].
  intros isComplete Hret. rewrite (Hfalse _ Hret).
  split; [done | by intros ?%not_hungUp_nil].
Qed.

Lemma navigationLoop_body fuel config currentPrompt :
  navigationLoop (S fuel) config currentPrompt
  = (d ← get;
     if Nat.ltb (currentStep (navigator d)) (maxSteps config) then
       response ← sendMessage currentPrompt;
       match response with
       | None => mret false
       | Some answer =>
           if String.eqb answer "" then mret false
           else
             let act := extractAction answer in
             d ← get;
             match setLastAction (history (navigator d)) act with
             | None =>
                 throw "Cannot set properties of undefined (setting 'action')"
             | Some entries =>
                 setNavigator (fun n =>
                   {| sessionId := sessionId n; history := entries;
                      currentStep := currentStep n |});;
                 if String.eqb act "Hang Up" then mret true
                 else
                   pause;;
                   navigationLoop fuel config (simulateIvrResponse act)
             end
       end
     else mret false).
Proof. reflexivity. Qed.

Lemma navigationLoop_navigated fuel : forall config currentPrompt d,
  (maxSteps config - currentStep (navigator d) < fuel)%nat ->
  exists entries,
    navigated config d
      (fst (navigationLoop fuel config currentPrompt d))
      (snd (navigationLoop fuel config currentPrompt d)) entries.
Proof.
  induction fuel as [|fuel IH]; intros config currentPrompt d Hfuel; [lia|].
  rewrite navigationLoop_body, bind_run. simpl.
  destruct (Nat.ltb_spec (currentStep (navigator d)) (maxSteps config))
    as [Hless | Hmax].
  2: { exists []. apply navigated_still; [done | done |]. by intros ? [= <-]. }
  rewrite bind_run.
  destruct (sendMessage_cases currentPrompt d)
    as (d1 & [(failure & -> & Hbooks)
             | [[-> Hbooks] | (answer & -> & Hh1 & Hs1)]]).
  - exists []. by apply navigated_still.
  - exists []. apply navigated_still; [done | done |]. by intros ? [= <-].
  - destruct (String.eqb_spec answer "") as [-> | Hanswer].
    + exists [pushed d currentPrompt ""]. unfold navigated. simpl.
      rewrite Hh1, Hs1.
      split; [done|]. split; [done|]. split; [done|]. split; [lia|].
      split; [lia|]. intros isComplete [= <-].
      split; [done | by intros (entry & [= <-] & [=])].
    + rewrite bind_run. simpl. rewrite Hh1, setLastAction_snoc.
      rewrite bind_run. simpl.
      set (entry := {| step := S (currentStep (navigator d));
                       prompt := currentPrompt; response := answer;
                       action := Some (extractAction answer) |}).
      destruct (String.eqb_spec (extractAction answer) "Hang Up")
        as [Hhang | Hgoes].
      * exists [entry]. unfold navigated. simpl. rewrite Hs1.
        split; [done|]. split; [done|]. split; [done|]. split; [lia|].
        split; [lia|]. intros isComplete [= <-]. split; [|done].
        intros _. exists entry. split; [done|]. simpl. by rewrite Hhang.
      * rewrite bind_run. simpl.
        match goal with
        | |- context [navigationLoop fuel config ?p ?d2] =>
            destruct (IH config p d2) as (entries & Hnav);
            [simpl; lia|];
            destruct (navigationLoop fuel config p d2) as [outcome d3]
        end.
        destruct Hnav as (Hrun & Hh & Hsteps & Hs & Hle & Hdone).
        simpl in *. rewrite Hs1 in *.
        exists (entry :: entries). unfold navigated. simpl.
        split; [done|]. split; [by rewrite Hh, <- app_assoc|].
        split; [by rewrite Hsteps|]. split; [lia|]. split; [intros; lia|].
        intros isComplete Hret. rewrite (Hdone isComplete Hret).
        unfold hungUp. destruct entries as [|next entries].
        { split; [by intros (? & [=] & _)|].
          intros (e & [= <-] & [= Hact]). by rewrite Hact in Hgoes. }
        done.
Qed.

(** X20: a run of the navigator with more fuel than [maxSteps] returns: it
    neither throws nor loops for ever. The history is the one from before
    followed by the entries of this run, numbered from the step counter on,
    one for each step counted; the step counter does not pass [maxSteps]; and
    the summary says [complete] exactly when the last entry of the run has the
    action Hang Up: a run that ends on the step bound, or because Amazon Q did
    not answer, is not complete. *)
Theorem autoNavigation_summary fuel config (d : Desk Env) :
  (maxSteps config < fuel)%nat ->
  exists summary d' entries,
    runAutomatedNavigation fuel config d = (Return summary, d')
    /\ history (navigator d') = history (navigator d) ++ entries
    /\ map step entries
       = seq (S (currentStep (navigator d))) (length entries)
    /\ currentStep (navigator d')
       = (currentStep (navigator d) + length entries)%nat
    /\ ((currentStep (navigator d) <= maxSteps config)%nat ->
          (currentStep (navigator d') <= maxSteps config)%nat)
    /\ (forall s, summary = Some s ->
          steps s = currentStep (navigator d')
          /\ (complete s = true <-> hungUp entries)).
Proof.
  intros Hfuel. unfold runAutomatedNavigation.
  assert (forall d1 : Desk Env,
            exists d',
              (tryCatch endSession (fun _ => mret tt);; mret None) d1
              = (Return (@None Summary), d')
              /\ books d' = books d1) as Hcatch.
  { intros d1. destruct (endSession_quiet d1) as (d' & E & Hb').
    exists d'.
    by rewrite (bind_Return _ _ _ _ _ (tryCatch_Return _ _ _ _ _ E)). }
  match goal with
  | |- context [tryCatch ?b ?h d] => set (body := b); set (handler := h)
  end.
  assert (forall failure d1,
            body d = (Throw failure, d1) ->
            tryCatch body handler d = handler failure d1) as Hthrown.
  { intros failure d1 E. unfold tryCatch. by rewrite E. }
  destruct (createSession_cases d) as (d1 & Hb1 & [[id E1] | [failure E1]]).
  2: { rewrite (Hthrown failure d1) by (unfold body; by rewrite bind_run, E1).
       unfold handler. cbv beta.
       destruct (Hcatch d1) as (d' & -> & Hb'). rewrite Hb1 in Hb'.
       injection Hb' as Hh Hs.
       exists None, d', []. rewrite app_nil_r, Hh, Hs. simpl.
       split; [done|]. split; [done|]. split; [done|]. split; [lia|].
       split; [done|]. by intros s [=]. }
  injection Hb1 as Hh1 Hs1.
  destruct (navigationLoop_navigated fuel config firstPrompt d1)
    as (entries & Hrun & Hh & Hsteps & Hs & Hle & Hdone); [lia|].
  rewrite Hh1, Hs1 in *.
  destruct (navigationLoop fuel config firstPrompt d1)
    as [[isComplete | failure |] d2] eqn:E2; simpl in *; [| | done].
  - destruct (endSession_quiet d2) as (d3 & E3 & [= Hh3 Hs3]).
    exists (Some {| steps := currentStep (navigator d3);
                    complete := isComplete |}), d3, entries.
    split.
    { apply tryCatch_Return. unfold body.
      rewrite bind_run, E1, bind_run, E2, bind_run, E3. reflexivity. }
    rewrite Hh3, Hs3.
    split; [done|]. split; [done|]. split; [done|]. split; [done|].
    intros s [= <-]. simpl. by split; [|apply Hdone].
  - rewrite (Hthrown failure d2)
      by (unfold body; by rewrite bind_run, E1, bind_run, E2).
    unfold handler. cbv beta.
    destruct (Hcatch d2) as (d3 & -> & [= Hh3 Hs3]).
    exists None, d3, entries. rewrite Hh3, Hs3.
    split; [done|]. split; [done|]. split; [done|]. split; [done|].
    split; [done|]. by intros s [=].
Qed.

End WithRemote.

Import Scripted.

Lemma extractAction_classifies_witness :
  extractAction "I would press 1 and then hang up" = "1".
Proof.
  destruct (extractAction_classifies "I would press 1 and then hang up")
    as (_ & Hpress & _).
  apply Hpress. reflexivity.
Defined.

(** A session in which Amazon Q answers to press 1 and then to hang up. *)
Definition twoAnswers : Desk Script :=
  mkDesk (mkScript [] [inr "Press 1 for sales"; inr "You can hang up now"])
         newNavigator [].

Lemma autoNavigation_summary_witness :
  exists summary d' entries,
    runAutomatedNavigation 21 (mkConfig 20) twoAnswers = (Return summary, d')
    /\ history (navigator d') = entries
    /\ map step entries = seq 1 (length entries).
Proof.
  destruct (@autoNavigation_summary Script scripted 21%nat (mkConfig 20)
              twoAnswers)
    as (summary & d' & entries & Hrun & Hhistory & Hsteps & _);
    [simpl; lia|].
  exists summary, d', entries. exact (conj Hrun (conj Hhistory Hsteps)).
Defined.

End AutoNavigatorSpec.

(** ** Properties of the test runner *)

Module RunnerSpec.
Import Effects Session Integration Runner.
Import DriverSpec IntegrationSpec.

Section WithRemote.
Context {Env : Type} `{Remote Env}.

(** X21: the runner never takes the way of the unhandled error: whatever
    happens in the test, [main] prints the report of the test and where the
    results were saved, and the process ends with status 0, also when the test
    has failed. The steps that it prints are at least 1 for a test that
    succeeded. *)
Theorem main_status fuel name (w : World Env) :
  (maxSteps <= fuel)%nat ->
  exists exit w',
    main fuel name w = (Return exit, w')
    /\ status exit = 0%nat
    /\ resultsSaved exit = true
    /\ match report exit with
       | TestCompleted completed => (1 <= completed <= maxSteps)%nat
       | TestFailed failure completedBefore =>
           completedBefore = currentStep (integration w')
       | UnhandledError _ => False
       end.
Proof.
  intros Hfuel.
  destruct (run_books fuel name w Hfuel)
    as (result & w' & entries & Hrun & Hsteps & _ & _ & _ & Hlen & Hcases).
  unfold main.
  exists (if success result
          then {| report := TestCompleted (steps result);
                  resultsSaved := true; status := 0 |}
          else {| report := TestFailed (default "" (error result))
                                       (steps result);
                  resultsSaved := true; status := 0 |}), w'.
  split.
  { apply tryCatch_Return. rewrite (bind_Return _ _ _ _ _ Hrun).
    by destruct (success result). }
  destruct (success result); simpl; [|done].
  destruct Hcases as (_ & -> & Hpos). repeat split; try done; lia.
Qed.

End WithRemote.

Import Scripted.

Lemma main_status_witness :
  exists exit w',
    main 20 "AI_IVR_Test" endless = (Return exit, w')
    /\ status exit = 0%nat.
Proof.
  destruct (@main_status Script scripted 20%nat "AI_IVR_Test" endless)
    as (exit & w' & Hrun & Hstatus & _); [unfold maxSteps; lia|].
  exists exit, w'. exact (conj Hrun Hstatus).
Defined.

End RunnerSpec.

(** ** Properties of the conversation of a session *)

Module SessionApiSpec.
Import SessionApi.

(** The messages of a conversation in which every prompt was answered. *)
Definition conversation (exchanges : list (string * string))
    : list Message :=
  flat_map (fun e => [{| role := User; content := fst e |};
                      {| role := Assistant; content := snd e |}])
           exchanges.

(** An exchange as the history has it. *)
Definition exchangeText (asked answered : string) : string :=
  "Human: " +:+ formatUserMessage asked +:+ lineFeed
  +:+ "Amazon Q: " +:+ answered +:+ lineFeed +:+ lineFeed.

Definition transcript (exchanges : list (string * string)) : string :=
  fold_right (fun e rest => exchangeText (fst e) (snd e) +:+ rest)
             EmptyString exchanges.

Lemma append_assoc (a b c : string) : (a +:+ b) +:+ c = a +:+ (b +:+ c).
Proof.
  induction a as [|x a IH]; [done|].
  change (String x ((a +:+ b) +:+ c) = String x (a +:+ (b +:+ c))).
  by rewrite IH.
Qed.

Lemma historyContent_exchange asked answered rest :
  historyContent ({| role := User; content := asked |}
                  :: {| role := Assistant; content := answered |} :: rest)
  = exchangeText asked answered +:+ historyContent rest.
Proof.
  unfold exchangeText. cbn [historyContent content].
  by rewrite !append_assoc.
Qed.

Lemma historyContent_conversation exchanges rest :
  historyContent (conversation exchanges ++ rest)
  = transcript exchanges +:+ historyContent rest.
Proof.
  induction exchanges as [|[asked answered] exchanges IH]; [done|].
  cbn [conversation flat_map app fst snd transcript fold_right].
  fold (conversation exchanges). fold (transcript exchanges).
  change (historyContent
            ({| role := User; content := asked |}
             :: {| role := Assistant; content := answered |}
             :: (conversation exchanges ++ rest))
          = (exchangeText asked answered +:+ transcript exchanges)
            +:+ historyContent rest).
  by rewrite historyContent_exchange, IH, append_assoc.
Qed.

Lemma append_empty (a : string) : a +:+ "" = a.
Proof.
  induction a as [|x a IH]; [done|].
  change (String x (a +:+ "") = String x a). by rewrite IH.
Qed.

Lemma conversation_snoc exchanges asked answered :
  conversation (exchanges ++ [(asked, answered)])
  = conversation exchanges
    ++ [{| role := User; content := asked |};
        {| role := Assistant; content := answered |}].
Proof. unfold conversation. by rewrite flat_map_app; simpl. Qed.

Section WithWrapper.
Context {Env : Type} `{Wrapper Env}.

(** X22: in a session whose prompts were all answered, the wrapper is given
    the exchanges so far as the history, each once and in order, without the
    new prompt; an answer is trimmed and makes one more exchange; an error
    leaves the new prompt in the messages without an answer. *)
Theorem conversation_history session exchanges message now (env : Env) :
  messages session = conversation exchanges ->
  sendMessage session message now env
  = match execWrapper (profile session) (transcript exchanges)
                      (escapeQuotes message) env with
    | (inr result, env') =>
        (inr (Js.trim result),
         {| profile := profile session;
            messages :=
              conversation (exchanges ++ [(message, Js.trim result)]);
            lastActivity := now |},
         env')
    | (inl failure, env') =>
        (inl failure,
         {| profile := profile session;
            messages :=
              conversation exchanges
              ++ [{| role := User; content := message |}];
            lastActivity := now |},
         env')
    end.
Proof.
  intros Hmessages. unfold sendMessage. rewrite Hmessages.
  rewrite historyContent_conversation. simpl historyContent.
  rewrite append_empty.
  destruct (execWrapper _ _ _ _) as [[failure | result] env']; [done|].
  by rewrite conversation_snoc, <- app_assoc.
Qed.

(** X23: after an error the messages are out of step. The next prompt is
    paired with the prompt that was left without an answer: the history given
    to the wrapper ends with the failed prompt as the words of the human and
    the new prompt as the answer of Amazon Q; and an answer to the new prompt
    leaves the messages with two prompts in a row. *)
Theorem failed_prompt_pairs_with_next
    session exchanges failed message now (env : Env) :
  messages session
  = conversation exchanges ++ [{| role := User; content := failed |}] ->
  sendMessage session message now env
  = match execWrapper (profile session)
            (transcript exchanges +:+ exchangeText failed message)
            (escapeQuotes message) env with
    | (inr result, env') =>
        (inr (Js.trim result),
         {| profile := profile session;
            messages :=
              conversation exchanges
              ++ [{| role := User; content := failed |};
                  {| role := User; content := message |};
                  {| role := Assistant; content := Js.trim result |}];
            lastActivity := now |},
         env')
    | (inl failure, env') =>
        (inl failure,
         {| profile := profile session;
            messages :=
              conversation exchanges
              ++ [{| role := User; content := failed |};
                  {| role := User; content := message |}];
            lastActivity := now |},
         env')
    end.
Proof.
  intros Hmessages. unfold sendMessage. rewrite Hmessages.
  rewrite <- !app_assoc. rewrite historyContent_conversation.
  change ([{| role := User; content := failed |}]
          ++ [{| role := User; content := message |}])
    with ({| role := User; content := failed |}
          :: {| role := User; content := message |} :: []).
  assert (historyContent [{| role := User; content := failed |};
                          {| role := User; content := message |}]
          = exchangeText failed message) as ->.
  { unfold exchangeText. cbn [historyContent content].
    by rewrite !append_empty. }
  destruct (execWrapper _ _ _ _) as [[failure | result] env']; [done|].
  by rewrite <- !app_assoc.
Qed.

End WithWrapper.

(** A wrapper that answers from a list of replies. *)
#[local] Instance scriptedWrapper : Wrapper (list (string + string)) := {
  execWrapper _ _ _ replies :=
    match replies with
    | [] => (inl "spawnSync /bin/sh ETIMEDOUT", [])
    | reply :: rest => (reply, rest)
    end
}.

Lemma conversation_history_witness :
  sendMessage
    {| profile := "IVR_tester";
       messages := conversation [("Press 1 for refills", "1")];
       lastActivity := 0 |}
    "Please enter the prescription number" 5 [inr " 9009400
"]
  = (inr "9009400",
     {| profile := "IVR_tester";
        messages :=
          conversation [("Press 1 for refills", "1");
                        ("Please enter the prescription number", "9009400")];
        lastActivity := 5 |},
     []).
Proof.
  rewrite (conversation_history
             {| profile := "IVR_tester";
                messages := conversation [("Press 1 for refills", "1")];
                lastActivity := 0 |}
             [("Press 1 for refills", "1")]
             "Please enter the prescription number" 5 _ eq_refl).
  reflexivity.
Defined.

Lemma failed_prompt_pairs_with_next_witness :
  fst (fst (sendMessage
              {| profile := "IVR_tester";
                 messages := [{| role := User; content := "Press 1" |}];
                 lastActivity := 0 |}
              "Press 2" 5 [inr "2"]))
  = inr "2".
Proof.
  rewrite (failed_prompt_pairs_with_next
             {| profile := "IVR_tester";
                messages := [{| role := User; content := "Press 1" |}];
                lastActivity := 0 |}
             [] "Press 1" "Press 2" 5 [inr "2"] eq_refl).
  reflexivity.
Defined.

End SessionApiSpec.

(** ** Properties of [extractTextFromResponse] *)

Module ResponseTextSpec.
Import Session FlowTester.
Import ActionSpec.

(** A node that gives no text but white space: a text of white space, or
    an element with attributes, which [extractTextFromResponse] reads as
    the empty string. *)
Definition nodeBlank (node : SayNode) : bool :=
  match node with
  | SayText text => allSpace text
  | SayElement => true
  end.

Definition sayBlank (say : SayField) : bool :=
  match say with
  | SayAbsent => true
  | SaySingle node => nodeBlank node
  | SayArray nodes => forallb nodeBlank nodes
  end.

Lemma allSpace_append a b : allSpace (a +:+ b) = allSpace a && allSpace b.
Proof.
  induction a as [|c a IH]; [done|].
  change (Js.isSpace c && allSpace (a +:+ b)
          = Js.isSpace c && allSpace a && allSpace b).
  by rewrite IH, andb_assoc.
Qed.

Lemma allSpace_joinSpace texts :
  allSpace (Js.joinSpace texts) = forallb allSpace texts.
Proof.
  induction texts as [|text [|next texts] IH]; [done | |].
  - simpl. by rewrite andb_true_r.
  - change (allSpace (text +:+ " " +:+ Js.joinSpace (next :: texts))
            = allSpace text && forallb allSpace (next :: texts)).
    by rewrite !allSpace_append, IH.
Qed.

Lemma isBlank_allSpace text : Js.isBlank text = allSpace text.
Proof.
  unfold Js.isBlank. apply eq_true_iff_eq.
  by rewrite String.eqb_eq, trim_empty.
Qed.

Lemma sayText_blank say : allSpace (sayText say) = sayBlank say.
Proof.
  destruct say as [| [text|] | nodes]; try done. simpl.
  rewrite allSpace_joinSpace. induction nodes as [|node nodes IH]; [done|].
  simpl. rewrite IH. by destruct node.
Qed.

(** X24: when the driver takes a reply for blank: when the reply did not parse
    or has no [Response], or when every [Say] and [Gather.Say] node is white
    space or an element with attributes. The words of an element with
    attributes are not read. *)
Theorem blank_reply response :
  Js.isBlank (extractTextFromResponse response)
  = match response with
    | None => true
    | Some resp => sayBlank (Say resp) && sayBlank (GatherSay resp)
    end.
Proof.
  rewrite isBlank_allSpace. destruct response as [resp|]; [|done].
  unfold extractTextFromResponse.
  by rewrite allSpace_append, !sayText_blank.
Qed.

End ResponseTextSpec.

(** ** The scripted policy and the table of inputs *)

Module PolicySpec.
Import Tracker TrackerMethods.

(** X25: outside exploration mode, the input that [getNextAction] gives is the
    one that [getInput] finds in [STATE_INPUTS] for the action that it names,
    in every state but one: in REPEAT_OPTIONS the policy presses 4 for the
    hours, and the table has no input for that state. *)
Theorem scripted_policy_follows_inputs t options :
  mode options <> "explore" ->
  (currentState t <> REPEAT_OPTIONS ->
   getInput t (action (getNextAction t options)) ""
   = Token (default "" (input (getNextAction t options))))
  /\ (currentState t = REPEAT_OPTIONS ->
      input (getNextAction t options) = Some "4"
      /\ getInput t (action (getNextAction t options)) "" = Token "").
Proof.
  intros Hmode. unfold getNextAction, getInput.
  destruct (String.eqb_spec (mode options) "explore") as [E | _]; [done|].
  split.
  - intros Hstate. by destruct (currentState t).
  - by intros ->.
Qed.

Lemma scripted_policy_follows_inputs_witness :
  getInput Scripted.pharmacyHours
    (action (getNextAction Scripted.pharmacyHours defaultOptions)) ""
  = Token "1".
Proof.
  destruct (scripted_policy_follows_inputs Scripted.pharmacyHours
              defaultOptions) as [Hagree _]; [discriminate|].
  apply Hagree. vm_compute. discriminate.
Defined.

End PolicySpec.

(** ** The classifier and the case of the letters *)

Module ClassifierSpec.
Import Tracker.

Lemma toLowerCase_empty_iff text : Js.toLowerCase text = "" <-> text = "".
Proof. by destruct text. Qed.

Lemma lowerChar_idem c : Js.lowerChar (Js.lowerChar c) = Js.lowerChar c.
Proof. by destruct c as [[] [] [] [] [] [] [] []]. Qed.

Lemma toLowerCase_idem text :
  Js.toLowerCase (Js.toLowerCase text) = Js.toLowerCase text.
Proof.
  induction text as [|c text IH]; [done|].
  simpl. by rewrite lowerChar_idem, IH.
Qed.

(** X26: the tracker reads a reply without regard to the case of its
    letters: two replies that are the same once in lower case are
    classified the same and move the tracker the same way; in particular a
    reply and its lower case.  The same holds of a pattern that is
    registered: it matches by its lower case. *)
Theorem classification_ignores_case t text1 text2 :
  Js.toLowerCase text1 = Js.toLowerCase text2 ->
  identifyState t text1 = identifyState t text2
  /\ updateState t text1 = updateState t text2
  /\ identifyState t (Js.toLowerCase text1) = identifyState t text1
  /\ (forall pattern,
        TrackerSpec.containsPattern text1 pattern
        <-> TrackerSpec.containsPattern text2 (Js.toLowerCase pattern)).
Proof.
  intros Hcase.
  assert (forall a b, Js.toLowerCase a = Js.toLowerCase b ->
                      identifyState t a = identifyState t b) as Hsame.
  { intros a b Hab. unfold identifyState.
    destruct (String.eqb_spec a "") as [-> | Ha];
      destruct (String.eqb_spec b "") as [-> | Hb];
      [done | | | by rewrite Hab].
    - symmetry in Hab.
      by apply (proj1 (toLowerCase_empty_iff b)) in Hab.
    - by apply (proj1 (toLowerCase_empty_iff a)) in Hab. }
  split; [by apply Hsame|]. split; [|split].
  - unfold updateState. by rewrite (Hsame _ _ Hcase).
  - apply Hsame, toLowerCase_idem.
  - intros pattern. unfold TrackerSpec.containsPattern.
    by rewrite Hcase, toLowerCase_idem.
Qed.

Lemma classification_ignores_case_witness :
  identifyState newTracker "PLEASE ENTER THE PRESCRIPTION NUMBER"
  = identifyState newTracker "Please enter the prescription number".
Proof.
  destruct (classification_ignores_case newTracker
              "PLEASE ENTER THE PRESCRIPTION NUMBER"
              "Please enter the prescription number" eq_refl)
    as [Hsame _].
  exact Hsame.
Defined.

End ClassifierSpec.
